(** * Error-analysis and cross-validation pipeline of [helper.py]

    A shallow embedding of [error_cross_validate], [top_n_errors],
    [comps2sent], [sent_type_errors] and [error_analysis] (helper.py,
    lines 280-400), with the properties the specification states about
    them, followed by the helpers [ngrams], [unitok_tokens], [max_length],
    [process_data] and [__text_sentiment_company] of the same file and
    further properties of all of them.

    Conventions of the embedding:
    - a Python call that may raise returns a [result]; exceptions are the
      constructors of [exn];
    - the regressor [clf] is an object mutated in place by [fit]; the code
      that uses it runs in the state-and-exception monad [M] over a [world]
      that holds the model's state and the log of calls made to it;
    - a Python [dict] is an insertion-ordered association list ([dict_get],
      [dict_set], [dict_items]), because the code iterates over dicts and
      the iteration order of a Python dict is its insertion order;
    - a dict key is hashed before it is looked up: [Hashable] tells which
      values of a type can be hashed, and a key that cannot raises
      TypeError;
    - indices produced by [range] and by [KFold] are [nat]; integers
      supplied by the caller ([n_folds], [n], [num_errors]) are [Z]. *)

From Stdlib Require Import ssreflect ZArith Lia.
From stdpp Require Import base option list sorting gmap strings.

Global Open Scope general_if_scope.
Set Warnings "-rewrite-rw".

Local Open Scope Z_scope.
Local Open Scope nat_scope.

(** ** Exceptions and the exception monad *)

Inductive exn : Type :=
  | ValueError
  | IndexError
  | KeyError
  | TypeError
  | ModelFailure.

Inductive result (A : Type) : Type :=
  | Ok (a : A)
  | Raise (e : exn).
Arguments Ok {A} a.
Arguments Raise {A} e.

Module Res.
Definition bind {A B} (r : result A) (k : A → result B) : result B :=
  match r with
  | Ok a => k a
  | Raise e => Raise e
  end.

(** [for x in l: s = f(s, x)], stopping at the first exception. *)
Fixpoint for_each {A S} (f : S → A → result S) (l : list A) (s : S)
  : result S :=
  match l with
  | [] => Ok s
  | x :: l' => bind (f s x) (for_each f l')
  end.

(** A list comprehension [[f(x) for x in l]]. *)
Fixpoint map_each {A B} (f : A → result B) (l : list A)
  : result (list B) :=
  match l with
  | [] => Ok []
  | x :: l' =>
      bind (f x) (λ y, bind (map_each f l') (λ ys, Ok (y :: ys)))
  end.
End Res.

Notation "'try' x '<-' r ; k" := (Res.bind r (λ x, k))
  (at level 10, x name, r at level 100, k at level 200, only parsing).

(** ** Sequences *)

(** [l[i]] for a non-negative [i]: [IndexError] out of range. *)
Definition py_index {A} (l : list A) (i : nat) : result A :=
  match l !! i with
  | Some a => Ok a
  | None => Raise IndexError
  end.

(** numpy's integer-array indexing [arr[idx]]: the elements of [arr] at the
    positions listed in [idx], in the order of [idx]. *)
Fixpoint np_take {A} (arr : list A) (idx : list nat) : result (list A) :=
  match idx with
  | [] => Ok []
  | i :: idx' =>
      try a <- py_index arr i;
      try rest <- np_take arr idx';
      Ok (a :: rest)
  end.

(** The slice [l[:n]] for an integer [n]: the first [n] elements when
    [n >= 0], all but the last [-n] elements when [n < 0]. *)
Definition py_slice_to {A} (l : list A) (n : Z) : list A :=
  if (0 <=? n)%Z then take (Z.to_nat n) l
  else take (Z.to_nat (Z.of_nat (length l) + n)) l.

(** ** Sorting *)

(** [sorted(l, key=key, reverse=reversed)]. Python's sort is stable and
    compares keys with [<] only; with [reversed] set, the list is reversed,
    sorted and reversed again, which keeps equal elements in their original
    order. When [<] is a strict weak order on the keys, every stable sort
    returns the same list, so the sort is modelled by a stable insertion
    sort. *)
Section sorted.
Context {A K : Type} (key : A → K) (lt : K → K → bool).

Fixpoint insert_sorted (x : A) (l : list A) : list A :=
  match l with
  | [] => [x]
  | y :: l' =>
      if lt (key y) (key x) then y :: insert_sorted x l'
      else x :: y :: l'
  end.

Fixpoint stable_sort (l : list A) : list A :=
  match l with
  | [] => []
  | x :: l' => insert_sorted x (stable_sort l')
  end.

Definition py_sorted (reversed : bool) (l : list A) : list A :=
  if reversed then reverse (stable_sort (reverse l)) else stable_sort l.
End sorted.

(** ** Dictionaries (insertion ordered) *)

Section dict.
Context {K V : Type} `{EqDecision K}.

Definition dict_items (d : list (K * V)) : list (K * V) := d.

Fixpoint dict_get (d : list (K * V)) (k : K) : option V :=
  match d with
  | [] => None
  | (k', v) :: d' => if decide (k = k') then Some v else dict_get d' k
  end.

(** [d.get(k, dflt)] *)
Definition dict_get_default (d : list (K * V)) (k : K) (dflt : V) : V :=
  default dflt (dict_get d k).

(** [d[k] = v]: an existing key keeps its position, a new key goes last. *)
Fixpoint dict_set (d : list (K * V)) (k : K) (v : V) : list (K * V) :=
  match d with
  | [] => [(k, v)]
  | (k', v') :: d' =>
      if decide (k = k') then (k', v) :: d'
      else (k', v') :: dict_set d' k v
  end.
End dict.

(** ** KFold *)

(** Modelled from the spec: [sklearn.model_selection.KFold] (imported at
    helper.py line 11) is a class of scikit-learn, not of this repository.
    The spec's k-fold split ("split indices into k folds (shuffled unless
    disabled)", "malformed k (k > dataset size, or k < 2) should be
    rejected") is modelled after the library's documented behaviour:
    the constructor rejects [n_splits <= 1]; [split] rejects sequences of
    different lengths and [n_splits > n_samples]; the index range
    [arange(n_samples)] is shuffled when [shuffle] is set and cut into
    [n_splits] consecutive folds, the first [n_samples % n_splits] of size
    [n_samples // n_splits + 1] and the others of size
    [n_samples // n_splits]; each fold is turned into a boolean mask over
    [arange(n_samples)], which yields the test indices (where the mask is
    set) and the train indices (where it is not), both in increasing
    order. *)
Module KFold.
Record t : Type := { n_splits : nat; shuffle : bool }.

Definition init (n_folds : Z) (shuffle : bool) : result t :=
  if (n_folds <=? 1)%Z then Raise ValueError
  else Ok {| n_splits := Z.to_nat n_folds; shuffle := shuffle |}.

Definition fold_sizes (n_samples n_splits : nat) : list nat :=
  map (λ j, n_samples / n_splits
            + (if decide (j < n_samples mod n_splits) then 1 else 0))
      (seq 0 n_splits).

(** [indices[current : current + fold_size]] for each fold size. *)
Fixpoint iter_test_indices (indices : list nat) (current : nat)
    (sizes : list nat) : list (list nat) :=
  match sizes with
  | [] => []
  | fold_size :: sizes' =>
      take fold_size (drop current indices)
      :: iter_test_indices indices (current + fold_size) sizes'
  end.

(** [indices[mask]] for [indices = arange(n_samples)]. *)
Definition masked (n_samples : nat) (mask : nat → bool) : list nat :=
  filter (λ i, mask i = true) (seq 0 n_samples).

(** The mask is set at the positions listed in [test_index]. *)
Definition train_test (n_samples : nat) (test_index : list nat)
  : list nat * list nat :=
  let test_mask i := bool_decide (i ∈ test_index) in
  (masked n_samples (λ i, negb (test_mask i)),
   masked n_samples test_mask).

(** [rng_shuffle] is the random generator's in-place shuffle of the index
    array. *)
Definition split (rng_shuffle : list nat → list nat) (kf : t)
    (len_X len_y : nat) : result (list (list nat * list nat)) :=
  if negb (bool_decide (len_X = len_y)) then Raise ValueError
  else
    let n_samples := len_X in
    if bool_decide (n_samples < n_splits kf) then Raise ValueError
    else
      let indices :=
        if shuffle kf then rng_shuffle (seq 0 n_samples)
        else seq 0 n_samples in
      Ok (map (train_test n_samples)
              (iter_test_indices indices 0
                 (fold_sizes n_samples (n_splits kf)))).
End KFold.

(** ** The [train_text] argument of error_analysis *)

(** A Python [str] as the sequence of its characters (code points):
    [len(s)] counts characters and [s[i]] is the one-character str of the
    [i]-th of them, which is determined by that character. *)
Definition py_str : Type := list N.

(** What a caller may pass as [train_text]: the default [False], or any
    Python value; the ones with len() and a truth value that matter here
    are listed. [T] is the type of a grouping text. *)
Inductive text_arg (T : Type) : Type :=
  | ArgBool (b : bool)
  | ArgNone
  | ArgList (l : list T)
  | ArgStr (s : py_str).
Arguments ArgBool {T} b.
Arguments ArgNone {T}.
Arguments ArgList {T} l.
Arguments ArgStr {T} s.

(** Python's truth value of the argument. *)
Definition truthy {T} (a : text_arg T) : bool :=
  match a with
  | ArgBool b => b
  | ArgNone => false
  | ArgList l => negb (bool_decide (length l = 0))
  | ArgStr s => negb (bool_decide (length s = 0))
  end.

(** ** Hashable values *)

(** A dict hashes a key before it looks it up or stores it: [hash(x)]
    returns for a str, a number or a tuple of such, and raises TypeError
    for a list, a dict, a set or a numpy array. [hashable x] tells whether
    [hash(x)] returns. *)
Class Hashable (K : Type) : Type := hashable : K → bool.

(** Every str can be hashed. *)
Global Instance str_hashable : Hashable string := λ _, true.

(** ** The model object and the monad of the code that uses it *)

Section pipeline.
(** [X]: an element of [train_data]; [V]: a label or a predicted value;
    [C]: a company label; [Score]: what the score function returns;
    [Mdl]: the state of the model object. *)
Context {X V C Score Mdl : Type}.

(** The capabilities of [clf]: both may change the object and may raise. *)
Variable fit : list X → list V → Mdl → Mdl * result unit.
Variable predict : list X → Mdl → Mdl * result (list V).
Variable score_function : list V → list V → result Score.
(** The random generator behind [KFold(shuffle=True)]. *)
Variable rng_shuffle : list nat → list nat.

Inductive call : Type :=
  | CallFit (data : list X) (values : list V)
  | CallPredict (data : list X).

Record world : Type := { model : Mdl; calls : list call }.

Definition M (A : Type) : Type := world → world * result A.

Definition ret {A} (a : A) : M A := λ w, (w, Ok a).

Definition bind {A B} (m : M A) (k : A → M B) : M B :=
  λ w, match m w with
       | (w', Ok a) => k a w'
       | (w', Raise e) => (w', Raise e)
       end.

Definition lift {A} (r : result A) : M A := λ w, (w, r).

Definition model_fit (data : list X) (values : list V) : M unit :=
  λ w, let '(m', r) := fit data values (model w) in
       ({| model := m'; calls := calls w ++ [CallFit data values] |}, r).

Definition model_predict (data : list X) : M (list V) :=
  λ w, let '(m', r) := predict data (model w) in
       ({| model := m'; calls := calls w ++ [CallPredict data] |}, r).

Notation "'do' x '<-' m ; k" := (bind m (λ x, k))
  (at level 10, x name, m at level 100, k at level 200, only parsing).

(** ** error_cross_validate *)

(** One element of the returned list: [(index, pred_value, score)]. *)
Definition scored : Type := nat * V * Score.

(** Lines 304-308: the loop over [range(len(predicted_values))]. *)
Definition score_example (test : list nat)
    (predicted_values real_values : list V) (results : list scored)
    (i : nat) : result (list scored) :=
  try p <- py_index predicted_values i;
  let pred_value := [p] in
  try r <- py_index real_values i;
  let real_value := [r] in
  try t <- py_index test i;
  try s <- score_function pred_value real_value;
  Ok (results ++ [(t, p, s)]).

(** Lines 299-308: the body of the loop over the folds. *)
Definition cross_validate_fold (train_data_array : list X)
    (train_values_array : list V) (results : list scored)
    (fold : list nat * list nat) : M (list scored) :=
  let '(train, test) := fold in
  do fit_data <- lift (np_take train_data_array train);
  do fit_values <- lift (np_take train_values_array train);
  do _ <- model_fit fit_data fit_values;
  do test_data <- lift (np_take train_data_array test);
  do predicted_values <- model_predict test_data;
  do real_values <- lift (np_take train_values_array test);
  lift (Res.for_each (score_example test predicted_values real_values)
          (seq 0 (length predicted_values)) results).

Fixpoint cross_validate_folds (train_data_array : list X)
    (train_values_array : list V) (folds : list (list nat * list nat))
    (results : list scored) : M (list scored) :=
  match folds with
  | [] => ret results
  | fold :: folds' =>
      do results' <- cross_validate_fold train_data_array
                       train_values_array results fold;
      cross_validate_folds train_data_array train_values_array folds'
        results'
  end.

Definition error_cross_validate (train_data : list X) (train_values : list V)
    (n_folds : Z) (shuffle : bool) : M (list scored) :=
  let results := [] in
  let train_data_array := train_data in
  let train_values_array := train_values in
  do kfold <- lift (KFold.init n_folds shuffle);
  do folds <- lift (KFold.split rng_shuffle kfold
                      (length train_data_array) (length train_values_array));
  cross_validate_folds train_data_array train_values_array folds results.

(** ** top_n_errors *)

(** Python's [<] on scores. *)
Variable score_lt : Score → Score → bool.

(** The dict built for each of the top errors (lines 324-326). *)
Record error_record : Type := {
  Sentence : X;
  Company : C;
  True_value : V;
  Pred_value : V;
  index : nat
}.

Definition error_record_of (train_data : list X) (train_values : list V)
    (companies : list C) (value : scored) : result error_record :=
  let '(index, pred_value, _) := value in
  try sentence <- py_index train_data index;
  try company <- py_index companies index;
  try true_value <- py_index train_values index;
  Ok {| Sentence := sentence; Company := company;
        True_value := true_value; Pred_value := pred_value;
        index := index |}.

Definition top_n_errors (error_res : list scored) (train_data : list X)
    (train_values : list V) (companies : list C) (n : Z)
  : result (list error_record) :=
  let error_res :=
    py_sorted (λ value : scored, value.2) score_lt true error_res in
  let top_errors := py_slice_to error_res n in
  Res.map_each (error_record_of train_data train_values companies)
    top_errors.

(** The same body with the lists as objects in a store: [error_res] is a
    reference to the caller's list, [sorted] and the slice each build a
    new list object, and the assignment [error_res = sorted(...)] only
    rebinds the local name. *)
Local Abbreviation store := (gmap nat (list scored)).

Definition new_list (h : store) (l : list scored) : store * nat :=
  let ref := fresh (dom h) in (<[ref := l]> h, ref).

Definition top_n_errors_obj (h : store) (error_res : nat)
    (train_data : list X) (train_values : list V) (companies : list C)
    (n : Z) : store * result (list error_record) :=
  match h !! error_res with
  | None => (h, Raise TypeError)
  | Some arg =>
      let '(h, error_res) :=
        new_list h (py_sorted (λ value : scored, value.2) score_lt true arg) in
      let '(h, top_errors) :=
        new_list h (py_slice_to (default [] (h !! error_res)) n) in
      (h, Res.map_each (error_record_of train_data train_values companies)
            (default [] (h !! top_errors)))
  end.

(** ** comps2sent *)

(** Lines 342-346: the body of the loop over [range(len(text_data))]. *)
Definition add_sentence {K} `{EqDecision K} (text_data : list K)
    (companies : list C) (sentence_compid : list (K * list (C * nat)))
    (i : nat) : result (list (K * list (C * nat))) :=
  try text <- py_index text_data i;
  try comp <- py_index companies i;
  let comps_indexs := dict_get_default sentence_compid text [] in
  let comps_indexs := comps_indexs ++ [(comp, i)] in
  Ok (dict_set sentence_compid text comps_indexs).

(** Lines 349-351: the body of the loop over [sentence_compid.items()]. *)
Definition add_group {K} (compscount_ids : list (nat * list (list nat)))
    (item : K * list (C * nat)) : list (nat * list (list nat)) :=
  let '(_, compsid) := item in
  let ids := dict_get_default compscount_ids (length compsid) [] in
  let ids := ids ++ [map (λ comp_id : C * nat, comp_id.2) compsid] in
  dict_set compscount_ids (length compsid) ids.

Definition comps2sent {K} `{EqDecision K} (text_data : list K)
    (companies : list C) : result (list (nat * list (list nat))) :=
  let sentence_compid : list (K * list (C * nat)) := [] in
  try sentence_compid <-
    Res.for_each (add_sentence text_data companies)
      (seq 0 (length text_data)) sentence_compid;
  let compscount_ids : list (nat * list (list nat)) := [] in
  Ok (foldl add_group compscount_ids (dict_items sentence_compid)).

(** The same function on values of any kind, as [error_analysis] calls it
    on [train_data]: [sentence_compid.get(text, [])] (line 344) hashes
    [text], after [companies[i]] has been read (line 343), and raises
    TypeError when [text] cannot be hashed. [add_sentence] is this body for
    keys that can, the strings of the docstring. *)
Definition add_sentence_hashed {K} `{EqDecision K} `{Hashable K}
    (text_data : list K) (companies : list C)
    (sentence_compid : list (K * list (C * nat))) (i : nat)
  : result (list (K * list (C * nat))) :=
  try text <- py_index text_data i;
  try comp <- py_index companies i;
  if hashable text then
    let comps_indexs := dict_get_default sentence_compid text [] in
    let comps_indexs := comps_indexs ++ [(comp, i)] in
    Ok (dict_set sentence_compid text comps_indexs)
  else Raise TypeError.

Definition comps2sent_hashed {K} `{EqDecision K} `{Hashable K}
    (text_data : list K) (companies : list C)
  : result (list (nat * list (list nat))) :=
  let sentence_compid : list (K * list (C * nat)) := [] in
  try sentence_compid <-
    Res.for_each (add_sentence_hashed text_data companies)
      (seq 0 (length text_data)) sentence_compid;
  let compscount_ids : list (nat * list (list nat)) := [] in
  Ok (foldl add_group compscount_ids (dict_items sentence_compid)).

(** ** sent_type_errors *)

(** Lines 362-366: the index -> count lookup; a later entry overwrites an
    earlier one. *)
Definition invert_counts (compscount_ids : list (nat * list (list nat)))
  : gmap nat nat :=
  foldl
    (λ ids_compscount '(compscount, ids_list),
       foldl
         (λ ids_compscount ids,
            foldl (λ ids_compscount a_id, <[a_id := compscount]> ids_compscount)
              ids_compscount ids)
         ids_compscount ids_list)
    ∅ (dict_items compscount_ids).

(** Lines 370-374: the body of the loop over [top_errors]. *)
Definition add_error (ids_compscount : gmap nat nat)
    (comps_errors : list (nat * list error_record)) (error : error_record)
  : result (list (nat * list error_record)) :=
  let sent_id := index error in
  try comp_count <-
    match ids_compscount !! sent_id with
    | Some c => Ok c
    | None => Raise KeyError
    end;
  let errors := dict_get_default comps_errors comp_count [] in
  let errors := errors ++ [error] in
  Ok (dict_set comps_errors comp_count errors).

Definition sent_type_errors (top_errors : list error_record)
    (compscount_ids : list (nat * list (list nat)))
  : result (list (nat * list error_record)) :=
  let ids_compscount := invert_counts compscount_ids in
  let comps_errors : list (nat * list error_record) := [] in
  Res.for_each (add_error ids_compscount) top_errors comps_errors.

(** ** error_analysis *)

(** [comps2sent(train_text, train_comps)] on whatever was passed: a bool
    or None has no len(); a list of texts is grouped by its texts; a str is
    indexed character by character and grouped by its characters. *)
Definition comps2sent_arg {T} `{EqDecision T} (train_text : text_arg T)
    (companies : list C) : result (list (nat * list (list nat))) :=
  match train_text with
  | ArgBool _ | ArgNone => Raise TypeError
  | ArgList l => comps2sent l companies
  | ArgStr s => comps2sent s companies
  end.

(** Lines 389-393: which texts the sentences are grouped by. The elements
    of [train_data] are what the model is trained on, strings or feature
    vectors: they are hashed when they become the keys of the grouping. *)
Definition grouping {T} `{EqDecision T} `{EqDecision X} `{Hashable X}
    (train_data : list X) (train_comps : list C) (train_text : text_arg T)
  : result (list (nat * list (list nat))) :=
  if truthy train_text then comps2sent_arg train_text train_comps
  else comps2sent_hashed train_data train_comps.

Definition error_analysis {T} `{EqDecision T} `{EqDecision X} `{Hashable X}
    (train_data : list X) (train_values : list V) (train_comps : list C)
    (train_text : text_arg T) (num_errors : Z) (n_folds : Z)
    (shuffle : bool)
  : M (list (nat * list error_record) * list (nat * nat)) :=
  do compcount_id <- lift (grouping train_data train_comps train_text);
  do error_results <-
    error_cross_validate train_data train_values n_folds shuffle;
  do top_errors <-
    lift (top_n_errors error_results train_data train_values train_comps
            num_errors);
  do error_details <- lift (sent_type_errors top_errors compcount_id);
  let error_distribution :=
    map (λ '(k, v), (k, length v)) (dict_items error_details) in
  ret (error_details, error_distribution).

End pipeline.

(** ** Vocabulary of the properties *)

(** The capability contract of the model and of the score function: [fit]
    returns, [predict] returns one value per example, the score function
    accepts single-element sequences, and the random generator permutes. *)
Definition fit_returns {X V Mdl}
    (fit : list X → list V → Mdl → Mdl * result unit) : Prop :=
  ∀ data values m, (fit data values m).2 = Ok tt.

Definition predict_returns_one_per_example {X V Mdl}
    (predict : list X → Mdl → Mdl * result (list V)) : Prop :=
  ∀ data m, ∃ predicted,
    (predict data m).2 = Ok predicted ∧ length predicted = length data.

Definition scores_single_examples {V Score}
    (score_function : list V → list V → result Score) : Prop :=
  ∀ p r, ∃ s, score_function [p] [r] = Ok s.

Definition permutes (rng_shuffle : list nat → list nat) : Prop :=
  ∀ l, rng_shuffle l ≡ₚ l.

(** The folds [error_cross_validate] iterates over. *)
Definition folds_of (rng_shuffle : list nat → list nat) (n_folds : Z)
    (shuffle : bool) (len_X len_y : nat)
  : result (list (list nat * list nat)) :=
  try kfold <- KFold.init n_folds shuffle;
  KFold.split rng_shuffle kfold len_X len_y.

(** [predictions] lists, fold after fold, the values the model predicted
    for the held-out rows: in the state [m] the model is fitted on the rows
    of the fold's train indices, the fitted model is asked to predict the
    rows of the fold's test indices, and the next fold starts in the state
    that this call leaves the model in. *)
Fixpoint predicted_by {X V Mdl}
    (fit : list X → list V → Mdl → Mdl * result unit)
    (predict : list X → Mdl → Mdl * result (list V))
    (train_data : list X) (train_values : list V)
    (folds : list (list nat * list nat)) (m : Mdl)
    (predictions : list (list V)) : Prop :=
  match folds, predictions with
  | [], [] => True
  | (train, test) :: folds', predicted :: predictions' =>
      ∃ fit_data fit_values fitted held_out m',
        np_take train_data train = Ok fit_data
        ∧ np_take train_values train = Ok fit_values
        ∧ fit fit_data fit_values m = (fitted, Ok tt)
        ∧ np_take train_data test = Ok held_out
        ∧ predict held_out fitted = (m', Ok predicted)
        ∧ predicted_by fit predict train_data train_values folds' m'
            predictions'
  | _, _ => False
  end.

(** The held-out examples that the loop of lines 304-308 processes, in
    the order it processes them: for each fold, the test indices paired
    with the values predicted for them, one pair per predicted value. *)
Definition held_out_examples {V} (folds : list (list nat * list nat))
    (predictions : list (list V)) : list (nat * V) :=
  concat (zip_with (λ fold predicted, zip fold.2 predicted)
            folds predictions).

(** The indices of these examples: of every fold, as many test indices as
    there are predicted values. *)
Definition predicted_indices {V} (folds : list (list nat * list nat))
    (predictions : list (list V)) : list nat :=
  concat (zip_with (λ fold predicted, take (length predicted) fold.2)
            folds predictions).

(** [r] is the record of the held-out example [(i, p)]: it is the tuple
    [(i, p, s)] in which [s] is the score function applied to [[p]] and to
    [[y]], the true value of example [i], and to nothing else. *)
Definition scored_alone {V Score}
    (score_function : list V → list V → result Score)
    (train_values : list V) (example : nat * V) (r : nat * V * Score)
  : Prop :=
  r.1 = example
  ∧ ∃ y, train_values !! example.1 = Some y
         ∧ score_function [example.2] [y] = Ok r.2.

(** Python's [<] on scores is a strict weak order: asymmetric, and
    whatever lies neither below [a] nor above [b] is not between them. *)
Definition strict_weak_order {Score} (lt : Score → Score → bool) : Prop :=
  (∀ a b, lt a b = true → lt b a = false)
  ∧ (∀ a b c, lt a b = true → lt a c = true ∨ lt c b = true).

(** Two scores tie when neither is below the other. *)
Definition tied {Score} (lt : Score → Score → bool) (a b : Score) : Prop :=
  lt a b = false ∧ lt b a = false.

Global Instance tied_dec {Score} (lt : Score → Score → bool) a b :
  Decision (tied lt a b).
Proof. unfold tied. apply _. Defined.

(** Every element is followed by one that is not above it. *)
Definition descending {A Score} (score_of : A → Score)
    (lt : Score → Score → bool) (l : list A) : Prop :=
  ∀ i a b, l !! i = Some a → l !! S i = Some b →
    lt (score_of a) (score_of b) = false.

(** The error record [e] is the one built from the scored prediction [r]:
    it carries [r]'s index and predicted value, and the sentence, company
    and true value found at that index. *)
Definition resolves {X V C Score} (train_data : list X)
    (train_values : list V) (companies : list C) (r : nat * V * Score)
    (e : @error_record X V C) : Prop :=
  index e = r.1.1 ∧ Pred_value e = r.1.2
  ∧ train_data !! r.1.1 = Some (Sentence e)
  ∧ companies !! r.1.1 = Some (Company e)
  ∧ train_values !! r.1.1 = Some (True_value e).

(** The index of a scored prediction is valid in the three sequences. *)
Definition valid_index {X V C Score} (train_data : list X)
    (train_values : list V) (companies : list C) (r : nat * V * Score)
  : Prop :=
  r.1.1 < length train_data ∧ r.1.1 < length companies
  ∧ r.1.1 < length train_values.

(** Index [i] is in one of the index-lists stored under count [c]. *)
Definition listed_under (compscount_ids : list (nat * list (list nat)))
    (c i : nat) : Prop :=
  ∃ ids_list ids, (c, ids_list) ∈ compscount_ids ∧ ids ∈ ids_list ∧ i ∈ ids.

(** [x] may stand before [y] in a list sorted in ascending order of key. *)
Definition may_precede {A K} (key : A → K) (lt : K → K → bool) (x y : A)
  : Prop :=
  lt (key y) (key x) = false.

(** The indices held by the sentence map of [comps2sent], and by the count
    map it returns. *)
Definition sentence_ids {K C} (sentence_compid : list (K * list (C * nat)))
  : list nat :=
  concat (map (λ kv, map snd kv.2) sentence_compid).

Definition count_ids (compscount_ids : list (nat * list (list nat)))
  : list nat :=
  concat (map (λ kv, concat kv.2) compscount_ids).

(** Every record in [comps_errors] lies under the count that the lookup
    gives for its index. *)
Definition placed {X V C} (ids_compscount : gmap nat nat)
    (comps_errors : list (nat * list (@error_record X V C))) : Prop :=
  ∀ c es e, (c, es) ∈ comps_errors → e ∈ es →
    ids_compscount !! index e = Some c.

(** ** A small model and data set, used to run the definitions *)

Module Toy.
(** The model state counts the fits and remembers the sum of the labels it
    was last fitted on; it predicts that sum plus the length of the
    text. *)
Definition fit (data : list string) (values : list Z) (m : nat * Z)
  : (nat * Z) * result unit :=
  ((S m.1, foldr Z.add 0%Z values), Ok tt).

Definition predict (data : list string) (m : nat * Z)
  : (nat * Z) * result (list Z) :=
  (m, Ok (map (λ s, (m.2 + Z.of_nat (String.length s))%Z) data)).

(** Absolute error of one prediction. *)
Definition score (p r : list Z) : result Z :=
  match p, r with
  | [a], [b] => Ok (Z.abs (a - b))
  | _, _ => Raise ValueError
  end.

Definition w0 : @world string Z (nat * Z) :=
  {| model := (0, 0%Z); calls := [] |}.

Definition texts : list string := ["a"; "bb"; "a"; "dddd"; "e"]%string.
Definition labels : list Z := [1; 2; 3; 4; 5]%Z.
Definition comps : list string := ["x"; "y"; "z"; "x"; "y"]%string.

(** The scored predictions of the specification's ranking scenario. *)
Definition scored_scenario : list (nat * Z * Z) :=
  [(0, 5%Z, 1%Z); (1, 2%Z, 3%Z); (2, 9%Z, 2%Z)].

(** What [comps2sent] returns for [texts] and [comps]. *)
Definition count_groups : list (nat * list (list nat)) :=
  [(2, [[0; 2]]); (1, [[1]; [3]; [4]])].

Definition error_at (i : nat) (text comp : string) (y p : Z)
  : @error_record string Z string :=
  {| Sentence := text; Company := comp; True_value := y;
     Pred_value := p; index := i |}.

Definition top_errors : list (@error_record string Z string) :=
  [error_at 0 "a" "x" 1 13; error_at 1 "bb" "y" 2 14;
   error_at 3 "dddd" "x" 4 7].

(** A record of some other data set: index 7 is not in [count_groups]. *)
Definition stray : @error_record string Z string :=
  error_at 7 "zz" "w" 0 0.
End Toy.

(** * The other helpers of [helper.py] *)

(** ** N-grams (lines 135-160) *)

(** [sep.join(l)] *)
Fixpoint py_join (sep : string) (l : list string) : string :=
  match l with
  | [] => ""
  | [x] => x
  | x :: l' => String.append x (String.append sep (py_join sep l'))
  end.

(** Lines 144-145: [n_list] holds [token_copy[0]] to [token_copy[n-1]];
    [range(0, n)] is empty for [n <= 0]. *)
Definition first_tokens (token_copy : list string) (n : Z)
  : result (list string) :=
  Res.for_each
    (λ n_list i, try token <- py_index token_copy i; Ok (n_list ++ [token]))
    (seq 0 (Z.to_nat n)) [].

(** Lines 142-147: the while loop of [get_n_grams]. Every turn pops the
    first token, so the loop is a recursion on [token_copy]; [pop(0)] on an
    empty list raises IndexError. *)
Fixpoint n_grams_loop (n : Z) (token_copy gram_tokens : list string)
  : result (list string) :=
  if (n <=? Z.of_nat (length token_copy))%Z then
    match first_tokens token_copy n with
    | Raise e => Raise e
    | Ok n_list =>
        match token_copy with
        | [] => Raise IndexError
        | _ :: token_copy' =>
            n_grams_loop n token_copy'
              (gram_tokens ++ [py_join " " n_list])
        end
    end
  else Ok gram_tokens.

Definition get_n_grams (temp_tokens : list string) (n : Z)
  : result (list string) :=
  let token_copy := temp_tokens in
  let gram_tokens := [] in
  n_grams_loop n token_copy gram_tokens.

Definition ngrams (token_list : list (list string)) (n_range : Z * Z)
  : result (list (list string)) :=
  Res.for_each
    (λ all_n_grams tokens,
       if bool_decide (n_range = (1, 1)%Z) then Ok (all_n_grams ++ [tokens])
       else
         try all_tokens <-
           Res.for_each
             (λ all_tokens n,
                try grams <- get_n_grams tokens n;
                Ok (all_tokens ++ grams))
             (seqZ n_range.1 (n_range.2 + 1 - n_range.1)) [];
         Ok (all_n_grams ++ [all_tokens]))
    token_list [].

(** ** Tokens, the longest text and the padded embedding (lines 60-118) *)

(** An array of numbers with one axis is a list, with two axes a list of
    rows, with three a list of those. [F] is the type of a number and
    [zero] is 0.0. *)
Section embedding.
Context {Tag F : Type} (zero : F).

(** [tok.tokenize(text, unitok.configs.english)]: the (tag, token) pairs
    of the external tokeniser; [strip] is [str.strip]. *)
Variable tokenize : string → list (Tag * string).
Variable strip : string → string.

Definition unitok_tokens (text : string) : list string :=
  let tokens := tokenize text in
  map snd (filter (λ tag_token : Tag * string, strip tag_token.2 ≠ "")
             tokens).

Definition max_length (texts : list string) : nat :=
  foldl
    (λ max_token_length text,
       let tokens := unitok_tokens text in
       if bool_decide (max_token_length < length tokens) then length tokens
       else max_token_length)
    0 texts.

(** What [process_data] uses of a word2vec model: [vector_size], the
    membership test [token in wordvec_model.vocab] and the vector
    [wordvec_model[token]] of a token of the vocabulary. *)
Record wordvec : Type := {
  vector_size : nat;
  vocab : string → bool;
  vector_of : string → list F
}.

(** [numpy.zeros(n)] *)
Definition np_zeros (n : nat) : list F := replicate n zero.

(** [v.reshape(1, n)] for a one-axis array [v]: one row, if [v] has [n]
    entries. *)
Definition np_reshape_row (v : list F) (n : nat) : result (list (list F)) :=
  if bool_decide (length v = n) then Ok [v] else Raise ValueError.

(** [numpy.vstack(ms)]: the rows of the arrays of [ms] one after the other;
    an empty sequence and rows of different lengths are rejected. *)
Definition np_vstack (ms : list (list (list F))) : result (list (list F)) :=
  match ms with
  | [] => Raise ValueError
  | _ =>
      let rows := concat ms in
      let width := length (default [] (head rows)) in
      if bool_decide (Forall (λ row, length row = width) rows) then Ok rows
      else Raise ValueError
  end.

(** Lines 94-98: one row per token. *)
Definition token_rows (wordvec_model : wordvec) (tokens : list string)
  : result (list (list (list F))) :=
  let vector_length := vector_size wordvec_model in
  Res.for_each
    (λ vector_format token,
       try row <-
         (if vocab wordvec_model token
          then np_reshape_row (vector_of wordvec_model token) vector_length
          else np_reshape_row (np_zeros 300) vector_length);
       Ok (vector_format ++ [row]))
    tokens [].

(** Lines 99-100: the padding loop. It has no bound of its own; [fuel]
    bounds the number of turns, and [None] means that the fuel ran out. *)
Fixpoint pad_rows (fuel : nat) (vector_length : nat) (max_token_length : Z)
    (vector_format : list (list (list F)))
  : option (result (list (list (list F)))) :=
  match fuel with
  | 0 => None
  | S fuel' =>
      if bool_decide (Z.of_nat (length vector_format) ≠ max_token_length)
      then
        match np_reshape_row (np_zeros vector_length) vector_length with
        | Raise e => Some (Raise e)
        | Ok row =>
            pad_rows fuel' vector_length max_token_length
              (vector_format ++ [row])
        end
      else Some (Ok vector_format)
  end.

(** Lines 92-101: the body of the loop over the texts. *)
Definition embed_text (fuel : nat) (wordvec_model : wordvec)
    (max_token_length : Z) (text : string)
  : option (result (list (list F))) :=
  let vector_length := vector_size wordvec_model in
  let tokens := py_slice_to (unitok_tokens text) max_token_length in
  match token_rows wordvec_model tokens with
  | Raise e => Some (Raise e)
  | Ok vector_format =>
      match pad_rows fuel vector_length max_token_length vector_format with
      | None => None
      | Some (Raise e) => Some (Raise e)
      | Some (Ok vector_format) => Some (np_vstack vector_format)
      end
  end.

Fixpoint embed_texts (fuel : nat) (wordvec_model : wordvec)
    (max_token_length : Z) (texts : list string)
    (all_vectors : list (list (list F)))
  : option (result (list (list (list F)))) :=
  match texts with
  | [] => Some (Ok all_vectors)
  | text :: texts' =>
      match embed_text fuel wordvec_model max_token_length text with
      | None => None
      | Some (Raise e) => Some (Raise e)
      | Some (Ok vectors) =>
          embed_texts fuel wordvec_model max_token_length texts'
            (all_vectors ++ [vectors])
      end
  end.

Definition process_data (fuel : nat) (texts : list string)
    (wordvec_model : wordvec) (max_token_length : Z)
  : option (result (list (list (list F)))) :=
  let all_vectors := [] in
  embed_texts fuel wordvec_model max_token_length texts all_vectors.

End embedding.

(** ** Splitting the records of a data set (lines 197-215) *)

Section records.
(** [J]: a value of the JSON records; [lower] is the call [.lower()] on
    such a value, which may raise. A record is a dict with string keys. *)
Context {J : Type} (lower : J → result J).

(** [d[k]] on a dict. *)
Definition dict_subscript {K W} `{EqDecision K} (d : list (K * W)) (k : K)
  : result W :=
  match dict_get d k with
  | Some v => Ok v
  | None => Raise KeyError
  end.

(** Lines 210-214: the body of the loop over [all_data]. *)
Definition add_record (lists : list J * list J * list J)
    (data : list (string * J)) : result (list J * list J * list J) :=
  let '(text, sentiment, company) := lists in
  try title <- dict_subscript data "title";
  try title <- lower title;
  let text := text ++ [title] in
  try comp <- dict_subscript data "company";
  try comp <- lower comp;
  let company := company ++ [comp] in
  let sentiment :=
    match dict_get data "sentiment" with
    | Some s => sentiment ++ [s]
    | None => sentiment
    end in
  Ok (text, sentiment, company).

Definition text_sentiment_company (all_data : list (list (string * J)))
  : result (list J * list J * list J) :=
  Res.for_each add_record all_data ([], [], []).

End records.

(** ** More vocabulary *)

(** The calls that one fold makes to the model: [fit] on the rows of the
    train indices, then [predict] on the rows of the test indices. *)
Definition fold_calls {X V} (train_data : list X) (train_values : list V)
    (fold : list nat * list nat) (cs : list (@call X V)) : Prop :=
  ∃ fit_data fit_values test_data,
    np_take train_data fold.1 = Ok fit_data
    ∧ np_take train_values fold.1 = Ok fit_values
    ∧ np_take train_data fold.2 = Ok test_data
    ∧ cs = [CallFit fit_data fit_values; CallPredict test_data].

(** The indices below [n] whose text is [t], in increasing order. *)
Definition same_text_ids {K} `{EqDecision K} (text_data : list K) (t : K)
    (n : nat) : list nat :=
  filter (λ j, text_data !! j = Some t) (seq 0 n).

(** [d[k] = d.get(k, []) + [b]], the step of the three grouping loops. *)
Definition dict_append {K B} `{EqDecision K} (d : list (K * list B))
    (k : K) (b : B) : list (K * list B) :=
  dict_set d k (dict_get_default d k [] ++ [b]).

(** The values logged under key [k], in the order they were logged. *)
Definition logged {K B} `{EqDecision K} (log : list (K * B)) (k : K)
  : list B :=
  map snd (filter (λ kb : K * B, kb.1 = k) log).

(** [d] is what appending the entries of [log] one by one to the empty dict
    gives, up to the order of the keys: the keys are distinct and each
    holds the values logged under it. *)
Definition groups_log {K B} `{EqDecision K} (d : list (K * list B))
    (log : list (K * B)) : Prop :=
  NoDup (map fst d)
  ∧ ∀ k, dict_get d k = match logged log k with
                        | [] => None
                        | bs => Some bs
                        end.

(** What the first loop of [comps2sent] logs for index [i], what its second
    loop logs for an item of the sentence map, and what the loop of
    [sent_type_errors] logs for an error record. *)
Definition sentence_entry {K C} (text_data : list K) (companies : list C)
    (i : nat) (kb : K * (C * nat)) : Prop :=
  text_data !! i = Some kb.1 ∧ companies !! i = Some kb.2.1 ∧ kb.2.2 = i.

Definition group_entry {K C} (item : K * list (C * nat))
  : nat * list nat :=
  (length item.2, map snd item.2).

Definition error_entry {X V C} (ids_compscount : gmap nat nat)
    (e : @error_record X V C) (kb : nat * @error_record X V C) : Prop :=
  ids_compscount !! index e = Some kb.1 ∧ kb.2 = e.

(** The [m]-grams of [tokens]: for every start position that leaves room
    for [m] tokens, these [m] tokens joined by single spaces. *)
Definition windows (tokens : list string) (m : nat) : list string :=
  map (λ i, py_join " " (take m (drop i tokens)))
      (seq 0 (length tokens + 1 - m)).

(** All the n-grams of [tokens] for [n] from [a] to [b], shortest first. *)
Definition all_windows (a b : Z) (tokens : list string) : list string :=
  concat (map (λ n, windows tokens (Z.to_nat n)) (seqZ a (b + 1 - a))).

(** The row that [process_data] builds for a token: the model's vector, or
    300 zeros for a token that is not in the vocabulary. *)
Definition token_row {F} (zero : F) (wordvec_model : @wordvec F)
    (token : string) : list F :=
  if vocab wordvec_model token then vector_of wordvec_model token
  else np_zeros zero 300.

(** The row of the token fits the model's vector size. *)
Definition embeddable {F} (wordvec_model : @wordvec F) (token : string)
  : Prop :=
  if vocab wordvec_model token
  then length (vector_of wordvec_model token) = vector_size wordvec_model
  else vector_size wordvec_model = 300.

(** The rows of the first [m] tokens, followed by rows of zeros up to [m]
    rows. *)
Definition padded_rows {F} (zero : F) (wordvec_model : @wordvec F)
    (m : nat) (tokens : list string) : list (list F) :=
  map (token_row zero wordvec_model) (take m tokens)
  ++ replicate (m - length (take m tokens))
       (np_zeros zero (vector_size wordvec_model)).

(** ** More sample data *)

Module Sample.
(** Models that break the contract: a [fit] that raises, a [predict] that
    returns one value too many, and one that returns one too few. *)
Definition fit_fails (data : list string) (values : list Z) (m : nat * Z)
  : (nat * Z) * result unit :=
  (m, Raise ModelFailure).

Definition predict_extra (data : list string) (m : nat * Z)
  : (nat * Z) * result (list Z) :=
  (m, Ok (replicate (S (length data)) 0%Z)).

Definition predict_short (data : list string) (m : nat * Z)
  : (nat * Z) * result (list Z) :=
  (m, Ok (replicate (length data - 1) 0%Z)).

(** Scored predictions, the second with an index that no sequence has. *)
Definition scored_invalid : list (nat * Z * Z) :=
  [(0, 5%Z, 1%Z); (7, 2%Z, 3%Z)].

(** A tokeniser that makes every character a token, and a [strip] that
    empties a blank. *)
Definition tokenize (text : string) : list (nat * string) :=
  map (λ c, (0, String c EmptyString)) (String.list_ascii_of_string text).

Definition strip (token : string) : string :=
  if bool_decide (token = " "%string) then ""%string else token.

(** A model with vectors of two numbers that knows the token "a" only. *)
Definition wordvec2 : @wordvec Z :=
  {| vector_size := 2;
     vocab := λ token, bool_decide (token = "a"%string);
     vector_of := λ _, [1; 2]%Z |}.

(** Two records, the second without a sentiment. *)
Definition records : list (list (string * string)) :=
  [[("title", "up"); ("company", "x"); ("sentiment", "0.5")];
   [("company", "y"); ("title", "down")]]%string.

Definition lower (v : string) : result string := Ok v.

(** Feature vectors held in Python lists, which cannot be hashed, and a
    model of them that predicts the sum of the features. *)
Definition vectors : list (list Z) := [[1; 0]; [0; 1]; [1; 0]]%Z.

Global Instance vector_unhashable : Hashable (list Z) := λ _, false.

Definition vector_fit (data : list (list Z)) (values : list Z) (m : unit)
  : unit * result unit :=
  (m, Ok tt).

Definition vector_predict (data : list (list Z)) (m : unit)
  : unit * result (list Z) :=
  (m, Ok (map (foldr Z.add 0%Z) data)).

Definition vector_w0 : @world (list Z) Z unit :=
  {| model := tt; calls := [] |}.

(** The strata of an analysis that returned, as the indices of their
    records. *)
Definition strata_indices {X V C Mdl}
    (run : @world X V Mdl
           * result (list (nat * list (@error_record X V C))
                     * list (nat * nat)))
  : option (list (nat * list nat)) :=
  match run.2 with
  | Ok (error_details, _) =>
      Some (map (λ kv, (kv.1, map index kv.2)) error_details)
  | Raise _ => None
  end.
End Sample.

(** * Properties *)

(** ** Facts about the exception monad and sequences *)

Lemma bind_Ok_inv {A B} (r : result A) (k : A → result B) b :
  Res.bind r k = Ok b → ∃ a, r = Ok a ∧ k a = Ok b.
Proof. destruct r as [a|e]; simpl; [eauto | discriminate]. Qed.

Lemma py_index_Ok {A} (l : list A) i a :
  py_index l i = Ok a ↔ l !! i = Some a.
Proof.
  unfold py_index. destruct (l !! i); split; intros H; congruence.
Qed.

Lemma py_index_lt {A} (l : list A) i :
  i < length l → ∃ a, py_index l i = Ok a ∧ l !! i = Some a.
Proof.
  intros Hi. destruct (lookup_lt_is_Some_2 l i Hi) as [a Ha].
  exists a. split; [by apply py_index_Ok | done].
Qed.

Lemma np_take_total {A} (arr : list A) idx :
  Forall (λ i, i < length arr) idx →
  ∃ out, np_take arr idx = Ok out ∧ length out = length idx.
Proof.
  induction 1 as [|i idx Hi _ (out & Hout & Hlen)]; simpl.
  - by exists [].
  - destruct (py_index_lt arr i Hi) as (a & -> & _). simpl.
    rewrite Hout. simpl. exists (a :: out). by rewrite /= Hlen.
Qed.

Lemma np_take_lookup {A} (arr : list A) idx out j i :
  np_take arr idx = Ok out → idx !! j = Some i → out !! j = arr !! i.
Proof.
  revert out j. induction idx as [|i0 idx IH]; intros out j; simpl.
  - by intros _ ?.
  - intros H. apply bind_Ok_inv in H as (a & Ha & H).
    apply bind_Ok_inv in H as (rest & Hrest & [= <-]).
    apply py_index_Ok in Ha.
    destruct j as [|j]; simpl.
    + by intros [= <-].
    + by apply IH.
Qed.

Lemma np_take_length {A} (arr : list A) idx out :
  np_take arr idx = Ok out → length out = length idx.
Proof.
  revert out. induction idx as [|i0 idx IH]; intros out; simpl.
  - by intros [= <-].
  - intros H. apply bind_Ok_inv in H as (a & Ha & H).
    apply bind_Ok_inv in H as (rest & Hrest & [= <-]).
    simpl. f_equal. by apply IH.
Qed.

Lemma take_plus_drop {A} (l : list A) a b :
  take (a + b) l = take a l ++ take b (drop a l).
Proof.
  revert l. induction a as [|a IH]; intros [|x l]; simpl; try done.
  - by destruct b.
  - by rewrite IH.
Qed.

(** ** The k-fold split *)

Section kfold_facts.

Lemma sum_fold_sizes_aux q r m :
  sum_list (map (λ j, q + (if decide (j < r) then 1 else 0)) (seq 0 m))
  = m * q + Nat.min r m.
Proof.
  induction m as [|m IH]; [simpl; lia|].
  rewrite seq_S map_app /=. 
  change (sum_list_with id) with (@sum_list_with nat id).
  rewrite sum_list_with_app IH /=.
  destruct (decide (m < r)); simpl; lia.
Qed.

Lemma sum_fold_sizes n k :
  0 < k → sum_list (KFold.fold_sizes n k) = n.
Proof.
  intros Hk. unfold KFold.fold_sizes. rewrite sum_fold_sizes_aux.
  pose proof (Nat.div_mod_eq n k).
  pose proof (Nat.mod_upper_bound n k). lia.
Qed.

Lemma length_fold_sizes n k : length (KFold.fold_sizes n k) = k.
Proof. unfold KFold.fold_sizes. by rewrite length_map length_seq. Qed.

Lemma concat_iter_test_indices indices current sizes :
  concat (KFold.iter_test_indices indices current sizes)
  = take (sum_list sizes) (drop current indices).
Proof.
  revert current. induction sizes as [|s sizes IH]; intros current; simpl.
  - done.
  - by rewrite IH take_plus_drop drop_drop.
Qed.

Lemma length_iter_test_indices indices current sizes :
  length (KFold.iter_test_indices indices current sizes) = length sizes.
Proof.
  revert current. induction sizes as [|s sizes IH]; intros current; simpl;
    [done | by rewrite IH].
Qed.

Lemma iter_test_indices_sublist indices current sizes :
  Forall (λ c, c `sublist_of` indices)
    (KFold.iter_test_indices indices current sizes).
Proof.
  revert current. induction sizes as [|s sizes IH]; intros current; simpl;
    constructor; [|apply IH].
  etrans; [apply sublist_take | apply sublist_drop].
Qed.

Lemma masked_elem n mask i :
  i ∈ KFold.masked n mask ↔ mask i = true ∧ i < n.
Proof.
  unfold KFold.masked. rewrite list_elem_of_filter elem_of_seq.
  intuition lia.
Qed.

Lemma masked_test_perm n c :
  NoDup c → (∀ i, i ∈ c → i < n) →
  (KFold.train_test n c).2 ≡ₚ c.
Proof.
  intros Hnd Hlt. simpl. apply NoDup_Permutation; [|done|].
  - apply NoDup_filter, NoDup_seq.
  - intros i. rewrite masked_elem bool_decide_eq_true. intuition.
Qed.

Lemma train_test_bounded n c i :
  i ∈ (KFold.train_test n c).1 ∨ i ∈ (KFold.train_test n c).2 → i < n.
Proof. simpl. rewrite !masked_elem. intuition. Qed.

Lemma concat_tests_perm n chunks :
  Forall (λ c, NoDup c ∧ ∀ i, i ∈ c → i < n) chunks →
  concat (map snd (map (KFold.train_test n) chunks)) ≡ₚ concat chunks.
Proof.
  induction 1 as [|c chunks [Hnd Hlt] _ IH]; [done|].
  cbn [map concat]. by rewrite IH masked_test_perm.
Qed.

(** For a valid number of folds the split succeeds, yields that many
    folds, and their test sets partition the index range. *)
Lemma split_partition (rng_shuffle : list nat → list nat) k shuffle n :
  (∀ l, rng_shuffle l ≡ₚ l) → 0 < k ≤ n →
  ∃ folds,
    KFold.split rng_shuffle
      {| KFold.n_splits := k; KFold.shuffle := shuffle |} n n = Ok folds
    ∧ length folds = k
    ∧ concat (map snd folds) ≡ₚ seq 0 n
    ∧ Forall (λ f, Forall (λ i, i < n) f.1 ∧ Forall (λ i, i < n) f.2) folds.
Proof.
  intros Hrng [Hk Hkn]. unfold KFold.split. cbn [KFold.n_splits KFold.shuffle].
  rewrite bool_decide_eq_true_2 //=.
  case_bool_decide; [lia|].
  set (indices := if shuffle then _ else _).
  assert (Hperm : indices ≡ₚ seq 0 n) by (subst indices; by destruct shuffle).
  eexists. split; [done|]. split; [|split].
  - by rewrite length_map length_iter_test_indices length_fold_sizes.
  - rewrite concat_tests_perm.
    + eapply Forall_impl; [apply iter_test_indices_sublist|].
      intros c Hc; simpl in Hc. split.
      * eapply sublist_NoDup; [|done]. rewrite Hperm. apply NoDup_seq.
      * intros i Hi. eapply elem_of_sublist in Hi; [|done].
        rewrite Hperm in Hi. apply elem_of_seq in Hi. lia.
    + rewrite concat_iter_test_indices sum_fold_sizes // drop_0.
      rewrite take_ge //. by rewrite Hperm length_seq.
  - apply Forall_forall. intros f Hf. apply list_elem_of_In, in_map_iff in Hf.
    destruct Hf as (c & <- & _).
    split; apply Forall_forall; intros i Hi;
      eapply train_test_bounded; eauto.
Qed.

End kfold_facts.

(** ** error_cross_validate *)

Section cross_validation.
Context {X V Score Mdl : Type}.
Variable fit : list X → list V → Mdl → Mdl * result unit.
Variable predict : list X → Mdl → Mdl * result (list V).
Variable score_function : list V → list V → result Score.
Variable rng_shuffle : list nat → list nat.

Implicit Types (w : @world X V Mdl) (results : list (@scored V Score)).

Lemma M_bind_inv {A B} (m : M A) (k : A → M B) w w' b :
  bind m k w = (w', Ok b) →
  ∃ a w1, m w = (w1, Ok a) ∧ k a w1 = (w', Ok b).
Proof.
  unfold bind. destruct (m w) as [w1 [a|e]]; [eauto | discriminate].
Qed.

Lemma lift_inv {A} (r : result A) w w' a :
  lift r w = (w', Ok a) → r = Ok a ∧ w' = w.
Proof. unfold lift. by intros [= <- ->]. Qed.

Lemma model_fit_inv data values w w' :
  model_fit fit data values w = (w', Ok tt) →
  fit data values (model w) = (model w', Ok tt).
Proof.
  unfold model_fit. destruct (fit data values (model w)) as [m' r].
  by intros [= <- ->].
Qed.

Lemma model_predict_inv data w w' predicted :
  model_predict predict data w = (w', Ok predicted) →
  predict data (model w) = (model w', Ok predicted).
Proof.
  unfold model_predict. destruct (predict data (model w)) as [m' r].
  by intros [= <- ->].
Qed.

(** *** What each record contains *)

(** Every turn of the inner loop appends one record, built from the values
    at position [j] of the three sequences. *)
Lemma score_examples_inv test predicted real idxs results results' :
  Res.for_each (score_example score_function test predicted real)
    idxs results = Ok results' →
  ∃ new, results' = results ++ new
    ∧ Forall2 (λ j (r : scored), ∃ y,
        test !! j = Some r.1.1 ∧ predicted !! j = Some r.1.2
        ∧ real !! j = Some y ∧ score_function [r.1.2] [y] = Ok r.2)
        idxs new.
Proof.
  revert results. induction idxs as [|i idxs IH]; intros results; simpl.
  - intros [= <-]. exists []. by rewrite app_nil_r.
  - intros H. apply bind_Ok_inv in H as (res1 & Hstep & H).
    unfold score_example in Hstep.
    apply bind_Ok_inv in Hstep as (p & Hp%py_index_Ok & Hstep).
    apply bind_Ok_inv in Hstep as (y & Hy%py_index_Ok & Hstep).
    apply bind_Ok_inv in Hstep as (t & Ht%py_index_Ok & Hstep).
    apply bind_Ok_inv in Hstep as (s & Hs & [= <-]).
    apply IH in H as (new & -> & Hnew).
    exists ((t, p, s) :: new). rewrite -app_assoc. split; [done|].
    constructor; [|done]. by exists y.
Qed.

(** Over [range(len(predicted_values))] these are the records of the test
    indices paired with the predicted values, and no predicted value is
    left without a test index. *)
Lemma scored_fold_examples (train_values : list V) test predicted real
    (new : list scored) :
  np_take train_values test = Ok real →
  Forall2 (λ j (r : scored), ∃ y,
      test !! j = Some r.1.1 ∧ predicted !! j = Some r.1.2
      ∧ real !! j = Some y ∧ score_function [r.1.2] [y] = Ok r.2)
    (seq 0 (length predicted)) new →
  length predicted ≤ length test
  ∧ Forall2 (scored_alone score_function train_values)
      (zip test predicted) new.
Proof.
  intros Hreal Hnew.
  assert (Hle : length predicted ≤ length test).
  { destruct (decide (length predicted ≤ length test)) as [|Hgt]; [done|].
    assert (Hj : seq 0 (length predicted) !! length test
                 = Some (length test)) by (apply lookup_seq_lt; lia).
    destruct (Forall2_lookup_l _ _ _ _ _ Hnew Hj)
      as (r & _ & y & Ht%lookup_lt_Some & _).
    lia. }
  split; [done|].
  apply Forall2_same_length_lookup_2.
  - rewrite length_zip_with -(Forall2_length _ _ _ Hnew) length_seq. lia.
  - intros i [t p] r Hzip Hr.
    apply lookup_zip_with_Some in Hzip as (t' & p' & [= <- <-] & Ht & Hp).
    destruct (Forall2_lookup_r _ _ _ _ _ Hnew Hr)
      as (j & [-> _]%lookup_seq & y & Ht' & Hp' & Hy & Hs).
    simpl in Ht', Hp', Hy. rewrite Ht in Ht'. rewrite Hp in Hp'.
    injection Ht' as Ht'. injection Hp' as Hp'.
    destruct r as [[i' p''] s]; simpl in *; subst i' p''.
    split; [done|]. exists y. split; [|done].
    by rewrite -(np_take_lookup _ _ _ _ _ Hreal Ht).
Qed.

(** One turn of the loop over the folds: the model is fitted and asked to
    predict, and the records of the fold's examples are appended. *)
Lemma cross_validate_fold_inv train_data train_values results train test
    w w' results' :
  cross_validate_fold fit predict score_function train_data train_values
    results (train, test) w = (w', Ok results') →
  ∃ fit_data fit_values fitted held_out predicted new,
    np_take train_data train = Ok fit_data
    ∧ np_take train_values train = Ok fit_values
    ∧ fit fit_data fit_values (model w) = (fitted, Ok tt)
    ∧ np_take train_data test = Ok held_out
    ∧ predict held_out fitted = (model w', Ok predicted)
    ∧ length predicted ≤ length test
    ∧ results' = results ++ new
    ∧ Forall2 (scored_alone score_function train_values)
        (zip test predicted) new.
Proof.
  unfold cross_validate_fold. intros H.
  apply M_bind_inv in H as (fit_data & w1 & [Hfd ->]%lift_inv & H).
  apply M_bind_inv in H as (fit_values & w2 & [Hfv ->]%lift_inv & H).
  apply M_bind_inv in H as ([] & w3 & Hfit%model_fit_inv & H).
  apply M_bind_inv in H as (held_out & w4 & [Hheld ->]%lift_inv & H).
  apply M_bind_inv in H as (predicted & w5 & Hpred%model_predict_inv & H).
  apply M_bind_inv in H as (real & w6 & [Hreal ->]%lift_inv & H).
  apply lift_inv in H as [H ->].
  apply score_examples_inv in H as (new & -> & Hnew).
  destruct (scored_fold_examples train_values test predicted real new
              Hreal Hnew) as [Hle Hscored].
  by exists fit_data, fit_values, (model w3), held_out, predicted, new.
Qed.

Lemma cross_validate_folds_inv train_data train_values folds results w w'
    results' :
  cross_validate_folds fit predict score_function train_data train_values
    folds results w = (w', Ok results') →
  ∃ predictions new,
    results' = results ++ new
    ∧ predicted_by fit predict train_data train_values folds (model w)
        predictions
    ∧ Forall2 (λ fold predicted, length predicted ≤ length fold.2)
        folds predictions
    ∧ Forall2 (scored_alone score_function train_values)
        (held_out_examples folds predictions) new.
Proof.
  revert results w.
  induction folds as [|[train test] folds IH]; intros results w.
  - intros [= _ <-]. exists [], []. rewrite app_nil_r.
    split; [done|]. split; [done|]. split; constructor.
  - cbn [cross_validate_folds]. intros H.
    apply M_bind_inv in H as (res1 & w1 & Hfold & H).
    apply cross_validate_fold_inv in Hfold
      as (fit_data & fit_values & fitted & held_out & predicted & new1
          & Hfd & Hfv & Hfit & Hheld & Hpred & Hle & -> & Hnew1).
    apply IH in H as (predictions & new2 & -> & Hby & Hles & Hnew2).
    exists (predicted :: predictions), (new1 ++ new2).
    rewrite app_assoc. split; [done|]. split; [|split].
    + cbn [predicted_by].
      by exists fit_data, fit_values, fitted, held_out, (model w1).
    + by constructor.
    + unfold held_out_examples. cbn [zip_with concat].
      by apply Forall2_app.
Qed.

(** *** The loop returns, with one record per test index *)

Lemma score_examples_total test predicted real results a n :
  scores_single_examples score_function →
  a + n ≤ length test → a + n ≤ length predicted → a + n ≤ length real →
  ∃ new,
    Res.for_each (score_example score_function test predicted real)
      (seq a n) results = Ok (results ++ new)
    ∧ map (λ r : scored, r.1.1) new = take n (drop a test).
Proof.
  intros Hscore. revert a results.
  induction n as [|n IH]; intros a results Ht Hp Hr.
  - exists []. by rewrite /= app_nil_r.
  - destruct (py_index_lt test a) as (t & Het & Hlt); [lia|].
    destruct (py_index_lt predicted a) as (p & Hep & _); [lia|].
    destruct (py_index_lt real a) as (r & Her & _); [lia|].
    destruct (Hscore p r) as [s Hs].
    destruct (IH (S a) (results ++ [(t, p, s)])) as (new & Hnew & Hidx);
      [lia..|].
    exists ((t, p, s) :: new). split.
    + cbn [seq Res.for_each]. unfold score_example at 1.
      rewrite Hep /= Her /= Het /= Hs /= Hnew. by rewrite -app_assoc.
    + rewrite (drop_S _ _ _ Hlt) /=. by rewrite Hidx.
Qed.

Lemma cross_validate_fold_total train_data train_values results fold w :
  fit_returns fit → predict_returns_one_per_example predict →
  scores_single_examples score_function →
  length train_data = length train_values →
  Forall (λ i, i < length train_data) fold.1 →
  Forall (λ i, i < length train_data) fold.2 →
  ∃ w' new,
    cross_validate_fold fit predict score_function train_data
      train_values results fold w = (w', Ok (results ++ new))
    ∧ map (λ r : scored, r.1.1) new = fold.2.
Proof.
  intros Hfit Hpredict Hscore Hlen Htrain Htest.
  destruct fold as [train test]; simpl in *.
  destruct (np_take_total train_data train Htrain) as (fit_data & Hfd & _).
  destruct (np_take_total train_values train) as (fit_values & Hfv & _);
    [by rewrite -Hlen|].
  destruct (np_take_total train_data test Htest) as (held & Hheld & Hhl).
  destruct (np_take_total train_values test) as (real & Hreal & Hrl);
    [by rewrite -Hlen|].
  unfold cross_validate_fold, bind, lift, model_fit, model_predict.
  rewrite Hfd Hfv.
  pose proof (Hfit fit_data fit_values (model w)) as Hf.
  destruct (fit fit_data fit_values (model w)) as [m1 r1].
  simpl in Hf; subst r1. rewrite Hheld. cbn [model calls].
  destruct (Hpredict held m1) as (predicted & Hp & Hpl).
  destruct (predict held m1) as [m2 r2]. simpl in Hp; subst r2.
  rewrite Hreal.
  destruct (score_examples_total test predicted real results 0
              (length predicted) Hscore) as (new & Hnew & Hidx); [lia..|].
  rewrite Hnew. eexists _, new. split; [done|].
  rewrite Hidx drop_0 take_ge //. lia.
Qed.

Lemma cross_validate_folds_total train_data train_values folds results w :
  fit_returns fit → predict_returns_one_per_example predict →
  scores_single_examples score_function →
  length train_data = length train_values →
  Forall (λ f, Forall (λ i, i < length train_data) f.1
               ∧ Forall (λ i, i < length train_data) f.2) folds →
  ∃ w' new,
    cross_validate_folds fit predict score_function train_data
      train_values folds results w = (w', Ok (results ++ new))
    ∧ map (λ r : scored, r.1.1) new = concat (map snd folds).
Proof.
  intros Hfit Hpredict Hscore Hlen Hfolds. revert results w.
  induction Hfolds as [|fold folds [Htr Hte] _ IH]; intros results w.
  - exists w, []. by rewrite /= app_nil_r.
  - destruct (cross_validate_fold_total train_data train_values results
                fold w) as (w1 & new1 & Hfold & Hidx1); [done..|].
    destruct (IH (results ++ new1) w1) as (w2 & new2 & Hrest & Hidx2).
    exists w2, (new1 ++ new2). split.
    + cbn [cross_validate_folds]. unfold bind at 1.
      rewrite Hfold Hrest. by rewrite app_assoc.
    + by rewrite map_app Hidx1 Hidx2.
Qed.

(** C1. For a data set of size M and 2 <= k <= M (and a model and score
    function that honour their contracts), [error_cross_validate]
    returns exactly M records whose original indices are a permutation of
    0..M-1, each index exactly once: the records' indices are the k test
    folds one after the other, and the test folds partition the index
    range. *)
Theorem error_cross_validate_covers_every_index train_data train_values
    n_folds shuffle w :
  permutes rng_shuffle → fit_returns fit →
  predict_returns_one_per_example predict →
  scores_single_examples score_function →
  length train_data = length train_values →
  (2 ≤ n_folds ≤ Z.of_nat (length train_data))%Z →
  ∃ w' results folds,
    error_cross_validate fit predict score_function rng_shuffle train_data
      train_values n_folds shuffle w = (w', Ok results)
    ∧ length results = length train_data
    ∧ map (λ r : scored, r.1.1) results ≡ₚ seq 0 (length train_data)
    ∧ NoDup (map (λ r : scored, r.1.1) results)
    ∧ folds_of rng_shuffle n_folds shuffle (length train_data)
        (length train_values) = Ok folds
    ∧ Z.of_nat (length folds) = n_folds
    ∧ concat (map snd folds) ≡ₚ seq 0 (length train_data)
    ∧ map (λ r : scored, r.1.1) results = concat (map snd folds).
Proof.
  intros Hrng Hfit Hpredict Hscore Hlen Hk.
  destruct (split_partition rng_shuffle (Z.to_nat n_folds) shuffle
              (length train_data) Hrng)
    as (folds & Hsplit & Hnum & Hpart & Hbound); [lia|].
  destruct (cross_validate_folds_total train_data train_values folds [] w)
    as (w' & results & Hrun & Hidx); [done..|].
  assert (Hfolds : folds_of rng_shuffle n_folds shuffle (length train_data)
                     (length train_values) = Ok folds).
  { unfold folds_of, KFold.init.
    destruct (Z.leb_spec n_folds 1); [lia|]. by rewrite /= -Hlen. }
  exists w', results, folds.
  assert (Hperm : map (λ r : scored, r.1.1) results
                  ≡ₚ seq 0 (length train_data)) by by rewrite Hidx.
  split; [|split; [|split; [|split; [|split; [|split; [|split]]]]]];
    try done.
  - unfold error_cross_validate.
    unfold folds_of in Hfolds.
    apply bind_Ok_inv in Hfolds as (kfold & Hinit & Hsp).
    unfold bind at 1, lift at 1. rewrite Hinit.
    unfold bind at 1, lift at 1. rewrite Hsp. exact Hrun.
  - rewrite -(length_map (λ r : scored, r.1.1)) Hperm. apply length_seq.
  - rewrite Hperm. apply NoDup_seq.
  - lia.
Qed.

(** C6. Whenever [error_cross_validate] returns, its result holds one
    record for every held-out example that was processed, in the order of
    processing and nothing else. The examples are, fold after fold, the
    test indices paired with the values that the model, fitted on the rows
    of the fold's train indices, predicted for the rows of the test
    indices; no predicted value is without a test index. The record of the
    example with index [i] and predicted value [p] is the tuple
    [(i, p, s)], where [s] is the score function applied to the
    single-element sequences [[p]] and [[train_values[i]]]: the example is
    scored alone. *)
Theorem error_cross_validate_scores_each_example_alone train_data
    train_values n_folds shuffle w w' results :
  error_cross_validate fit predict score_function rng_shuffle train_data
    train_values n_folds shuffle w = (w', Ok results) →
  ∃ folds predictions,
    folds_of rng_shuffle n_folds shuffle (length train_data)
      (length train_values) = Ok folds
    ∧ predicted_by fit predict train_data train_values folds (model w)
        predictions
    ∧ Forall2 (λ fold predicted, length predicted ≤ length fold.2)
        folds predictions
    ∧ Forall2 (scored_alone score_function train_values)
        (held_out_examples folds predictions) results.
Proof.
  unfold error_cross_validate, folds_of. intros H.
  apply M_bind_inv in H as (kfold & w1 & [Hinit ->]%lift_inv & H).
  apply M_bind_inv in H as (folds & w2 & [Hsplit ->]%lift_inv & H).
  apply cross_validate_folds_inv in H as (predictions & new & -> & Hnew).
  exists folds, predictions. by rewrite Hinit.
Qed.

(** C7. A malformed number of folds (k < 2, or k greater than the size of
    the data set) is rejected with a ValueError before any fold is built:
    the split itself raises, the model object is left as it was and no
    call to [fit] or [predict] is logged. *)
Theorem error_cross_validate_rejects_malformed_k train_data train_values
    n_folds shuffle w :
  (n_folds < 2 ∨ Z.of_nat (length train_data) < n_folds)%Z →
  folds_of rng_shuffle n_folds shuffle (length train_data)
    (length train_values) = Raise ValueError
  ∧ error_cross_validate fit predict score_function rng_shuffle train_data
      train_values n_folds shuffle w = (w, Raise ValueError).
Proof.
  intros Hk.
  assert (Hfolds : folds_of rng_shuffle n_folds shuffle (length train_data)
                     (length train_values) = Raise ValueError).
  { unfold folds_of, KFold.init.
    destruct (Z.leb_spec n_folds 1) as [|Hgt]; [done|].
    cbn [Res.bind]. unfold KFold.split. cbn [KFold.n_splits].
    case_bool_decide; [|done]. cbn [negb].
    case_bool_decide; [done|lia]. }
  split; [done|].
  unfold error_cross_validate. unfold folds_of in Hfolds.
  unfold bind at 1, lift at 1.
  destruct (KFold.init n_folds shuffle) as [kfold|e] eqn:Hinit.
  - cbn [Res.bind] in Hfolds. unfold bind at 1, lift at 1.
    by rewrite Hfolds.
  - cbn [Res.bind] in Hfolds. by injection Hfolds as ->.
Qed.

End cross_validation.

(** ** Sorting *)

Section sort_facts.
Context {A K : Type} (key : A → K) (lt : K → K → bool).
Hypothesis lt_order : strict_weak_order lt.

Lemma insert_sorted_perm x l : insert_sorted key lt x l ≡ₚ x :: l.
Proof.
  induction l as [|y l IH]; simpl; [done|].
  destruct (lt (key y) (key x)); [|done].
  by rewrite IH Permutation_swap.
Qed.

Lemma stable_sort_perm l : stable_sort key lt l ≡ₚ l.
Proof.
  induction l as [|x l IH]; simpl; [done|].
  by rewrite insert_sorted_perm IH.
Qed.

Lemma insert_sorted_HdRel y x l :
  may_precede key lt y x → HdRel (may_precede key lt) y l →
  HdRel (may_precede key lt) y (insert_sorted key lt x l).
Proof.
  intros Hyx Hl. destruct l as [|z l]; simpl; [by constructor|].
  destruct (lt (key z) (key x)); constructor; [|done].
  by inversion Hl.
Qed.

Lemma insert_sorted_Sorted x l :
  Sorted (may_precede key lt) l →
  Sorted (may_precede key lt) (insert_sorted key lt x l).
Proof.
  induction 1 as [|y l Hl IH Hhd]; simpl; [by repeat constructor|].
  destruct (lt (key y) (key x)) eqn:Hyx.
  - constructor; [done|]. apply insert_sorted_HdRel; [|done].
    by apply lt_order.
  - by repeat constructor.
Qed.

Lemma stable_sort_Sorted l : Sorted (may_precede key lt) (stable_sort key lt l).
Proof.
  induction l as [|x l IH]; simpl; [constructor|].
  by apply insert_sorted_Sorted.
Qed.

Lemma Sorted_adjacent (R : relation A) l i a b :
  Sorted R l → l !! i = Some a → l !! S i = Some b → R a b.
Proof.
  intros Hl. revert i. induction Hl as [|x l Hl IH Hhd]; intros i; [done|].
  destruct i as [|i]; simpl.
  - intros [= ->] Hb. destruct Hhd as [|y l Hxy]; [done|].
    by injection Hb as ->.
  - apply IH.
Qed.

(** Elements that tie with [s] keep their relative order. *)
Lemma insert_sorted_stable s x l :
  filter (λ a, tied lt s (key a)) (insert_sorted key lt x l)
  = filter (λ a, tied lt s (key a)) (x :: l).
Proof.
  induction l as [|y l IH]; simpl; [done|].
  destruct (lt (key y) (key x)) eqn:Hyx; [|done].
  rewrite filter_cons IH !filter_cons.
  destruct (decide (tied lt s (key y))) as [[Hy1 Hy2]|];
    destruct (decide (tied lt s (key x))) as [[Hx1 Hx2]|]; try done.
  destruct lt_order as [_ Hco].
  destruct (Hco _ _ s Hyx); congruence.
Qed.

Lemma stable_sort_stable s l :
  filter (λ a, tied lt s (key a)) (stable_sort key lt l)
  = filter (λ a, tied lt s (key a)) l.
Proof.
  induction l as [|x l IH]; simpl; [done|].
  by rewrite insert_sorted_stable !filter_cons IH.
Qed.

Lemma py_sorted_perm reversed l : py_sorted key lt reversed l ≡ₚ l.
Proof.
  unfold py_sorted. destruct reversed.
  - by rewrite reverse_Permutation stable_sort_perm reverse_Permutation.
  - apply stable_sort_perm.
Qed.

Lemma py_sorted_stable s reversed l :
  filter (λ a, tied lt s (key a)) (py_sorted key lt reversed l)
  = filter (λ a, tied lt s (key a)) l.
Proof.
  unfold py_sorted. destruct reversed.
  - by rewrite filter_reverse stable_sort_stable filter_reverse
         reverse_involutive.
  - apply stable_sort_stable.
Qed.

Lemma py_sorted_reverse_descending l :
  descending key lt (py_sorted key lt true l).
Proof.
  unfold py_sorted. intros i a b Ha Hb.
  set (srt := stable_sort key lt (reverse l)) in *.
  apply reverse_lookup_Some in Ha as [Ha Hi].
  apply reverse_lookup_Some in Hb as [Hb Hsi].
  replace (length srt - S i) with (S (length srt - S (S i))) in Ha by lia.
  exact (Sorted_adjacent (may_precede key lt) srt _ b a
           (stable_sort_Sorted _) Hb Ha).
Qed.

Lemma descending_take n l :
  descending key lt l → descending key lt (take n l).
Proof.
  intros Hl i a b Ha Hb.
  apply lookup_take_Some in Ha as [Ha _].
  apply lookup_take_Some in Hb as [Hb _]. eauto.
Qed.

Lemma filter_take_prefix (P : A → Prop) `{!∀ a, Decision (P a)} n l :
  filter P (take n l) `prefix_of` filter P l.
Proof.
  rewrite -{2}(take_drop n l) filter_app. by apply prefix_app_r.
Qed.

End sort_facts.

Lemma length_py_slice_to {A} (l : list A) n :
  Z.of_nat (length (py_slice_to l n))
  = if (0 <=? n)%Z then Z.min n (Z.of_nat (length l))
    else Z.max 0 (Z.of_nat (length l) + n).
Proof.
  unfold py_slice_to. destruct (Z.leb_spec 0 n); rewrite length_take; lia.
Qed.

Lemma map_each_total {A B} (f : A → result B) (Q : A → B → Prop) l :
  Forall (λ x, ∃ y, f x = Ok y ∧ Q x y) l →
  ∃ out, Res.map_each f l = Ok out ∧ Forall2 Q l out.
Proof.
  induction 1 as [|x l (y & Hy & HQ) _ (out & Hout & HQs)]; simpl.
  - by exists [].
  - rewrite Hy /= Hout /=. exists (y :: out). split; [done|].
    by constructor.
Qed.

(** ** top_n_errors *)

Section ranking.
Context {X V C Score : Type}.
Variable score_lt : Score → Score → bool.

Implicit Types (error_res top : list (@scored V Score))
  (out : list (@error_record X V C)).

Lemma error_record_of_total (train_data : list X) train_values
    (companies : list C) (r : @scored V Score) :
  valid_index train_data train_values companies r →
  ∃ e, error_record_of train_data train_values companies r = Ok e
       ∧ resolves train_data train_values companies r e.
Proof.
  destruct r as [[i p] s]. intros (Hd & Hc & Hv); simpl in *.
  destruct (py_index_lt train_data i Hd) as (x & Hx & Hxl).
  destruct (py_index_lt companies i Hc) as (c & Hcc & Hcl).
  destruct (py_index_lt train_values i Hv) as (y & Hy & Hyl).
  unfold error_record_of. rewrite Hx /= Hcc /= Hy /=.
  eexists. split; [done|]. by repeat split.
Qed.

(** C2, as the code has it. For scored predictions whose indices are
    valid in the three sequences and whose scores are compared by a
    strict weak order, [top_n_errors] returns the records of the list
    [top], the slice [[:n]] of the sorted list: [top] is sorted by score
    descending (no element is followed by one with a higher score),
    records with tied scores are in the order they have in the input, and
    the output has min(n, len(input)) records when n >= 0 and
    max(0, len(input) + n) records when n < 0. *)
Theorem top_n_errors_sorted_stable error_res (train_data : list X)
    train_values (companies : list C) n :
  strict_weak_order score_lt →
  Forall (valid_index train_data train_values companies) error_res →
  ∃ top out,
    top_n_errors score_lt error_res train_data train_values companies n
      = Ok out
    ∧ Forall2 (resolves train_data train_values companies) top out
    ∧ descending snd score_lt top
    ∧ top ⊆+ error_res
    ∧ (∀ s, filter (λ r, tied score_lt s r.2) top
            `prefix_of` filter (λ r, tied score_lt s r.2) error_res)
    ∧ Z.of_nat (length out)
      = if (0 <=? n)%Z then Z.min n (Z.of_nat (length error_res))
        else Z.max 0 (Z.of_nat (length error_res) + n).
Proof.
  intros Hord Hvalid. unfold top_n_errors.
  set (srt := py_sorted _ score_lt true error_res).
  assert (Hperm : srt ≡ₚ error_res) by apply py_sorted_perm.
  assert (Hslice : ∃ m, py_slice_to srt n = take m srt).
  { unfold py_slice_to. destruct (0 <=? n)%Z; eauto. }
  destruct Hslice as [m Hm].
  destruct (map_each_total
              (error_record_of train_data train_values companies)
              (resolves train_data train_values companies)
              (py_slice_to srt n)) as (out & Hout & Hres).
  { apply Forall_forall. intros r Hr. apply error_record_of_total.
    rewrite Hm in Hr. apply elem_of_take in Hr as (i & Hr & _).
    apply list_elem_of_lookup_2 in Hr. rewrite Hperm in Hr.
    by eapply Forall_forall in Hvalid. }
  exists (py_slice_to srt n), out.
  split; [done|]. split; [done|]. split; [|split; [|split]].
  - rewrite Hm. apply descending_take.
    by apply (py_sorted_reverse_descending snd score_lt).
  - rewrite Hm -Hperm. apply submseteq_take.
  - intros s. rewrite Hm.
    rewrite -(py_sorted_stable snd score_lt Hord s true error_res).
    apply filter_take_prefix.
  - rewrite -(Forall2_length _ _ _ Hres) length_py_slice_to.
    by rewrite (Permutation_length Hperm).
Qed.

(** C9. [top_n_errors] leaves the caller's list as it was: after the call
    the store maps the reference passed as [error_res], and every other
    reference that existed before, to the same list as before; the
    records are computed from a sorted copy. *)
Theorem top_n_errors_keeps_argument (h : gmap nat (list (@scored V Score)))
    (error_res : nat)
    (train_data : list X) train_values (companies : list C) n :
  let '(h', out) :=
    top_n_errors_obj score_lt h error_res train_data train_values
      companies n in
  h' !! error_res = h !! error_res
  ∧ h ⊆ h'
  ∧ out = match h !! error_res with
          | Some arg =>
              top_n_errors score_lt arg train_data train_values
                companies n
          | None => Raise TypeError
          end.
Proof.
  unfold top_n_errors_obj, top_n_errors, new_list.
  destruct (h !! error_res) as [arg|] eqn:Harg; [|done].
  set (srt := py_sorted _ score_lt true arg).
  set (r1 := fresh (dom h)).
  set (h1 := <[r1:=srt]> h).
  set (r2 := fresh (dom h1)).
  assert (H1 : h !! r1 = None) by apply not_elem_of_dom, is_fresh.
  assert (H2 : h1 !! r2 = None) by apply not_elem_of_dom, is_fresh.
  assert (Hsub : h ⊆ <[r2:=py_slice_to (default [] (h1 !! r1)) n]> h1).
  { etrans; [by apply insert_subseteq|]. by apply insert_subseteq. }
  split; [|split; [done|]].
  - exact (lookup_weaken _ _ _ _ Harg Hsub).
  - rewrite lookup_insert_eq. subst h1. by rewrite lookup_insert_eq.
Qed.

End ranking.

(** ** Dictionaries *)

Section dict_facts.
Context {K V : Type} `{EqDecision K}.
Implicit Types (d : list (K * V)) (k : K) (v : V).

Lemma dict_get_elem d k v : dict_get d k = Some v → (k, v) ∈ d.
Proof.
  induction d as [|[k' v'] d IH]; simpl; [done|].
  destruct (decide (k = k')) as [->|].
  - intros [= ->]. by left.
  - intros H. right. by apply IH.
Qed.

Lemma dict_set_elem d k v k' v' :
  (k', v') ∈ dict_set d k v → (k', v') = (k, v) ∨ (k', v') ∈ d.
Proof.
  induction d as [|[k0 v0] d IH]; simpl.
  - intros ->%list_elem_of_singleton. by left.
  - destruct (decide (k = k0)) as [->|].
    + intros [->|Hin]%elem_of_cons; [by left|]. right. by right.
    + intros [->|Hin]%elem_of_cons; [right; by left|].
      destruct (IH Hin); [by left|]. right. by right.
Qed.

Lemma dict_set_keys d k v :
  map fst (dict_set d k v)
  = if decide (k ∈ map fst d) then map fst d else map fst d ++ [k].
Proof.
  induction d as [|[k0 v0] d IH]; simpl; [done|].
  destruct (decide (k = k0)) as [->|Hne]; simpl.
  - rewrite decide_True //. by left.
  - rewrite IH. destruct (decide (k ∈ map fst d)) as [Hin|Hnin].
    + rewrite decide_True //. by right.
    + rewrite decide_False //.
      by intros [?|?]%elem_of_cons.
Qed.

Lemma dict_set_keys_NoDup d k v :
  NoDup (map fst d) → NoDup (map fst (dict_set d k v)).
Proof.
  intros Hd. rewrite dict_set_keys. case_decide; [done|].
  apply NoDup_app. split; [done|]. split; [|apply NoDup_singleton].
  by intros k' Hk' ->%list_elem_of_singleton.
Qed.

Lemma dict_get_map {W} (f : V → W) d k :
  dict_get (map (λ '(k, v), (k, f v)) d) k = f <$> dict_get d k.
Proof.
  induction d as [|[k' v'] d IH]; simpl; [done|].
  by destruct (decide (k = k')).
Qed.

Lemma dict_keys_map {W} (f : V → W) d :
  map fst (map (λ '(k, v), (k, f v)) d) = map fst d.
Proof.
  induction d as [|[k' v'] d IH]; simpl; [done|]. by rewrite IH.
Qed.
End dict_facts.

(** Appending [x] to the list stored under [k] adds [x]'s share to the
    flattened dictionary, whatever the position of [k]. *)
Lemma dict_append_flat {K V B} `{EqDecision K} (g : list V → list B)
    (d : list (K * list V)) k x :
  g [] = [] → (∀ vs, g (vs ++ [x]) = g vs ++ g [x]) →
  concat (map (λ kv, g kv.2)
            (dict_set d k (dict_get_default d k [] ++ [x])))
  ≡ₚ concat (map (λ kv, g kv.2) d) ++ g [x].
Proof.
  intros Hnil Hsnoc. unfold dict_get_default.
  generalize (eq_refl (default [] (dict_get d k))).
  generalize (default [] (dict_get d k)) at 1 3 as vs.
  induction d as [|[k' v'] d IH]; intros vs; simpl.
  - intros ->. by rewrite (Hsnoc []) Hnil app_nil_r.
  - destruct (decide (k = k')) as [->|Hne]; simpl.
    + intros ->. rewrite Hsnoc -!app_assoc. f_equiv.
      apply Permutation_app_comm.
    + intros Hvs. by rewrite (IH vs Hvs) app_assoc.
Qed.

Lemma for_each_raises {A S} (f : S → A → result S) (e : exn) l s x :
  x ∈ l → (∀ s, f s x = Raise e) →
  (∀ s y, f s y = Raise e ∨ ∃ s', f s y = Ok s') →
  Res.for_each f l s = Raise e.
Proof.
  intros Hx Hraise Honly. revert s.
  induction l as [|y l IH]; intros s; [by apply not_elem_of_nil in Hx|].
  simpl. destruct (Honly s y) as [->|[s' Hs']]; [done|].
  apply elem_of_cons in Hx as [->|Hx].
  - by rewrite Hraise in Hs'.
  - rewrite Hs' /=. by apply IH.
Qed.

(** ** comps2sent *)

Section grouping_facts.
Context {C K : Type} `{EqDecision K}.
Implicit Types (text_data : list K) (companies : list C)
  (sentence_compid : list (K * list (C * nat)))
  (compscount_ids : list (nat * list (list nat))).

Lemma count_ids_flatten compscount_ids :
  concat (concat (map snd compscount_ids)) = count_ids compscount_ids.
Proof.
  unfold count_ids.
  induction compscount_ids as [|[c ids] d IH]; simpl; [done|].
  by rewrite concat_app IH.
Qed.

Lemma add_sentence_total text_data companies sentence_compid i :
  i < length text_data → i < length companies →
  ∃ d, add_sentence text_data companies sentence_compid i = Ok d
       ∧ sentence_ids d ≡ₚ sentence_ids sentence_compid ++ [i].
Proof.
  intros Ht Hc.
  destruct (py_index_lt text_data i Ht) as (text & Htext & _).
  destruct (py_index_lt companies i Hc) as (comp & Hcomp & _).
  unfold add_sentence. rewrite Htext /= Hcomp /=. eexists. split; [done|].
  apply (dict_append_flat (map snd) sentence_compid text (comp, i));
    [done|]. intros vs. by rewrite map_app.
Qed.

Lemma add_sentences_total text_data companies sentence_compid a n :
  a + n ≤ length text_data → a + n ≤ length companies →
  ∃ d, Res.for_each (add_sentence text_data companies) (seq a n)
         sentence_compid = Ok d
       ∧ sentence_ids d ≡ₚ sentence_ids sentence_compid ++ seq a n.
Proof.
  revert a sentence_compid.
  induction n as [|n IH]; intros a sentence_compid Ht Hc.
  - exists sentence_compid. by rewrite /= app_nil_r.
  - destruct (add_sentence_total text_data companies sentence_compid a)
      as (d1 & Hd1 & Hids1); [lia..|].
    destruct (IH (S a) d1) as (d2 & Hd2 & Hids2); [lia..|].
    exists d2. cbn [seq Res.for_each]. rewrite Hd1 /=. split; [done|].
    by rewrite Hids2 Hids1 -app_assoc.
Qed.

Lemma add_group_ids compscount_ids (item : K * list (C * nat)) :
  count_ids (add_group compscount_ids item)
  ≡ₚ count_ids compscount_ids ++ map snd item.2.
Proof.
  destruct item as [text compsid]. unfold add_group, count_ids. simpl.
  rewrite (dict_append_flat (@concat nat)); [done| |].
  - intros vs. by rewrite concat_app.
  - by rewrite /= app_nil_r.
Qed.

Lemma add_groups_ids compscount_ids sentence_compid :
  count_ids (foldl add_group compscount_ids sentence_compid)
  ≡ₚ count_ids compscount_ids ++ sentence_ids sentence_compid.
Proof.
  revert compscount_ids.
  induction sentence_compid as [|item d IH]; intros compscount_ids.
  - by rewrite /= app_nil_r.
  - cbn [foldl]. rewrite IH add_group_ids.
    unfold sentence_ids. simpl. by rewrite app_assoc.
Qed.

(** C3. For parallel sequences of equal length, [comps2sent] returns, and
    the indices in its output, flattened across all buckets and all inner
    index-lists, are a permutation of 0..len(texts)-1: every index occurs
    exactly once. *)
Theorem comps2sent_partitions_indices text_data companies :
  length text_data = length companies →
  ∃ compscount_ids,
    comps2sent text_data companies = Ok compscount_ids
    ∧ concat (concat (map snd compscount_ids))
      ≡ₚ seq 0 (length text_data)
    ∧ NoDup (concat (concat (map snd compscount_ids))).
Proof.
  intros Hlen.
  destruct (add_sentences_total text_data companies [] 0
              (length text_data)) as (d & Hd & Hids); [lia..|].
  unfold comps2sent. rewrite Hd /=. eexists. split; [done|].
  assert (Hperm : concat (concat (map snd (foldl add_group [] d)))
                  ≡ₚ seq 0 (length text_data)).
  { by rewrite count_ids_flatten add_groups_ids Hids. }
  split; [done|]. rewrite Hperm. apply NoDup_seq.
Qed.

End grouping_facts.

(** ** sent_type_errors *)

Section stratifying_facts.
Context {X V C : Type}.
Implicit Types (compscount_ids : list (nat * list (list nat)))
  (ids_compscount : gmap nat nat)
  (top_errors : list (@error_record X V C))
  (comps_errors : list (nat * list (@error_record X V C))).

Lemma invert_ids_lookup ids_compscount c (ids : list nat) i :
  foldl (λ m a_id, <[a_id:=c]> m) ids_compscount ids !! i
  = if decide (i ∈ ids) then Some c else ids_compscount !! i.
Proof.
  revert ids_compscount.
  induction ids as [|a ids IH]; intros m; simpl; [done|].
  rewrite IH. destruct (decide (i ∈ ids)) as [Hin|Hnin].
  - rewrite decide_True //. by right.
  - destruct (decide (i = a)) as [->|Hne].
    + rewrite decide_True; [by left|]. by rewrite lookup_insert_eq.
    + rewrite decide_False; [by intros [?|?]%elem_of_cons|].
      by rewrite lookup_insert_ne.
Qed.

Lemma elem_of_concat (ids_list : list (list nat)) i :
  i ∈ concat ids_list ↔ ∃ ids, ids ∈ ids_list ∧ i ∈ ids.
Proof.
  induction ids_list as [|ids ids_list IH]; simpl.
  - split; [by intros ?%not_elem_of_nil|].
    by intros (ids & ?%not_elem_of_nil & _).
  - rewrite elem_of_app IH. split.
    + intros [Hi|(ids0 & Hin & Hi)].
      * exists ids. split; [by left|done].
      * exists ids0. split; [by right|done].
    + intros (ids0 & [->|Hin]%elem_of_cons & Hi); [by left|].
      right. eauto.
Qed.

Lemma invert_ids_list_lookup ids_compscount c (ids_list : list (list nat))
    i :
  foldl (λ m ids, foldl (λ m a_id, <[a_id:=c]> m) m ids)
    ids_compscount ids_list !! i
  = if decide (i ∈ concat ids_list) then Some c
    else ids_compscount !! i.
Proof.
  revert ids_compscount.
  induction ids_list as [|ids ids_list IH]; intros m; simpl; [done|].
  rewrite IH invert_ids_lookup.
  destruct (decide (i ∈ concat ids_list)) as [Hin|Hnone].
  - rewrite decide_True //. apply elem_of_app. by right.
  - destruct (decide (i ∈ ids)) as [Hi|Hni].
    + rewrite decide_True //. apply elem_of_app. by left.
    + rewrite decide_False //. by intros [?|?]%elem_of_app.
Qed.

(** The lookup built by the three nested loops, from any starting map. *)
Lemma invert_from_Some ids_compscount compscount_ids i c :
  foldl
    (λ m '(compscount, ids_list),
       foldl (λ m ids, foldl (λ m a_id, <[a_id:=compscount]> m) m ids)
         m ids_list)
    ids_compscount compscount_ids !! i = Some c →
  ids_compscount !! i = Some c ∨ listed_under compscount_ids c i.
Proof.
  revert ids_compscount.
  induction compscount_ids as [|[c0 ids_list] d IH]; intros m; simpl;
    [by left|].
  intros [H|(l & ids & Hl & Hids & Hi)]%IH.
  - rewrite invert_ids_list_lookup in H.
    destruct (decide (i ∈ concat ids_list)) as [Hc|]; [|by left].
    apply elem_of_concat in Hc as (ids & Hin & Hi).
    injection H as <-. right. exists ids_list, ids.
    split; [by left|done].
  - right. exists l, ids. split; [by right|done].
Qed.

Lemma invert_from_is_Some ids_compscount compscount_ids i :
  is_Some (ids_compscount !! i) ∨ (∃ c, listed_under compscount_ids c i) →
  is_Some
    (foldl
       (λ m '(compscount, ids_list),
          foldl (λ m ids, foldl (λ m a_id, <[a_id:=compscount]> m) m ids)
            m ids_list)
       ids_compscount compscount_ids !! i).
Proof.
  revert ids_compscount.
  induction compscount_ids as [|[c0 ids_list] d IH]; intros m; simpl.
  - intros [H|(c & l & ids & Hl & _)]; [done|].
    by apply not_elem_of_nil in Hl.
  - intros H. apply IH.
    rewrite invert_ids_list_lookup.
    destruct (decide (i ∈ concat ids_list)) as [|Hnone]; [by left|].
    destruct H as [H|(c & l & ids & [Heq|Hl]%elem_of_cons & Hids & Hi)].
    + by left.
    + injection Heq as -> ->. destruct Hnone. apply elem_of_concat. eauto.
    + right. exists c, l, ids. done.
Qed.

Lemma invert_counts_Some compscount_ids i c :
  invert_counts compscount_ids !! i = Some c →
  listed_under compscount_ids c i.
Proof.
  unfold invert_counts, dict_items.
  intros [H|H]%invert_from_Some; [|done]. by rewrite lookup_empty in H.
Qed.

Lemma invert_counts_None compscount_ids i :
  (∀ c, ¬ listed_under compscount_ids c i) →
  invert_counts compscount_ids !! i = None.
Proof.
  intros Hnone.
  destruct (invert_counts compscount_ids !! i) as [c|] eqn:Hc; [|done].
  apply invert_counts_Some in Hc. by destruct (Hnone c).
Qed.

Lemma invert_counts_is_Some compscount_ids i c :
  listed_under compscount_ids c i →
  is_Some (invert_counts compscount_ids !! i).
Proof.
  intros H. unfold invert_counts, dict_items.
  apply invert_from_is_Some. right. eauto.
Qed.

Lemma add_error_total ids_compscount comps_errors error :
  is_Some (ids_compscount !! index error) →
  placed ids_compscount comps_errors → NoDup (map fst comps_errors) →
  ∃ d, add_error ids_compscount comps_errors error = Ok d
       ∧ placed ids_compscount d ∧ NoDup (map fst d)
       ∧ concat (map snd d) ≡ₚ concat (map snd comps_errors) ++ [error].
Proof.
  intros [c Hc] Hplaced Hkeys. unfold add_error. rewrite Hc /=.
  eexists. split; [done|]. split; [|split].
  - intros c' es e [Heq|Hin]%dict_set_elem He.
    + injection Heq as -> ->.
      apply elem_of_app in He as [He| ->%list_elem_of_singleton];
        [|done].
      unfold dict_get_default in He.
      destruct (dict_get comps_errors c) as [es0|] eqn:Hget;
        [|by apply not_elem_of_nil in He].
      eapply Hplaced; [|exact He]. by apply dict_get_elem.
    + by eapply Hplaced.
  - by apply dict_set_keys_NoDup.
  - rewrite -(app_nil_r [error]).
    apply (dict_append_flat (λ es, es) comps_errors c error); [done|].
    done.
Qed.

Lemma add_errors_total ids_compscount comps_errors top_errors :
  Forall (λ e, is_Some (ids_compscount !! index e)) top_errors →
  placed ids_compscount comps_errors → NoDup (map fst comps_errors) →
  ∃ d, Res.for_each (add_error ids_compscount) top_errors comps_errors
         = Ok d
       ∧ placed ids_compscount d ∧ NoDup (map fst d)
       ∧ concat (map snd d)
         ≡ₚ concat (map snd comps_errors) ++ top_errors.
Proof.
  intros Hall. revert comps_errors.
  induction Hall as [|e es He _ IH]; intros comps_errors Hplaced Hkeys.
  - exists comps_errors. by rewrite /= app_nil_r.
  - destruct (add_error_total ids_compscount comps_errors e)
      as (d1 & Hd1 & Hp1 & Hk1 & Hperm1); [done..|].
    destruct (IH d1) as (d2 & Hd2 & Hp2 & Hk2 & Hperm2); [done..|].
    exists d2. rewrite /= Hd1 /=. split; [done|]. split; [done|].
    split; [done|]. by rewrite Hperm2 Hperm1 -app_assoc.
Qed.

Lemma length_concat_strata comps_errors :
  length (concat (map snd comps_errors))
  = sum_list (map (λ kv, length kv.2) comps_errors).
Proof.
  induction comps_errors as [|[c es] d IH]; simpl; [done|].
  by rewrite length_app IH.
Qed.

(** C4. When the index of every error record is listed in
    [compscount_ids], [sent_type_errors] returns a map in which every
    record lies in the stratum of a count under which its index is listed;
    the strata together hold exactly the records passed in, so their
    sizes add up to the number of records. *)
Theorem sent_type_errors_places_every_record top_errors compscount_ids :
  Forall (λ e, ∃ c, listed_under compscount_ids c (index e)) top_errors →
  ∃ comps_errors,
    sent_type_errors top_errors compscount_ids = Ok comps_errors
    ∧ (∀ c es e, (c, es) ∈ comps_errors → e ∈ es →
         invert_counts compscount_ids !! index e = Some c
         ∧ listed_under compscount_ids c (index e))
    ∧ NoDup (map fst comps_errors)
    ∧ concat (map snd comps_errors) ≡ₚ top_errors
    ∧ sum_list (map (λ kv, length kv.2) comps_errors) = length top_errors.
Proof.
  intros Hall. unfold sent_type_errors.
  destruct (add_errors_total (invert_counts compscount_ids) [] top_errors)
    as (d & Hd & Hplaced & Hkeys & Hperm).
  - eapply Forall_impl; [exact Hall|]. intros e [c Hc].
    by eapply invert_counts_is_Some.
  - intros c es e Hin. by apply not_elem_of_nil in Hin.
  - constructor.
  - exists d. split; [done|]. split; [|split; [done|split; [done|]]].
    + intros c es e Hin He. pose proof (Hplaced c es e Hin He) as Hc.
      split; [done|]. by apply invert_counts_Some.
    + by rewrite -length_concat_strata Hperm.
Qed.

(** C5. When some error record has an index that is listed nowhere in
    [compscount_ids], [sent_type_errors] raises KeyError: it returns no
    map at all, so no record is dropped silently. *)
Theorem sent_type_errors_raises_on_unknown_index top_errors
    compscount_ids error :
  error ∈ top_errors →
  (∀ c, ¬ listed_under compscount_ids c (index error)) →
  sent_type_errors top_errors compscount_ids = Raise KeyError.
Proof.
  intros Hin Hnone. unfold sent_type_errors.
  apply for_each_raises with (x := error); [done| |].
  - intros s. unfold add_error.
    by rewrite (invert_counts_None _ _ Hnone).
  - intros s e. unfold add_error.
    destruct (invert_counts compscount_ids !! index e); simpl; eauto.
Qed.

End stratifying_facts.

(** ** error_analysis *)

Section analysis_facts.
Context {X V C Score Mdl T : Type} `{EqDecision T} `{EqDecision X}
  `{Hashable X}.
Variable fit : list X → list V → Mdl → Mdl * result unit.
Variable predict : list X → Mdl → Mdl * result (list V).
Variable score_function : list V → list V → result Score.
Variable rng_shuffle : list nat → list nat.
Variable score_lt : Score → Score → bool.

(** C8. Whenever [error_analysis] returns, the distribution map has the
    keys of the strata map, in the same order, and maps each key to the
    number of error records stored under that key in the strata map. *)
Theorem error_analysis_distribution_counts_strata (train_data : list X)
    (train_values : list V) (train_comps : list C)
    (train_text : text_arg T) num_errors n_folds shuffle
    (w w' : @world X V Mdl) error_details error_distribution :
  error_analysis fit predict score_function rng_shuffle score_lt
    train_data train_values train_comps train_text num_errors n_folds
    shuffle w = (w', Ok (error_details, error_distribution)) →
  map fst error_distribution = map fst error_details
  ∧ (∀ k, dict_get error_distribution k
          = length <$> dict_get error_details k)
  ∧ Forall2 (λ kn kv, kn.1 = kv.1 ∧ kn.2 = length kv.2)
      error_distribution error_details.
Proof.
  unfold error_analysis. intros Hrun.
  apply M_bind_inv in Hrun as (compcount_id & w1 & _ & Hrun).
  apply M_bind_inv in Hrun as (error_results & w2 & _ & Hrun).
  apply M_bind_inv in Hrun as (top_errors & w3 & _ & Hrun).
  apply M_bind_inv in Hrun as (details & w4 & _ & Hrun).
  unfold ret, dict_items in Hrun. injection Hrun as _ <- <-.
  split; [apply dict_keys_map|]. split; [intros k; apply dict_get_map|].
  induction details as [|[k v] d IH]; simpl; by constructor.
Qed.

End analysis_facts.

(** * The properties on the small model *)

Lemma toy_fit_returns : fit_returns Toy.fit.
Proof. by intros data values m. Qed.

Lemma toy_predict_returns : predict_returns_one_per_example Toy.predict.
Proof.
  intros data m. eexists. split; [done|]. simpl. apply length_map.
Qed.

Lemma toy_score_single : scores_single_examples Toy.score.
Proof. intros p r. by eexists. Qed.

Lemma reverse_permutes : permutes reverse.
Proof. intros l. apply reverse_Permutation. Qed.

Lemma Z_ltb_strict_weak_order : strict_weak_order Z.ltb.
Proof.
  split.
  - intros a b H%Z.ltb_lt. apply Z.ltb_ge. lia.
  - intros a b c H%Z.ltb_lt. destruct (Z.ltb_spec a c); [by left|].
    right. apply Z.ltb_lt. lia.
Qed.

(** The scenarios of the specification. *)

Example comps2sent_scenario :
  comps2sent ["a"; "a"; "b"]%string ["x"; "y"; "z"]%string
  = Ok [(2, [[0; 1]]); (1, [[2]])].
Proof. reflexivity. Qed.

Example top_n_errors_scenario :
  map index
    <$> (match top_n_errors Z.ltb Toy.scored_scenario
                 ["a"; "b"; "c"]%string [1; 2; 3]%Z
                 ["x"; "y"; "z"]%string 2 with
         | Ok out => Some out
         | Raise _ => None
         end)
  = Some [1; 2].
Proof. reflexivity. Qed.

Example error_cross_validate_scenario :
  (error_cross_validate Toy.fit Toy.predict Toy.score reverse Toy.texts
     Toy.labels 5 false Toy.w0).2
  = Ok [(0, 15%Z, 14%Z); (1, 15%Z, 13%Z); (2, 13%Z, 10%Z);
        (3, 15%Z, 11%Z); (4, 11%Z, 6%Z)].
Proof. reflexivity. Qed.

(** Instances of the theorems above. *)

Lemma error_cross_validate_covers_every_index_witness :
  ∃ w' results folds,
    error_cross_validate Toy.fit Toy.predict Toy.score reverse Toy.texts
      Toy.labels 2 true Toy.w0 = (w', Ok results)
    ∧ length results = length Toy.texts
    ∧ map (λ r : nat * Z * Z, r.1.1) results ≡ₚ seq 0 (length Toy.texts)
    ∧ NoDup (map (λ r : nat * Z * Z, r.1.1) results)
    ∧ folds_of reverse 2 true (length Toy.texts) (length Toy.labels)
      = Ok folds
    ∧ Z.of_nat (length folds) = 2%Z
    ∧ concat (map snd folds) ≡ₚ seq 0 (length Toy.texts)
    ∧ map (λ r : nat * Z * Z, r.1.1) results = concat (map snd folds).
Proof.
  apply (error_cross_validate_covers_every_index Toy.fit Toy.predict
           Toy.score reverse Toy.texts Toy.labels 2 true Toy.w0).
  - exact reverse_permutes.
  - exact toy_fit_returns.
  - exact toy_predict_returns.
  - exact toy_score_single.
  - reflexivity.
  - simpl. lia.
Defined.

Lemma error_cross_validate_scores_each_example_alone_witness :
  ∃ w' results,
    error_cross_validate Toy.fit Toy.predict Toy.score reverse Toy.texts
      Toy.labels 2 true Toy.w0 = (w', Ok results)
    ∧ results = [(2, 4%Z, 1%Z); (3, 7%Z, 3%Z); (4, 4%Z, 1%Z);
                 (0, 13%Z, 12%Z); (1, 14%Z, 12%Z)]
    ∧ ∃ folds predictions,
        folds_of reverse 2 true (length Toy.texts) (length Toy.labels)
        = Ok folds
        ∧ predicted_by Toy.fit Toy.predict Toy.texts Toy.labels folds
            (model Toy.w0) predictions
        ∧ Forall2 (λ fold predicted, length predicted ≤ length fold.2)
            folds predictions
        ∧ Forall2 (scored_alone Toy.score Toy.labels)
            (held_out_examples folds predictions) results.
Proof.
  eexists _, _. split; [reflexivity|]. split; [reflexivity|].
  eapply (error_cross_validate_scores_each_example_alone Toy.fit Toy.predict
            Toy.score reverse Toy.texts Toy.labels 2 true Toy.w0).
  reflexivity.
Defined.

Lemma error_cross_validate_rejects_malformed_k_witness :
  folds_of reverse 6 true (length Toy.texts) (length Toy.labels)
    = Raise ValueError
  ∧ error_cross_validate Toy.fit Toy.predict Toy.score reverse Toy.texts
      Toy.labels 6 true Toy.w0 = (Toy.w0, Raise ValueError).
Proof.
  apply (error_cross_validate_rejects_malformed_k Toy.fit Toy.predict
           Toy.score reverse Toy.texts Toy.labels 6 true Toy.w0).
  right. simpl. lia.
Defined.

Lemma top_n_errors_sorted_stable_witness :
  ∃ top out,
    top_n_errors Z.ltb Toy.scored_scenario ["a"; "b"; "c"]%string
      [1; 2; 3]%Z ["x"; "y"; "z"]%string 2 = Ok out
    ∧ Forall2 (resolves ["a"; "b"; "c"]%string [1; 2; 3]%Z
                 ["x"; "y"; "z"]%string) top out
    ∧ descending snd Z.ltb top
    ∧ top ⊆+ Toy.scored_scenario
    ∧ (∀ s, filter (λ r : nat * Z * Z, tied Z.ltb s r.2) top
            `prefix_of`
            filter (λ r : nat * Z * Z, tied Z.ltb s r.2) Toy.scored_scenario)
    ∧ Z.of_nat (length out) = 2%Z.
Proof.
  apply (top_n_errors_sorted_stable Z.ltb Toy.scored_scenario
           ["a"; "b"; "c"]%string [1; 2; 3]%Z ["x"; "y"; "z"]%string 2).
  - exact Z_ltb_strict_weak_order.
  - repeat constructor; simpl; lia.
Defined.

(** C2 as stated fails for a negative [n]: the slice [[:-1]] drops the last
    record of the sorted list, so two of the three records are returned,
    and two is not min(-1, 3). *)
Lemma top_n_errors_negative_n_counterexample :
  ∃ out,
    top_n_errors Z.ltb Toy.scored_scenario ["a"; "b"; "c"]%string
      [1; 2; 3]%Z ["x"; "y"; "z"]%string (-1) = Ok out
    ∧ map index out = [1; 2]
    ∧ Z.of_nat (length out)
      ≠ Z.min (-1) (Z.of_nat (length Toy.scored_scenario)).
Proof.
  eexists. split; [reflexivity|]. split; [reflexivity|]. simpl. lia.
Qed.

Lemma comps2sent_partitions_indices_witness :
  ∃ compscount_ids,
    comps2sent Toy.texts Toy.comps = Ok compscount_ids
    ∧ concat (concat (map snd compscount_ids)) ≡ₚ seq 0 (length Toy.texts)
    ∧ NoDup (concat (concat (map snd compscount_ids))).
Proof.
  apply (comps2sent_partitions_indices Toy.texts Toy.comps). reflexivity.
Defined.

Lemma sent_type_errors_places_every_record_witness :
  ∃ comps_errors,
    sent_type_errors Toy.top_errors Toy.count_groups = Ok comps_errors
    ∧ (∀ c es e, (c, es) ∈ comps_errors → e ∈ es →
         invert_counts Toy.count_groups !! index e = Some c
         ∧ listed_under Toy.count_groups c (index e))
    ∧ NoDup (map fst comps_errors)
    ∧ concat (map snd comps_errors) ≡ₚ Toy.top_errors
    ∧ sum_list (map (λ kv, length kv.2) comps_errors)
      = length Toy.top_errors.
Proof.
  apply (sent_type_errors_places_every_record Toy.top_errors
           Toy.count_groups).
  repeat constructor.
  - exists 2, [[0; 2]], [0; 2]. repeat split; repeat constructor.
  - exists 1, [[1]; [3]; [4]], [1]. repeat split; repeat constructor.
  - exists 1, [[1]; [3]; [4]], [3]. repeat split; repeat constructor.
Defined.

Lemma sent_type_errors_raises_on_unknown_index_witness :
  sent_type_errors (Toy.top_errors ++ [Toy.stray]) Toy.count_groups
  = Raise KeyError.
Proof.
  apply (sent_type_errors_raises_on_unknown_index
           (Toy.top_errors ++ [Toy.stray]) Toy.count_groups Toy.stray).
  - apply elem_of_app. right. constructor.
  - intros c (ids_list & ids & Hl & Hids & Hi). simpl in Hi.
    apply list_elem_of_In in Hl. simpl in Hl.
    destruct Hl as [[= <- <-]|[[= <- <-]|[]]];
      apply list_elem_of_In in Hids; simpl in Hids;
      repeat (destruct Hids as [<-|Hids];
              [apply list_elem_of_In in Hi; simpl in Hi; lia|]);
      exact Hids.
Defined.

Lemma error_analysis_distribution_counts_strata_witness :
  let error_details :=
    [(2, [Toy.error_at 0 "a" "x" 1 13]);
     (1, [Toy.error_at 1 "bb" "y" 2 14; Toy.error_at 3 "dddd" "x" 4 7])] in
  let error_distribution := [(2, 1); (1, 2)] in
  map fst error_distribution = map fst error_details
  ∧ (∀ k, dict_get error_distribution k
          = length <$> dict_get error_details k)
  ∧ Forall2 (λ kn kv, kn.1 = kv.1 ∧ kn.2 = length kv.2)
      error_distribution error_details.
Proof.
  eapply (error_analysis_distribution_counts_strata (T := string) Toy.fit
            Toy.predict Toy.score reverse Z.ltb Toy.texts Toy.labels
            Toy.comps (ArgBool false) 3 2 true Toy.w0).
  vm_compute. reflexivity.
Defined.

(** * Further properties *)

(** ** error_cross_validate: the calls made to the model *)

Lemma for_each_app {A S} (f : S → A → result S) l1 l2 s :
  Res.for_each f (l1 ++ l2) s
  = Res.bind (Res.for_each f l1 s) (Res.for_each f l2).
Proof.
  revert s. induction l1 as [|x l1 IH]; intros s; simpl; [done|].
  destruct (f s x) as [s'|e]; simpl; [apply IH | done].
Qed.

Lemma submseteq_keeps_NoDup {A} (l k : list A) :
  l ⊆+ k → NoDup k → NoDup l.
Proof.
  intros [k' Hk]%submseteq_Permutation. rewrite Hk.
  intros Hnd%NoDup_app. by destruct Hnd.
Qed.

Lemma folds_of_length rng_shuffle n_folds shuffle len_X len_y folds :
  folds_of rng_shuffle n_folds shuffle len_X len_y = Ok folds →
  Z.of_nat (length folds) = n_folds.
Proof.
  unfold folds_of, KFold.init.
  destruct (Z.leb_spec n_folds 1) as [|Hk]; [done|].
  cbn [Res.bind]. unfold KFold.split. cbn [KFold.n_splits].
  case_bool_decide; [|done]. cbn [negb].
  case_bool_decide; [done|]. intros [= <-].
  rewrite length_map length_iter_test_indices length_fold_sizes. lia.
Qed.

(** The examples of the folds: their indices, and how many they are. *)
Lemma fst_zip_take {A B} (l : list A) (k : list B) :
  map fst (zip l k) = take (length k) l.
Proof.
  revert k. induction l as [|x l IH]; intros [|y k]; simpl; try done.
  by rewrite IH.
Qed.

Lemma held_out_indices {V} (folds : list (list nat * list nat))
    (predictions : list (list V)) :
  map fst (held_out_examples folds predictions)
  = predicted_indices folds predictions.
Proof.
  unfold held_out_examples, predicted_indices. revert predictions.
  induction folds as [|fold folds IH]; intros [|predicted predictions];
    simpl; try done.
  by rewrite map_app fst_zip_take IH.
Qed.

Lemma held_out_length {V} (folds : list (list nat * list nat))
    (predictions : list (list V)) :
  Forall2 (λ fold predicted, length predicted ≤ length fold.2)
    folds predictions →
  length (held_out_examples folds predictions)
  = sum_list (map length predictions).
Proof.
  unfold held_out_examples.
  induction 1 as [|fold predicted folds predictions Hle _ IH]; [done|].
  simpl. rewrite length_app length_zip_with IH. lia.
Qed.

Lemma short_predictions {V} (folds : list (list nat * list nat))
    (predictions : list (list V)) :
  Forall2 (λ fold predicted, length predicted ≤ length fold.2)
    folds predictions →
  sum_list (map length predictions) < length (concat (map snd folds))
  ↔ Exists (λ fp : list nat * list nat * list V,
              length fp.2 < length fp.1.2) (zip folds predictions).
Proof.
  intros Hles.
  assert (Hle : sum_list (map length predictions)
                ≤ length (concat (map snd folds))).
  { induction Hles as [|fold predicted folds predictions Hle _ IH];
      [done|].
    simpl. rewrite length_app. lia. }
  induction Hles as [|fold predicted folds predictions Hp Hles IH].
  - simpl. split; [lia|]. by intros ?%Exists_nil.
  - assert (Hle' : sum_list (map length predictions)
                   ≤ length (concat (map snd folds))).
    { clear -Hles.
      induction Hles as [|fold predicted folds predictions Hle _ IH];
        [done|].
      simpl. rewrite length_app. lia. }
    simpl in *. rewrite length_app in Hle. rewrite length_app Exists_cons.
    simpl. split.
    + intros Hlt.
      destruct (decide (length predicted < length fold.2)); [by left|].
      right. apply IH; lia.
    + intros [Hs|Hs]; [lia|]. apply IH in Hs; lia.
Qed.

Section model_calls.
Context {X V Score Mdl : Type}.
Variable fit : list X → list V → Mdl → Mdl * result unit.
Variable predict : list X → Mdl → Mdl * result (list V).
Variable score_function : list V → list V → result Score.
Variable rng_shuffle : list nat → list nat.

Implicit Types (w : @world X V Mdl) (results : list (@scored V Score)).

Lemma model_fit_calls data values w w' r :
  model_fit fit data values w = (w', r) →
  calls w' = calls w ++ [CallFit data values]
  ∧ r = (fit data values (model w)).2.
Proof.
  unfold model_fit. destruct (fit data values (model w)) as [m' r'].
  by intros [= <- <-].
Qed.

Lemma model_predict_calls data w w' r :
  model_predict predict data w = (w', r) →
  calls w' = calls w ++ [CallPredict data]
  ∧ r = (predict data (model w)).2.
Proof.
  unfold model_predict. destruct (predict data (model w)) as [m' r'].
  by intros [= <- <-].
Qed.

Lemma cross_validate_fold_calls train_data train_values results fold w w'
    results' :
  cross_validate_fold fit predict score_function train_data train_values
    results fold w = (w', Ok results') →
  ∃ cs, fold_calls train_data train_values fold cs
        ∧ calls w' = calls w ++ cs.
Proof.
  destruct fold as [train test]. unfold cross_validate_fold. intros H.
  apply M_bind_inv in H as (fit_data & w1 & [Hfd ->]%lift_inv & H).
  apply M_bind_inv in H as (fit_values & w2 & [Hfv ->]%lift_inv & H).
  apply M_bind_inv in H as ([] & w3 & [Hc3 _]%model_fit_calls & H).
  apply M_bind_inv in H as (held_out & w4 & [Hheld ->]%lift_inv & H).
  apply M_bind_inv in H as (predicted & w5 & [Hc5 _]%model_predict_calls & H).
  apply M_bind_inv in H as (real & w6 & [_ ->]%lift_inv & H).
  apply lift_inv in H as [_ ->].
  exists [CallFit fit_data fit_values; CallPredict held_out]. split.
  - by exists fit_data, fit_values, held_out.
  - by rewrite Hc5 Hc3 -app_assoc.
Qed.

Lemma cross_validate_folds_calls train_data train_values folds results w w'
    results' :
  cross_validate_folds fit predict score_function train_data train_values
    folds results w = (w', Ok results') →
  ∃ css, Forall2 (fold_calls train_data train_values) folds css
         ∧ calls w' = calls w ++ concat css.
Proof.
  revert results w. induction folds as [|fold folds IH]; intros results w.
  - intros [= <- _]. exists []. by rewrite /= app_nil_r.
  - cbn [cross_validate_folds]. intros H.
    apply M_bind_inv in H as (res1 & w1 & Hfold & H).
    apply cross_validate_fold_calls in Hfold as (cs & Hcs & Hc1).
    apply IH in H as (css & Hcss & Hc2).
    exists (cs :: css). split; [by constructor|].
    by rewrite Hc2 Hc1 /= app_assoc.
Qed.

(** X1. Whenever [error_cross_validate] returns, the calls it made to the
    model are, fold after fold, one [fit] on the rows of the fold's train
    indices followed by one [predict] on the rows of its test indices, and
    nothing else: [fit] is called exactly [n_folds] times. *)
Theorem error_cross_validate_fits_once_per_fold train_data train_values
    n_folds shuffle w w' results :
  error_cross_validate fit predict score_function rng_shuffle train_data
    train_values n_folds shuffle w = (w', Ok results) →
  ∃ folds css,
    folds_of rng_shuffle n_folds shuffle (length train_data)
      (length train_values) = Ok folds
    ∧ Z.of_nat (length folds) = n_folds
    ∧ Forall2 (fold_calls train_data train_values) folds css
    ∧ calls w' = calls w ++ concat css.
Proof.
  unfold error_cross_validate. intros H.
  apply M_bind_inv in H as (kfold & w1 & [Hinit ->]%lift_inv & H).
  apply M_bind_inv in H as (folds & w2 & [Hsplit ->]%lift_inv & H).
  apply cross_validate_folds_calls in H as (css & Hcss & Hcalls).
  assert (Hfolds : folds_of rng_shuffle n_folds shuffle (length train_data)
                     (length train_values) = Ok folds).
  { unfold folds_of. by rewrite Hinit. }
  exists folds, css. split; [done|]. split; [|done].
  by eapply folds_of_length.
Qed.

(** The folds of a valid split, with their indices in range. *)
Lemma folds_of_valid train_len n_folds shuffle :
  permutes rng_shuffle → (2 ≤ n_folds ≤ Z.of_nat train_len)%Z →
  ∃ fold folds,
    folds_of rng_shuffle n_folds shuffle train_len train_len
      = Ok (fold :: folds)
    ∧ concat (map snd (fold :: folds)) ≡ₚ seq 0 train_len
    ∧ Forall (λ f, Forall (λ i, i < train_len) f.1
                   ∧ Forall (λ i, i < train_len) f.2) (fold :: folds).
Proof.
  intros Hrng Hk.
  destruct (split_partition rng_shuffle (Z.to_nat n_folds) shuffle
              train_len Hrng) as (folds & Hsplit & Hnum & Hpart & Hbound);
    [lia|].
  destruct folds as [|fold folds]; [simpl in Hnum; lia|].
  exists fold, folds. split; [|done].
  unfold folds_of, KFold.init. destruct (Z.leb_spec n_folds 1); [lia|].
  done.
Qed.

Lemma error_cross_validate_unfold train_data train_values n_folds shuffle
    folds w :
  folds_of rng_shuffle n_folds shuffle (length train_data)
    (length train_values) = Ok folds →
  error_cross_validate fit predict score_function rng_shuffle train_data
    train_values n_folds shuffle w
  = cross_validate_folds fit predict score_function train_data train_values
      folds [] w.
Proof.
  unfold folds_of, error_cross_validate. intros H.
  apply bind_Ok_inv in H as (kfold & Hinit & Hsplit).
  unfold bind at 1, lift at 1. rewrite Hinit.
  unfold bind at 1, lift at 1. by rewrite Hsplit.
Qed.

(** X2. When [fit] raises, [error_cross_validate] raises the same
    exception at once: the only call made to the model is that first [fit],
    [predict] is never called and no result is returned. *)
Theorem error_cross_validate_propagates_fit_failure train_data train_values
    n_folds shuffle w e :
  permutes rng_shuffle →
  length train_data = length train_values →
  (2 ≤ n_folds ≤ Z.of_nat (length train_data))%Z →
  (∀ data values m, (fit data values m).2 = Raise e) →
  ∃ w' fit_data fit_values,
    error_cross_validate fit predict score_function rng_shuffle train_data
      train_values n_folds shuffle w = (w', Raise e)
    ∧ calls w' = calls w ++ [CallFit fit_data fit_values].
Proof.
  intros Hrng Hlen Hk Hfit.
  destruct (folds_of_valid (length train_data) n_folds shuffle Hrng Hk)
    as ([train test] & folds & Hfolds & _ & Hbound).
  apply Forall_cons in Hbound as [[Htrain _] _]. simpl in Htrain.
  destruct (np_take_total train_data train Htrain) as (fit_data & Hfd & _).
  destruct (np_take_total train_values train) as (fit_values & Hfv & _);
    [by rewrite -Hlen|].
  rewrite (error_cross_validate_unfold _ _ _ _ (((train, test)) :: folds));
    [by rewrite -Hlen|].
  cbn [cross_validate_folds]. unfold cross_validate_fold.
  unfold bind, lift, model_fit. rewrite Hfd Hfv.
  pose proof (Hfit fit_data fit_values (model w)) as Hf.
  destruct (fit fit_data fit_values (model w)) as [m1 r1].
  simpl in Hf; subst r1. by eexists _, fit_data, fit_values.
Qed.

(** *** A model that returns the wrong number of predictions *)

Lemma score_examples_overrun test predicted real results :
  scores_single_examples score_function →
  length test = length real → length real < length predicted →
  Res.for_each (score_example score_function test predicted real)
    (seq 0 (length predicted)) results = Raise IndexError.
Proof.
  intros Hscore Htest Hlong.
  replace (length predicted)
    with (length real + S (length predicted - S (length real))) at 1
    by lia.
  rewrite seq_app for_each_app.
  destruct (score_examples_total score_function test predicted real results
              0 (length real) Hscore) as (new & -> & _); [lia..|].
  cbn [Res.bind seq Res.for_each plus]. unfold score_example at 1.
  destruct (py_index_lt predicted (length real) Hlong) as (p & -> & _).
  cbn [Res.bind]. unfold py_index at 1.
  by rewrite (lookup_ge_None_2 real (length real)).
Qed.

(** X3. When [predict] returns more values than it was given examples,
    [error_cross_validate] raises IndexError in the first fold, after one
    [fit] and one [predict]: the extra prediction has no true value to be
    scored against. *)
Theorem error_cross_validate_rejects_extra_predictions train_data
    train_values n_folds shuffle w :
  permutes rng_shuffle → fit_returns fit →
  scores_single_examples score_function →
  length train_data = length train_values →
  (2 ≤ n_folds ≤ Z.of_nat (length train_data))%Z →
  (∀ data m, ∃ predicted,
     (predict data m).2 = Ok predicted ∧ length data < length predicted) →
  ∃ w',
    error_cross_validate fit predict score_function rng_shuffle train_data
      train_values n_folds shuffle w = (w', Raise IndexError)
    ∧ length (calls w') = length (calls w) + 2.
Proof.
  intros Hrng Hfit Hscore Hlen Hk Hpredict.
  destruct (folds_of_valid (length train_data) n_folds shuffle Hrng Hk)
    as ([train test] & folds & Hfolds & _ & Hbound).
  apply Forall_cons in Hbound as [[Htrain Htest] _]. simpl in Htrain, Htest.
  destruct (np_take_total train_data train Htrain) as (fit_data & Hfd & _).
  destruct (np_take_total train_values train) as (fit_values & Hfv & _);
    [by rewrite -Hlen|].
  destruct (np_take_total train_data test Htest) as (held & Hheld & Hhl).
  destruct (np_take_total train_values test) as (real & Hreal & Hrl);
    [by rewrite -Hlen|].
  rewrite (error_cross_validate_unfold _ _ _ _ (((train, test)) :: folds));
    [by rewrite -Hlen|].
  cbn [cross_validate_folds]. unfold cross_validate_fold.
  unfold bind, lift, model_fit, model_predict. rewrite Hfd Hfv.
  pose proof (Hfit fit_data fit_values (model w)) as Hf.
  destruct (fit fit_data fit_values (model w)) as [m1 r1].
  simpl in Hf; subst r1. rewrite Hheld. cbn [model calls].
  destruct (Hpredict held m1) as (predicted & Hp & Hpl).
  destruct (predict held m1) as [m2 r2]. simpl in Hp; subst r2.
  rewrite Hreal score_examples_overrun; [done|lia|lia|].
  eexists. split; [done|]. rewrite /= !length_app /=. lia.
Qed.

Lemma cross_validate_fold_short train_data train_values results fold w :
  fit_returns fit → scores_single_examples score_function →
  (∀ data m, ∃ predicted,
     (predict data m).2 = Ok predicted ∧ length predicted ≤ length data) →
  length train_data = length train_values →
  Forall (λ i, i < length train_data) fold.1 →
  Forall (λ i, i < length train_data) fold.2 →
  ∃ w' new,
    cross_validate_fold fit predict score_function train_data
      train_values results fold w = (w', Ok (results ++ new))
    ∧ map (λ r : scored, r.1.1) new ⊆+ fold.2.
Proof.
  intros Hfit Hscore Hpredict Hlen Htrain Htest.
  destruct fold as [train test]; simpl in *.
  destruct (np_take_total train_data train Htrain) as (fit_data & Hfd & _).
  destruct (np_take_total train_values train) as (fit_values & Hfv & _);
    [by rewrite -Hlen|].
  destruct (np_take_total train_data test Htest) as (held & Hheld & Hhl).
  destruct (np_take_total train_values test) as (real & Hreal & Hrl);
    [by rewrite -Hlen|].
  unfold cross_validate_fold, bind, lift, model_fit, model_predict.
  rewrite Hfd Hfv.
  pose proof (Hfit fit_data fit_values (model w)) as Hf.
  destruct (fit fit_data fit_values (model w)) as [m1 r1].
  simpl in Hf; subst r1. rewrite Hheld. cbn [model calls].
  destruct (Hpredict held m1) as (predicted & Hp & Hpl).
  destruct (predict held m1) as [m2 r2]. simpl in Hp; subst r2.
  rewrite Hreal.
  destruct (score_examples_total score_function test predicted real results
              0 (length predicted) Hscore) as (new & Hnew & Hidx); [lia..|].
  rewrite Hnew. eexists _, new. split; [done|].
  rewrite Hidx drop_0. apply submseteq_take.
Qed.

(** The records of a list of examples carry the examples' indices and
    predicted values. *)
Lemma scored_alone_examples (train_values : list V) examples results :
  Forall2 (scored_alone score_function train_values) examples results →
  map (λ r : scored, r.1) results = examples.
Proof.
  induction 1 as [|ex r examples results [Hr _] _ IH]; [done|].
  simpl. by rewrite Hr IH.
Qed.

(** X4. When [predict] never returns more values than it was given
    examples, [error_cross_validate] raises nothing, however few the
    values are: it returns one record for each predicted value and none
    for an example that got no prediction. The indices of the records are,
    fold after fold, the first test indices of the fold, as many as values
    were predicted for it, and no index occurs twice; the records are
    fewer than the examples exactly when some fold got fewer predicted
    values than it has held-out examples. *)
Theorem error_cross_validate_drops_unpredicted_examples train_data
    train_values n_folds shuffle w :
  permutes rng_shuffle → fit_returns fit →
  scores_single_examples score_function →
  length train_data = length train_values →
  (2 ≤ n_folds ≤ Z.of_nat (length train_data))%Z →
  (∀ data m, ∃ predicted,
     (predict data m).2 = Ok predicted ∧ length predicted ≤ length data) →
  ∃ w' results folds predictions,
    error_cross_validate fit predict score_function rng_shuffle train_data
      train_values n_folds shuffle w = (w', Ok results)
    ∧ folds_of rng_shuffle n_folds shuffle (length train_data)
        (length train_values) = Ok folds
    ∧ predicted_by fit predict train_data train_values folds (model w)
        predictions
    ∧ map (λ r : scored, r.1.1) results
      = predicted_indices folds predictions
    ∧ NoDup (map (λ r : scored, r.1.1) results)
    ∧ length results = sum_list (map length predictions)
    ∧ (length results < length train_data
       ↔ Exists (λ fp : list nat * list nat * list V,
                   length fp.2 < length fp.1.2) (zip folds predictions)).
Proof.
  intros Hrng Hfit Hscore Hlen Hk Hpredict.
  destruct (folds_of_valid (length train_data) n_folds shuffle Hrng Hk)
    as (fold & folds & Hfolds & Hpart & Hbound).
  rewrite (error_cross_validate_unfold _ _ _ _ (fold :: folds));
    [by rewrite -Hlen|].
  rewrite -Hlen. revert Hfolds Hpart Hbound.
  generalize (fold :: folds) as fs. intros fs Hfolds Hpart Hb.
  assert (Hrun : ∀ results w, ∃ w' new,
            cross_validate_folds fit predict score_function train_data
              train_values fs results w = (w', Ok (results ++ new))
            ∧ map (λ r : scored, r.1.1) new ⊆+ concat (map snd fs)).
  { clear Hpart Hfolds.
    induction Hb as [|f fs [Htr Hte] _ IH]; intros results w0.
    - exists w0, []. by rewrite /= app_nil_r.
    - destruct (cross_validate_fold_short train_data train_values results
                  f w0) as (w1 & new1 & Hfold & Hidx1); [done..|].
      destruct (IH (results ++ new1) w1) as (w2 & new2 & Hrest & Hidx2).
      exists w2, (new1 ++ new2). split.
      + cbn [cross_validate_folds]. unfold bind at 1.
        rewrite Hfold Hrest. by rewrite app_assoc.
      + rewrite map_app /=. by apply submseteq_app. }
  destruct (Hrun [] w) as (w' & results & Hres & Hsub).
  destruct (cross_validate_folds_inv fit predict score_function _ _ _ _ _
              _ _ Hres) as (predictions & new & Hnew & Hby & Hles & Hrec).
  simpl in Hnew. subst new.
  pose proof (scored_alone_examples _ _ _ Hrec) as Hex.
  assert (Hcount : length results = sum_list (map length predictions)).
  { rewrite -(Forall2_length _ _ _ Hrec). by apply held_out_length. }
  rewrite Hpart in Hsub.
  exists w', results, fs, predictions. rewrite Hres.
  split; [done|]. split; [done|]. split; [done|]. split; [|split; [|split]].
  - by rewrite -held_out_indices -Hex map_map.
  - eapply submseteq_keeps_NoDup; [exact Hsub|]. apply NoDup_seq.
  - done.
  - assert (Hn : length (concat (map snd fs)) = length train_data)
      by (by rewrite Hpart length_seq).
    rewrite Hcount -Hn. by apply short_predictions.
Qed.

End model_calls.

(** ** top_n_errors: what is selected, and invalid indices *)

Lemma map_each_raises {A B} (f : A → result B) (e : exn) l x :
  x ∈ l → f x = Raise e →
  (∀ y, f y = Raise e ∨ ∃ b, f y = Ok b) →
  Res.map_each f l = Raise e.
Proof.
  intros Hx Hraise Honly.
  induction l as [|y l IH]; [by apply not_elem_of_nil in Hx|].
  simpl. destruct (Honly y) as [->|[b Hb]]; [done|].
  apply elem_of_cons in Hx as [->|Hx]; [congruence|].
  rewrite Hb /= IH //.
Qed.

Section selection.
Context {A K : Type} (key : A → K) (lt : K → K → bool).
Hypothesis lt_order : strict_weak_order lt.

Lemma may_precede_trans x y z :
  may_precede key lt x y → may_precede key lt y z → may_precede key lt x z.
Proof.
  unfold may_precede. intros Hxy Hyz.
  destruct (lt (key z) (key x)) eqn:Hzx; [|done].
  destruct lt_order as [_ Hco].
  destruct (Hco _ _ (key y) Hzx); congruence.
Qed.

Lemma stable_sort_StronglySorted l :
  StronglySorted (may_precede key lt) (stable_sort key lt l).
Proof.
  apply Sorted_StronglySorted.
  - intros x y z. apply may_precede_trans.
  - by apply stable_sort_Sorted.
Qed.

(** In the list sorted with [reverse=True], no element stands before one
    with a greater key. *)
Lemma py_sorted_reverse_split l front back a b :
  py_sorted key lt true l = front ++ back →
  a ∈ front → b ∈ back → lt (key a) (key b) = false.
Proof.
  unfold py_sorted. intros Hsplit Ha Hb.
  pose proof (stable_sort_StronglySorted (reverse l)) as Hsorted.
  apply (f_equal reverse) in Hsplit.
  rewrite reverse_involutive reverse_app in Hsplit. rewrite Hsplit in Hsorted.
  eapply (StronglySorted_app_1_elem_of _ _ _ b a) in Hsorted; [done|..];
    by apply elem_of_reverse.
Qed.
End selection.

Section ranking_more.
Context {X V C Score : Type}.
Variable score_lt : Score → Score → bool.

Implicit Types (error_res top : list (@scored V Score))
  (out : list (@error_record X V C)).

Lemma error_record_of_invalid (train_data : list X) train_values
    (companies : list C) (r : @scored V Score) :
  ¬ valid_index train_data train_values companies r →
  error_record_of train_data train_values companies r = Raise IndexError.
Proof.
  destruct r as [[i p] s]. unfold valid_index, error_record_of, py_index.
  simpl. intros Hinvalid.
  destruct (train_data !! i) as [x|] eqn:Hx; [|done].
  destruct (companies !! i) as [c|] eqn:Hc; [|done].
  destruct (train_values !! i) as [y|] eqn:Hy; [|done].
  destruct Hinvalid. repeat split; by eapply lookup_lt_Some.
Qed.

Lemma error_record_of_outcome (train_data : list X) train_values
    (companies : list C) (r : @scored V Score) :
  error_record_of train_data train_values companies r = Raise IndexError
  ∨ ∃ e, error_record_of train_data train_values companies r = Ok e.
Proof.
  destruct r as [[i p] s]. unfold error_record_of, py_index.
  destruct (train_data !! i); [|by left].
  destruct (companies !! i); [|by left].
  destruct (train_values !! i); [|by left]. right. by eexists.
Qed.

(** X5. When all the scored predictions are asked for ([n] at least their
    number) and one of them has an index outside [train_data],
    [train_values] or [companies], [top_n_errors] raises IndexError. *)
Theorem top_n_errors_raises_on_invalid_index error_res
    (train_data : list X) train_values (companies : list C) n r :
  r ∈ error_res →
  ¬ valid_index train_data train_values companies r →
  (Z.of_nat (length error_res) ≤ n)%Z →
  top_n_errors score_lt error_res train_data train_values companies n
    = Raise IndexError.
Proof.
  intros Hr Hinvalid Hn. unfold top_n_errors.
  set (srt := py_sorted _ score_lt true error_res).
  assert (Hperm : srt ≡ₚ error_res) by apply py_sorted_perm.
  assert (Hall : py_slice_to srt n = srt).
  { unfold py_slice_to. destruct (Z.leb_spec 0 n); [|lia].
    apply take_ge. rewrite (Permutation_length Hperm). lia. }
  rewrite Hall. apply map_each_raises with (x := r).
  - by rewrite Hperm.
  - by apply error_record_of_invalid.
  - apply error_record_of_outcome.
Qed.

(** X6. The records [top_n_errors] returns are the worst ones: the scored
    predictions split into the selected ones, whose records are returned,
    and the rest, and no selected prediction has a lower score than one of
    the rest. *)
Theorem top_n_errors_selects_highest_scores error_res
    (train_data : list X) train_values (companies : list C) n :
  strict_weak_order score_lt →
  Forall (valid_index train_data train_values companies) error_res →
  ∃ top rest out,
    top_n_errors score_lt error_res train_data train_values companies n
      = Ok out
    ∧ Forall2 (resolves train_data train_values companies) top out
    ∧ top ++ rest ≡ₚ error_res
    ∧ ∀ a b, a ∈ top → b ∈ rest → score_lt a.2 b.2 = false.
Proof.
  intros Hord Hvalid. unfold top_n_errors.
  set (srt := py_sorted _ score_lt true error_res).
  assert (Hperm : srt ≡ₚ error_res) by apply py_sorted_perm.
  assert (Hslice : ∃ m, py_slice_to srt n = take m srt).
  { unfold py_slice_to. destruct (0 <=? n)%Z; eauto. }
  destruct Hslice as [m Hm]. rewrite Hm.
  destruct (map_each_total
              (error_record_of train_data train_values companies)
              (resolves train_data train_values companies)
              (take m srt)) as (out & Hout & Hres).
  { apply Forall_forall. intros r Hr. apply error_record_of_total.
    apply elem_of_take in Hr as (i & Hr & _).
    apply list_elem_of_lookup_2 in Hr. rewrite Hperm in Hr.
    by eapply Forall_forall in Hvalid. }
  exists (take m srt), (drop m srt), out.
  split; [done|]. split; [done|]. split.
  - by rewrite take_drop.
  - intros a b Ha Hb.
    apply (py_sorted_reverse_split snd score_lt Hord error_res
             (take m srt) (drop m srt)); [|done..].
    by rewrite take_drop.
Qed.

End ranking_more.

(** ** Grouping loops *)

Section grouping_loops.
Context {K B : Type} `{EqDecision K}.
Implicit Types (d : list (K * list B)) (log : list (K * B)).

Lemma dict_get_set {W} (d : list (K * W)) k v k' :
  dict_get (dict_set d k v) k'
  = if decide (k' = k) then Some v else dict_get d k'.
Proof.
  induction d as [|[k0 v0] d IH]; simpl.
  - by destruct (decide (k' = k)).
  - destruct (decide (k = k0)) as [->|Hne]; simpl.
    + by destruct (decide (k' = k0)).
    + rewrite IH. destruct (decide (k' = k0)) as [->|]; [|done].
      by rewrite decide_False.
Qed.

Lemma dict_elem_get {W} (d : list (K * W)) k v :
  NoDup (map fst d) → (k, v) ∈ d → dict_get d k = Some v.
Proof.
  induction d as [|[k0 v0] d IH]; simpl.
  - by intros _ ?%not_elem_of_nil.
  - intros [Hk0 Hd]%NoDup_cons [[= -> ->]|Hin]%elem_of_cons.
    + by rewrite decide_True.
    + rewrite decide_False; [|by apply IH].
      intros ->. apply Hk0. apply list_elem_of_In, in_map_iff.
      exists (k0, v). split; [done|]. by apply list_elem_of_In.
Qed.

Lemma logged_app log1 log2 k :
  logged (log1 ++ log2) k = logged log1 k ++ logged log2 k.
Proof. unfold logged. by rewrite filter_app map_app. Qed.

Lemma logged_elem log k b : b ∈ logged log k ↔ (k, b) ∈ log.
Proof.
  unfold logged. rewrite list_elem_of_In in_map_iff. split.
  - intros ([k' b'] & <- & Hin%list_elem_of_In).
    by apply list_elem_of_filter in Hin as [<- Hin].
  - intros Hin. exists (k, b). split; [done|].
    apply list_elem_of_In, list_elem_of_filter. done.
Qed.

Lemma groups_log_nil : @groups_log K B _ [] [].
Proof. split; [constructor|done]. Qed.

Lemma groups_log_append d log k b :
  groups_log d log → groups_log (dict_append d k b) (log ++ [(k, b)]).
Proof.
  intros [Hkeys Hget]. split; [by apply dict_set_keys_NoDup|].
  intros k'. unfold dict_append, dict_get_default.
  rewrite dict_get_set logged_app. unfold logged at 2. simpl.
  rewrite filter_cons filter_nil. simpl.
  destruct (decide (k' = k)) as [->|Hne].
  - rewrite decide_True //= Hget.
    by destruct (logged log k).
  - rewrite decide_False; [done|]. by rewrite /= app_nil_r Hget.
Qed.

Lemma groups_log_get d log k bs :
  groups_log d log → (k, bs) ∈ d → bs = logged log k ∧ bs ≠ [].
Proof.
  intros [Hkeys Hget] Hin. apply dict_elem_get in Hin; [|done].
  rewrite Hget in Hin. by destruct (logged log k); simplify_eq.
Qed.

Lemma groups_log_elem d log k b :
  groups_log d log → (k, b) ∈ log → (k, logged log k) ∈ d.
Proof.
  intros [Hkeys Hget] Hin%logged_elem. apply dict_get_elem.
  rewrite Hget. destruct (logged log k); [|done].
  by apply not_elem_of_nil in Hin.
Qed.

(** A loop whose every turn appends one value under one key. *)
Lemma for_each_groups {A} (f : list (K * list B) → A → result _)
    (R : A → K * B → Prop) xs d log0 :
  Forall (λ x, ∃ kb, R x kb ∧ ∀ d, f d x = Ok (dict_append d kb.1 kb.2))
    xs →
  groups_log d log0 →
  ∃ d' log,
    Res.for_each f xs d = Ok d' ∧ Forall2 R xs log
    ∧ groups_log d' (log0 ++ log).
Proof.
  intros Hxs. revert d log0.
  induction Hxs as [|x xs ([k b] & HR & Hf) _ IH]; intros d log0 Hd.
  - exists d, []. by rewrite /= app_nil_r.
  - destruct (IH (dict_append d k b) (log0 ++ [(k, b)]))
      as (d' & log & Hrun & Hlog & Hd'); [by apply groups_log_append|].
    exists d', ((k, b) :: log). rewrite /= Hf /=. split; [done|].
    split; [by constructor|]. by rewrite -app_assoc in Hd'.
Qed.

Lemma foldl_groups {A} (kf : A → K) (vf : A → B) xs d log0 :
  groups_log d log0 →
  groups_log (foldl (λ d x, dict_append d (kf x) (vf x)) d xs)
    (log0 ++ map (λ x, (kf x, vf x)) xs).
Proof.
  revert d log0. induction xs as [|x xs IH]; intros d log0 Hd; simpl.
  - by rewrite app_nil_r.
  - rewrite (assoc_L (++) log0 [_]). apply IH.
    by apply groups_log_append.
Qed.
End grouping_loops.

(** ** comps2sent: what the buckets hold *)

Section grouping_more.
Context {C K : Type} `{EqDecision K}.
Implicit Types (text_data : list K) (companies : list C)
  (sentence_compid : list (K * list (C * nat))).

Lemma add_sentence_appends text_data companies i :
  i < length text_data → i < length companies →
  ∃ kb, sentence_entry text_data companies i kb
        ∧ ∀ sentence_compid,
            add_sentence text_data companies sentence_compid i
            = Ok (dict_append sentence_compid kb.1 kb.2).
Proof.
  intros Ht Hc.
  destruct (py_index_lt text_data i Ht) as (text & Htext & Htl).
  destruct (py_index_lt companies i Hc) as (comp & Hcomp & Hcl).
  exists (text, (comp, i)). split; [done|].
  intros d. unfold add_sentence. by rewrite Htext /= Hcomp.
Qed.

Lemma sentence_log_ids text_data companies xs log t :
  Forall2 (sentence_entry text_data companies) xs log →
  map snd (logged log t) = filter (λ j, text_data !! j = Some t) xs.
Proof.
  unfold logged. induction 1 as [|i [k [c j]] xs log (Hk & _ & Hj) _ IH];
    [done|].
  simpl in Hk, Hj. subst j. rewrite !filter_cons /=.
  destruct (decide (k = t)) as [->|Hne].
  - rewrite decide_True //=. by rewrite IH.
  - rewrite decide_False; [congruence|done].
Qed.

Lemma add_sentences_log text_data companies n :
  n ≤ length text_data → n ≤ length companies →
  ∃ sentence_compid log,
    Res.for_each (add_sentence text_data companies) (seq 0 n) []
      = Ok sentence_compid
    ∧ Forall2 (sentence_entry text_data companies) (seq 0 n) log
    ∧ groups_log sentence_compid log.
Proof.
  intros Ht Hc.
  destruct (for_each_groups (add_sentence text_data companies)
              (sentence_entry text_data companies) (seq 0 n) [] [])
    as (d & log & Hrun & Hlog & Hd); [|apply groups_log_nil|by eauto].
  apply Forall_forall. intros i Hi%elem_of_seq.
  apply add_sentence_appends; lia.
Qed.

Lemma add_groups_log (compscount_ids : list (nat * list (list nat)))
    sentence_compid log0 :
  groups_log compscount_ids log0 →
  groups_log (foldl add_group compscount_ids sentence_compid)
    (log0 ++ map group_entry sentence_compid).
Proof.
  revert compscount_ids log0.
  induction sentence_compid as [|[t v] d IH]; intros acc log0 Hacc; simpl.
  - by rewrite app_nil_r.
  - rewrite (assoc_L (++) log0 [_]). apply IH.
    by apply (groups_log_append acc log0 (length v) (map snd v)).
Qed.

(** The two maps of [comps2sent], with what each of them logs. *)
Lemma comps2sent_logs text_data companies :
  length text_data ≤ length companies →
  ∃ sentence_compid log compscount_ids,
    comps2sent text_data companies = Ok compscount_ids
    ∧ Forall2 (sentence_entry text_data companies)
        (seq 0 (length text_data)) log
    ∧ groups_log sentence_compid log
    ∧ groups_log compscount_ids (map group_entry sentence_compid).
Proof.
  intros Hlen.
  destruct (add_sentences_log text_data companies (length text_data))
    as (d & log & Hrun & Hlog & Hd); [lia..|].
  exists d, log, (foldl add_group [] d). unfold comps2sent.
  rewrite Hrun /=. split; [done|]. split; [done|]. split; [done|].
  apply (add_groups_log [] d []), groups_log_nil.
Qed.

(** An inner list of the output is the list of indices of one text. *)
Lemma comps2sent_group text_data companies sentence_compid log
    compscount_ids c groups g :
  Forall2 (sentence_entry text_data companies)
    (seq 0 (length text_data)) log →
  groups_log sentence_compid log →
  groups_log compscount_ids (map group_entry sentence_compid) →
  (c, groups) ∈ compscount_ids → g ∈ groups →
  ∃ t, g = same_text_ids text_data t (length text_data)
       ∧ length g = c ∧ g ≠ [].
Proof.
  intros Hlog Hd Hout Hin Hg.
  destruct (groups_log_get _ _ _ _ Hout Hin) as [-> _].
  apply logged_elem, list_elem_of_In, in_map_iff in Hg.
  destruct Hg as ([t v] & [= <- <-] & Hv%list_elem_of_In).
  destruct (groups_log_get _ _ _ _ Hd Hv) as [-> Hne].
  exists t. unfold same_text_ids. rewrite (sentence_log_ids _ _ _ _ _ Hlog).
  split; [done|]. split.
  - by rewrite -(sentence_log_ids _ _ _ _ _ Hlog) length_map.
  - rewrite -(sentence_log_ids _ _ _ _ _ Hlog).
    by destruct (logged log t).
Qed.

(** The indices of every text are an inner list of the output. *)
Lemma comps2sent_group_of text_data companies sentence_compid log
    compscount_ids i t :
  Forall2 (sentence_entry text_data companies)
    (seq 0 (length text_data)) log →
  groups_log sentence_compid log →
  groups_log compscount_ids (map group_entry sentence_compid) →
  text_data !! i = Some t →
  ∃ groups,
    (length (same_text_ids text_data t (length text_data)), groups)
      ∈ compscount_ids
    ∧ same_text_ids text_data t (length text_data) ∈ groups
    ∧ i ∈ same_text_ids text_data t (length text_data).
Proof.
  intros Hlog Hd Hout Hi. unfold same_text_ids.
  assert (Hin : i ∈ filter (λ j, text_data !! j = Some t)
                      (seq 0 (length text_data))).
  { apply list_elem_of_filter. split; [done|]. apply elem_of_seq.
    apply lookup_lt_Some in Hi. lia. }
  rewrite -(sentence_log_ids _ _ _ _ _ Hlog) in Hin.
  apply list_elem_of_In, in_map_iff in Hin as ([c j] & Hj & Hcj).
  simpl in Hj; subst j.
  apply list_elem_of_In, logged_elem in Hcj.
  pose proof (groups_log_elem _ _ _ _ Hd Hcj) as Hv.
  set (v := logged log t) in *.
  assert (Hentry : (length v, map snd v)
                   ∈ map group_entry sentence_compid).
  { apply list_elem_of_In, in_map_iff. exists (t, v).
    split; [done|]. by apply list_elem_of_In. }
  pose proof (groups_log_elem _ _ _ _ Hout Hentry) as Hgroups.
  rewrite -(sentence_log_ids _ _ _ _ _ Hlog). fold v.
  rewrite length_map. eexists. split; [exact Hgroups|].
  split; [by apply logged_elem|].
  apply list_elem_of_In, in_map_iff. exists (c, i). split; [done|].
  apply list_elem_of_In, logged_elem. done.
Qed.

(** X7. In the output of [comps2sent] the keys are distinct and positive,
    and every inner list stored under a key has exactly that many
    indices. *)
Theorem comps2sent_key_is_group_size text_data companies :
  length text_data ≤ length companies →
  ∃ compscount_ids,
    comps2sent text_data companies = Ok compscount_ids
    ∧ NoDup (map fst compscount_ids)
    ∧ ∀ c groups g, (c, groups) ∈ compscount_ids → g ∈ groups →
        length g = c ∧ 0 < c.
Proof.
  intros Hlen.
  destruct (comps2sent_logs text_data companies Hlen)
    as (d & log & out & Hrun & Hlog & Hd & Hout).
  exists out. split; [done|]. split; [by destruct Hout|].
  intros c groups g Hin Hg.
  destruct (comps2sent_group _ _ _ _ _ _ _ _ Hlog Hd Hout Hin Hg)
    as (t & _ & Hc & Hne).
  split; [done|]. subst c. destruct g; [done|simpl; lia].
Qed.

(** X8. [comps2sent] groups by exact equality of the text: every inner list
    of its output is the list, in increasing order, of all the indices
    that hold one text, and the indices of every text of the input form one
    of the inner lists. *)
Theorem comps2sent_groups_equal_texts text_data companies :
  length text_data ≤ length companies →
  ∃ compscount_ids,
    comps2sent text_data companies = Ok compscount_ids
    ∧ (∀ c groups g, (c, groups) ∈ compscount_ids → g ∈ groups →
         ∃ t, t ∈ text_data
              ∧ g = same_text_ids text_data t (length text_data))
    ∧ (∀ i t, text_data !! i = Some t →
         ∃ c groups, (c, groups) ∈ compscount_ids
           ∧ same_text_ids text_data t (length text_data) ∈ groups).
Proof.
  intros Hlen.
  destruct (comps2sent_logs text_data companies Hlen)
    as (d & log & out & Hrun & Hlog & Hd & Hout).
  exists out. split; [done|]. split.
  - intros c groups g Hin Hg.
    destruct (comps2sent_group _ _ _ _ _ _ _ _ Hlog Hd Hout Hin Hg)
      as (t & -> & _ & Hne).
    exists t. split; [|done].
    destruct (same_text_ids text_data t (length text_data)) as [|j l] eqn:E;
      [done|].
    assert (Hj : j ∈ same_text_ids text_data t (length text_data))
      by (rewrite E; by left).
    apply list_elem_of_filter in Hj as [Hj _].
    by eapply list_elem_of_lookup_2.
  - intros i t Hi.
    destruct (comps2sent_group_of _ _ _ _ _ _ _ Hlog Hd Hout Hi)
      as (groups & Hin & Hg & _).
    eauto.
Qed.

Lemma add_sentences_overrun text_data companies :
  length companies < length text_data →
  Res.for_each (add_sentence text_data companies)
    (seq 0 (length text_data)) [] = Raise IndexError.
Proof.
  intros Hshort.
  replace (length text_data)
    with (length companies
          + S (length text_data - S (length companies))) at 1 by lia.
  rewrite seq_app for_each_app.
  destruct (add_sentences_log text_data companies (length companies))
    as (d & log & -> & _); [lia..|].
  cbn [Res.bind seq Res.for_each plus]. unfold add_sentence at 1.
  destruct (py_index_lt text_data (length companies) Hshort)
    as (text & -> & _).
  cbn [Res.bind]. unfold py_index at 1.
  by rewrite (lookup_ge_None_2 companies (length companies)).
Qed.

(** X9. When there are fewer company labels than texts, [comps2sent]
    raises IndexError. *)
Theorem comps2sent_raises_on_missing_company text_data companies :
  length companies < length text_data →
  comps2sent text_data companies = Raise IndexError.
Proof.
  intros Hshort. unfold comps2sent.
  by rewrite add_sentences_overrun.
Qed.

(** The count looked up for an index is the size of its text's group. *)
Lemma comps2sent_lookup text_data companies sentence_compid log
    compscount_ids i t :
  Forall2 (sentence_entry text_data companies)
    (seq 0 (length text_data)) log →
  groups_log sentence_compid log →
  groups_log compscount_ids (map group_entry sentence_compid) →
  text_data !! i = Some t →
  invert_counts compscount_ids !! i
  = Some (length (same_text_ids text_data t (length text_data))).
Proof.
  intros Hlog Hd Hout Hi.
  destruct (comps2sent_group_of _ _ _ _ _ _ _ Hlog Hd Hout Hi)
    as (groups & Hin & Hg & Hig).
  destruct (invert_counts_is_Some compscount_ids i
              (length (same_text_ids text_data t (length text_data))))
    as [c Hc]; [by eexists _, _|].
  rewrite Hc. f_equal.
  apply invert_counts_Some in Hc as (groups' & g & Hin' & Hg' & Hig').
  destruct (comps2sent_group _ _ _ _ _ _ _ _ Hlog Hd Hout Hin' Hg')
    as (t' & -> & <- & _).
  apply list_elem_of_filter in Hig' as [Hit' _].
  by simplify_eq.
Qed.

(** Only indices of the texts are listed in the output. *)
Lemma comps2sent_listed_lt text_data companies sentence_compid log
    compscount_ids c i :
  Forall2 (sentence_entry text_data companies)
    (seq 0 (length text_data)) log →
  groups_log sentence_compid log →
  groups_log compscount_ids (map group_entry sentence_compid) →
  listed_under compscount_ids c i → i < length text_data.
Proof.
  intros Hlog Hd Hout (groups & g & Hin & Hg & Hi).
  destruct (comps2sent_group _ _ _ _ _ _ _ _ Hlog Hd Hout Hin Hg)
    as (t & -> & _).
  apply list_elem_of_filter in Hi as [_ Hi%elem_of_seq]. lia.
Qed.

End grouping_more.

(** ** sent_type_errors after comps2sent *)

Section strata_more.
Context {X V C : Type}.
Implicit Types (compscount_ids : list (nat * list (list nat)))
  (top_errors : list (@error_record X V C)).

(** X11. The count that [sent_type_errors] looks up for an index of the
    data set that [comps2sent] was run on is the number of records that
    hold the same text as that index. *)
Theorem invert_counts_is_number_of_equal_texts {K} `{EqDecision K}
    (text_data : list K) (companies : list C) :
  length text_data ≤ length companies →
  ∃ compscount_ids,
    comps2sent text_data companies = Ok compscount_ids
    ∧ ∀ i t, text_data !! i = Some t →
        invert_counts compscount_ids !! i
        = Some (length (same_text_ids text_data t (length text_data))).
Proof.
  intros Hlen.
  destruct (comps2sent_logs text_data companies Hlen)
    as (d & log & out & Hrun & Hlog & Hd & Hout).
  exists out. split; [done|]. intros i t Hi.
  by eapply comps2sent_lookup.
Qed.

Lemma error_log_filter (ids_compscount : gmap nat nat) top_errors log c :
  Forall2 (error_entry ids_compscount) top_errors log →
  logged log c
  = filter (λ e, ids_compscount !! index e = Some c) top_errors.
Proof.
  unfold logged. induction 1 as [|e [k e'] es log [Hk He] _ IH]; [done|].
  simpl in Hk, He. subst e'. rewrite !filter_cons /=.
  destruct (decide (k = c)) as [->|Hne].
  - rewrite decide_True //=. by rewrite IH.
  - rewrite decide_False; [congruence|done].
Qed.

(** X12. Each stratum returned by [sent_type_errors] holds the error
    records whose index has that count, in the order they have in
    [top_errors]; a count that no record has is not a key. *)
Theorem sent_type_errors_keeps_ranking_order top_errors compscount_ids :
  Forall (λ e, ∃ c, listed_under compscount_ids c (index e)) top_errors →
  ∃ comps_errors,
    sent_type_errors top_errors compscount_ids = Ok comps_errors
    ∧ ∀ c, dict_get comps_errors c
           = match filter (λ e, invert_counts compscount_ids !! index e
                                = Some c) top_errors with
             | [] => None
             | errors => Some errors
             end.
Proof.
  intros Hall. unfold sent_type_errors.
  destruct (for_each_groups (add_error (invert_counts compscount_ids))
              (error_entry (invert_counts compscount_ids)) top_errors [] [])
    as (d & log & Hrun & Hlog & [_ Hd]); [|apply groups_log_nil|].
  - eapply Forall_impl; [exact Hall|]. intros e [c Hc].
    destruct (invert_counts_is_Some _ _ _ Hc) as [c' Hc'].
    exists (c', e). split; [done|]. intros d. unfold add_error.
    by rewrite Hc'.
  - exists d. split; [done|]. intros c.
    by rewrite Hd /= (error_log_filter _ _ _ _ Hlog).
Qed.

End strata_more.

(** ** comps2sent: the company labels are not looked at *)

Section labels.
Context {K : Type} `{EqDecision K}.

Lemma dict_set_map {V W} (f : V → W) (d : list (K * V)) k v :
  map (λ '(k, v), (k, f v)) (dict_set d k v)
  = dict_set (map (λ '(k, v), (k, f v)) d) k (f v).
Proof.
  induction d as [|[k0 v0] d IH]; simpl; [done|].
  destruct (decide (k = k0)); simpl; [done|]. by rewrite IH.
Qed.

Lemma dict_append_map {B B'} (g : B → B') (d : list (K * list B)) k b :
  map (λ '(k, v), (k, map g v)) (dict_append d k b)
  = dict_append (map (λ '(k, v), (k, map g v)) d) k (g b).
Proof.
  unfold dict_append, dict_get_default.
  rewrite dict_set_map dict_get_map map_app /=.
  by destruct (dict_get d k).
Qed.

Lemma add_sentences_same_ids {C C'} (text_data : list K)
    (companies : list C) (companies' : list C') xs d d' d1 d1' :
  Res.for_each (add_sentence text_data companies) xs d = Ok d1 →
  Res.for_each (add_sentence text_data companies') xs d' = Ok d1' →
  map (λ '(k, v), (k, map snd v)) d = map (λ '(k, v), (k, map snd v)) d' →
  map (λ '(k, v), (k, map snd v)) d1 = map (λ '(k, v), (k, map snd v)) d1'.
Proof.
  revert d d'. induction xs as [|i xs IH]; intros d d'; simpl.
  - by intros [= <-] [= <-].
  - intros H H' Hsame.
    apply bind_Ok_inv in H as (d2 & Hstep & H).
    apply bind_Ok_inv in H' as (d2' & Hstep' & H').
    apply (IH d2 d2' H H'). unfold add_sentence in Hstep, Hstep'.
    apply bind_Ok_inv in Hstep as (text & Ht & Hstep).
    apply bind_Ok_inv in Hstep as (comp & _ & [= <-]).
    apply bind_Ok_inv in Hstep' as (text' & Ht' & Hstep').
    apply bind_Ok_inv in Hstep' as (comp' & _ & [= <-]).
    assert (text' = text) as -> by congruence.
    pose proof (dict_append_map (snd : C * nat → nat) d text (comp, i))
      as Hd.
    pose proof (dict_append_map (snd : C' * nat → nat) d' text (comp', i))
      as Hd'.
    unfold dict_append in Hd, Hd'. rewrite Hd Hd'. simpl. by rewrite Hsame.
Qed.

Lemma add_groups_same_ids {C C'} (d : list (K * list (C * nat)))
    (d' : list (K * list (C' * nat))) compscount_ids :
  map (λ '(k, v), (k, map snd v)) d = map (λ '(k, v), (k, map snd v)) d' →
  foldl add_group compscount_ids d = foldl add_group compscount_ids d'.
Proof.
  revert d' compscount_ids.
  induction d as [|[t v] d IH]; intros [|[t' v'] d'] acc; simpl;
    try done.
  intros [= -> Hv Hd]. rewrite (IH d' _ Hd). f_equal.
  unfold add_group. rewrite -(length_map snd v) -(length_map snd v').
  by rewrite Hv.
Qed.

(** X10. [comps2sent] does not look at the company labels: with enough
    labels for the texts, any two lists of labels give the same output. The
    "number of companies" of a sentence is the number of records that hold
    its text. *)
Theorem comps2sent_ignores_company_labels {C C'} (text_data : list K)
    (companies : list C) (companies' : list C') :
  length text_data ≤ length companies →
  length text_data ≤ length companies' →
  comps2sent text_data companies = comps2sent text_data companies'.
Proof.
  intros Hlen Hlen'.
  destruct (add_sentences_log text_data companies (length text_data))
    as (d & log & Hrun & _); [lia..|].
  destruct (add_sentences_log text_data companies' (length text_data))
    as (d' & log' & Hrun' & _); [lia..|].
  unfold comps2sent. rewrite Hrun Hrun' /=. f_equal.
  apply add_groups_same_ids.
  by apply (add_sentences_same_ids text_data companies companies'
              (seq 0 (length text_data)) [] [] d d').
Qed.

End labels.

(** ** comps2sent on values that may not be hashable *)

Lemma for_each_ext {A S} (f g : S → A → result S) l s :
  Forall (λ x, ∀ s, f s x = g s x) l →
  Res.for_each f l s = Res.for_each g l s.
Proof.
  intros Hl. revert s.
  induction Hl as [|x l Hx _ IH]; intros s; simpl; [done|].
  rewrite Hx. destruct (g s x); simpl; [apply IH|done].
Qed.

(** A loop raises [e] at the first element that raises it, when the turns
    before it return or raise [e] themselves. *)
Lemma for_each_raises_first {A S} (f : S → A → result S) (e : exn)
    l1 x l2 s :
  Forall (λ y, ∀ s, f s y = Raise e ∨ ∃ s', f s y = Ok s') l1 →
  (∀ s, f s x = Raise e) →
  Res.for_each f (l1 ++ x :: l2) s = Raise e.
Proof.
  intros Hl1 Hx. revert s.
  induction Hl1 as [|y l1 Hy _ IH]; intros s; simpl.
  - by rewrite Hx.
  - destruct (Hy s) as [->|[s' ->]]; [done|]. apply IH.
Qed.

Section hashing_facts.
Context {C K : Type} `{EqDecision K} `{Hashable K}.
Implicit Types (text_data : list K) (companies : list C)
  (sentence_compid : list (K * list (C * nat))).

Lemma add_sentence_hashed_hashable text_data companies sentence_compid i t :
  text_data !! i = Some t → hashable t = true →
  add_sentence_hashed text_data companies sentence_compid i
  = add_sentence text_data companies sentence_compid i.
Proof.
  intros Ht%py_index_Ok Hh. unfold add_sentence_hashed, add_sentence.
  rewrite Ht /=. destruct (py_index companies i); simpl; [|done].
  by rewrite Hh.
Qed.

(** On values that can all be hashed the function is the one of the
    docstring. *)
Lemma comps2sent_hashed_hashable text_data companies :
  Forall (λ t, hashable t = true) text_data →
  comps2sent_hashed text_data companies = comps2sent text_data companies.
Proof.
  intros Hall. unfold comps2sent_hashed, comps2sent.
  rewrite (for_each_ext _ (add_sentence text_data companies)); [|done].
  apply Forall_forall. intros i Hi%elem_of_seq s.
  destruct (lookup_lt_is_Some_2 text_data i) as [t Ht]; [lia|].
  eapply add_sentence_hashed_hashable; [done|].
  eapply Forall_forall in Hall; [done|]. by eapply list_elem_of_lookup_2.
Qed.

(** A value that cannot be hashed, at an index that has a company label,
    makes the loop raise TypeError. *)
Lemma comps2sent_hashed_unhashable text_data companies j t :
  text_data !! j = Some t → hashable t = false → j < length companies →
  comps2sent_hashed text_data companies = Raise TypeError.
Proof.
  intros Ht Hh Hj. unfold comps2sent_hashed.
  pose proof (lookup_lt_Some _ _ _ Ht) as Hjl.
  replace (seq 0 (length text_data))
    with (seq 0 j ++ j :: seq (S j) (length text_data - S j)); last first.
  { replace (length text_data) with (j + S (length text_data - S j)) at 2
      by lia.
    rewrite seq_app. done. }
  rewrite (for_each_raises_first _ TypeError); [| |done].
  - apply Forall_forall. intros i Hi%elem_of_seq s.
    unfold add_sentence_hashed.
    destruct (py_index_lt text_data i) as (t' & -> & _); [lia|].
    destruct (py_index_lt companies i) as (c & -> & _); [lia|]. simpl.
    destruct (hashable t'); [right; by eexists | by left].
  - intros s. unfold add_sentence_hashed.
    apply py_index_Ok in Ht. rewrite Ht /=.
    destruct (py_index_lt companies j Hj) as (c & -> & _). simpl.
    by rewrite Hh.
Qed.



End hashing_facts.

(** ** error_analysis: the stages together *)

Section analysis_more.
Context {X V C Score Mdl T : Type} `{EqDecision T} `{EqDecision X}
  `{Hashable X}.
Variable fit : list X → list V → Mdl → Mdl * result unit.
Variable predict : list X → Mdl → Mdl * result (list V).
Variable score_function : list V → list V → result Score.
Variable rng_shuffle : list nat → list nat.
Variable score_lt : Score → Score → bool.

Implicit Types (w : @world X V Mdl) (train_data : list X)
  (train_values : list V) (train_comps : list C).

Lemma error_cross_validate_total train_data train_values n_folds shuffle w :
  permutes rng_shuffle → fit_returns fit →
  predict_returns_one_per_example predict →
  scores_single_examples score_function →
  length train_data = length train_values →
  (2 ≤ n_folds ≤ Z.of_nat (length train_data))%Z →
  ∃ w' results,
    error_cross_validate fit predict score_function rng_shuffle train_data
      train_values n_folds shuffle w = (w', Ok results)
    ∧ map (λ r : scored, r.1.1) results ≡ₚ seq 0 (length train_data).
Proof.
  intros Hrng Hfit Hpredict Hscore Hlen Hk.
  destruct (folds_of_valid rng_shuffle (length train_data) n_folds shuffle
              Hrng Hk) as (fold & folds & Hfolds & Hpart & Hbound).
  destruct (cross_validate_folds_total fit predict score_function
              train_data train_values (fold :: folds) [] w)
    as (w' & results & Hrun & Hidx); [done..|].
  exists w', results. split; [|by rewrite Hidx].
  rewrite (error_cross_validate_unfold _ _ _ _ _ _ _ _ (fold :: folds));
    [by rewrite -Hlen|done].
Qed.

Lemma top_n_errors_total (error_res : list (@scored V Score)) train_data
    train_values train_comps n :
  Forall (valid_index train_data train_values train_comps) error_res →
  ∃ out,
    top_n_errors score_lt error_res train_data train_values train_comps n
      = Ok out
    ∧ Forall2 (resolves train_data train_values train_comps)
        (py_slice_to (py_sorted snd score_lt true error_res) n) out.
Proof.
  intros Hvalid. unfold top_n_errors.
  apply map_each_total, Forall_forall. intros r Hr.
  apply error_record_of_total.
  assert (Hin : r ∈ py_sorted snd score_lt true error_res).
  { unfold py_slice_to in Hr.
    destruct (0 <=? n)%Z; apply elem_of_take in Hr as (i & Hr & _);
      by eapply list_elem_of_lookup_2. }
  rewrite py_sorted_perm in Hin. by eapply Forall_forall in Hvalid.
Qed.

Lemma elem_of_concat_list {A} (ls : list (list A)) x :
  x ∈ concat ls ↔ ∃ l, l ∈ ls ∧ x ∈ l.
Proof.
  induction ls as [|l ls IH]; simpl.
  - split; [by intros ?%not_elem_of_nil|].
    by intros (l & ?%not_elem_of_nil & _).
  - rewrite elem_of_app IH. split.
    + intros [Hx|(l' & Hin & Hx)].
      * exists l. split; [by left|done].
      * exists l'. split; [by right|done].
    + intros (l' & [->|Hin]%elem_of_cons & Hx); [by left|].
      right. eauto.
Qed.

Lemma scored_indices_valid (results : list (@scored V Score)) train_data
    train_values train_comps :
  map (λ r : scored, r.1.1) results ≡ₚ seq 0 (length train_data) →
  length train_data = length train_values →
  length train_data ≤ length train_comps →
  Forall (valid_index train_data train_values train_comps) results.
Proof.
  intros Hidx Hlen Hcomps. apply Forall_forall. intros r Hr.
  assert (Hi : r.1.1 ∈ seq 0 (length train_data)).
  { rewrite -Hidx. apply list_elem_of_In, in_map_iff. exists r.
    split; [done|]. by apply list_elem_of_In. }
  apply elem_of_seq in Hi. unfold valid_index. lia.
Qed.

Lemma distribution_total
    (error_details : list (nat * list (@error_record X V C))) :
  sum_list (map snd (map (λ '(k, v), (k, length v)) error_details))
  = length (concat (map snd error_details)).
Proof.
  induction error_details as [|[k v] d IH]; simpl; [done|].
  by rewrite length_app IH.
Qed.

Lemma map_each_inv {A B} (f : A → result B) l out :
  Res.map_each f l = Ok out → Forall2 (λ x y, f x = Ok y) l out.
Proof.
  revert out. induction l as [|x l IH]; intros out; simpl.
  - intros [= <-]. constructor.
  - intros Hl. apply bind_Ok_inv in Hl as (y & Hy & Hl).
    apply bind_Ok_inv in Hl as (ys & Hys & [= <-]).
    constructor; [done|]. by apply IH.
Qed.

Lemma error_record_of_inv train_data train_values train_comps
    (r : @scored V Score) e :
  error_record_of train_data train_values train_comps r = Ok e →
  resolves train_data train_values train_comps r e.
Proof.
  destruct r as [[i p] s]. unfold error_record_of. intros He.
  apply bind_Ok_inv in He as (x & Hx%py_index_Ok & He).
  apply bind_Ok_inv in He as (c & Hc%py_index_Ok & He).
  apply bind_Ok_inv in He as (y & Hy%py_index_Ok & [= <-]).
  by repeat split.
Qed.

Lemma add_errors_inv (ids_compscount : gmap nat nat)
    (top_errors : list (@error_record X V C)) comps_errors d :
  Res.for_each (add_error ids_compscount) top_errors comps_errors = Ok d →
  Forall (λ e, is_Some (ids_compscount !! index e)) top_errors.
Proof.
  revert comps_errors.
  induction top_errors as [|e top_errors IH]; intros comps_errors; simpl;
    [by constructor|].
  intros Hl. apply bind_Ok_inv in Hl as (d1 & Hstep & Hl).
  constructor; [|by eapply IH].
  unfold add_error in Hstep. by destruct (ids_compscount !! index e).
Qed.

(** The strata of records built from [train_data], looked up in the groups
    of [train_data]: the key of a record is the number of examples equal
    to its own. *)
Lemma strata_of_data_groups train_data train_values train_comps
    (error_results : list (@scored V Score)) n top_errors compcount_id
    error_details :
  comps2sent train_data train_comps = Ok compcount_id →
  length train_data ≤ length train_comps →
  top_n_errors score_lt error_results train_data train_values train_comps n
    = Ok top_errors →
  sent_type_errors top_errors compcount_id = Ok error_details →
  ∀ c errors e, (c, errors) ∈ error_details → e ∈ errors →
    train_data !! index e = Some (Sentence e)
    ∧ c = length (same_text_ids train_data (Sentence e)
                    (length train_data)).
Proof.
  intros Hgroups Hcomps Htop Hdetails c errors e Hin He.
  destruct (comps2sent_logs train_data train_comps Hcomps)
    as (d & log & groups & Hgroups' & Hlog & Hd & Hout).
  rewrite Hgroups in Hgroups'. injection Hgroups' as <-.
  unfold sent_type_errors in Hdetails.
  destruct (add_errors_total (invert_counts compcount_id) [] top_errors)
    as (details & Hdetails' & Hplaced & _ & Hperm).
  { by eapply add_errors_inv. }
  { intros c' es e' Hnil. by apply not_elem_of_nil in Hnil. }
  { constructor. }
  rewrite Hdetails in Hdetails'. injection Hdetails' as <-.
  simpl in Hperm.
  assert (Hsent : train_data !! index e = Some (Sentence e)).
  { assert (He' : e ∈ top_errors).
    { rewrite -Hperm. apply elem_of_concat_list. exists errors.
      split; [|done]. apply list_elem_of_In, in_map_iff. exists (c, errors).
      split; [done|]. by apply list_elem_of_In. }
    apply list_elem_of_lookup_1 in He' as [j Hj].
    unfold top_n_errors in Htop. apply map_each_inv in Htop.
    destruct (Forall2_lookup_r _ _ _ _ _ Htop Hj)
      as (r & _ & (Hidx & _ & Hs & _)%error_record_of_inv).
    by rewrite Hidx. }
  split; [done|].
  pose proof (Hplaced c errors e Hin He) as Hc.
  rewrite (comps2sent_lookup _ _ _ _ _ _ _ Hlog Hd Hout Hsent) in Hc.
  by injection Hc.
Qed.


(** X13. With the default grouping (a falsy [train_text]), training
    examples that can all be hashed, a valid number of folds and a model
    and score function that honour their contracts, [error_analysis]
    returns: no stage raises. The counts of the distribution add up to
    min(num_errors, M), the number of errors asked for or the size of the
    data set, and every error record lies in the stratum whose key is the
    number of records that share its sentence. *)
Theorem error_analysis_returns_strata train_data train_values train_comps
    (train_text : text_arg T) num_errors n_folds shuffle w :
  permutes rng_shuffle → fit_returns fit →
  predict_returns_one_per_example predict →
  scores_single_examples score_function →
  Forall (λ x, hashable x = true) train_data →
  length train_data = length train_values →
  length train_data ≤ length train_comps →
  (2 ≤ n_folds ≤ Z.of_nat (length train_data))%Z →
  truthy train_text = false → (0 ≤ num_errors)%Z →
  ∃ w' error_details error_distribution,
    error_analysis fit predict score_function rng_shuffle score_lt
      train_data train_values train_comps train_text num_errors n_folds
      shuffle w = (w', Ok (error_details, error_distribution))
    ∧ Z.of_nat (sum_list (map snd error_distribution))
      = Z.min num_errors (Z.of_nat (length train_data))
    ∧ ∀ c errors e, (c, errors) ∈ error_details → e ∈ errors →
        train_data !! index e = Some (Sentence e)
        ∧ c = length (same_text_ids train_data (Sentence e)
                        (length train_data)).
Proof.
  intros Hrng Hfit Hpredict Hscore Hhash Hlen Hcomps Hk Hfalsy Hn.
  destruct (comps2sent_logs train_data train_comps Hcomps)
    as (d & log & groups & Hgroups & Hlog & Hd & Hout).
  destruct (error_cross_validate_total train_data train_values n_folds
              shuffle w) as (w' & results & Hrun & Hidx); [done..|].
  pose proof (scored_indices_valid results train_data train_values
                train_comps Hidx Hlen Hcomps) as Hvalid.
  destruct (top_n_errors_total results train_data train_values train_comps
              num_errors Hvalid) as (top_errors & Htop & Hres).
  destruct (add_errors_total (invert_counts groups) [] top_errors)
    as (details & Hdetails & Hplaced & _ & Hperm).
  { apply Forall_forall. intros e [j Hj]%list_elem_of_lookup_1.
    destruct (Forall2_lookup_r _ _ _ _ _ Hres Hj)
      as (r & _ & Hidx' & _ & Hs & _).
    rewrite -Hidx' in Hs.
    by rewrite (comps2sent_lookup _ _ _ _ _ _ _ Hlog Hd Hout Hs). }
  { intros c es e Hin. by apply not_elem_of_nil in Hin. }
  { constructor. }
  simpl in Hperm.
  exists w', details, (map (λ '(k, v), (k, length v)) details).
  split; [|split].
  - unfold error_analysis, grouping. rewrite Hfalsy.
    rewrite (comps2sent_hashed_hashable _ _ Hhash).
    unfold bind at 1, lift at 1. rewrite Hgroups.
    unfold bind at 1. rewrite Hrun.
    unfold bind at 1, lift at 1. rewrite Htop.
    unfold bind at 1, lift at 1. unfold sent_type_errors. by rewrite Hdetails.
  - rewrite distribution_total Hperm.
    rewrite -(Forall2_length _ _ _ Hres) length_py_slice_to.
    destruct (Z.leb_spec 0 num_errors); [|lia].
    rewrite (Permutation_length (py_sorted_perm _ _ _ _)).
    by rewrite -(length_map (λ r : scored, r.1.1)) Hidx length_seq.
  - by eapply strata_of_data_groups.
Qed.

(** X14. With the default grouping, training examples that can all be
    hashed and fewer company labels than examples, [error_analysis] raises
    IndexError while grouping, before cross-validation starts: the model
    object is left as it was and no call to it is made. *)
Theorem error_analysis_groups_before_fitting train_data train_values
    train_comps (train_text : text_arg T) num_errors n_folds shuffle w :
  truthy train_text = false →
  Forall (λ x, hashable x = true) train_data →
  length train_comps < length train_data →
  error_analysis fit predict score_function rng_shuffle score_lt train_data
    train_values train_comps train_text num_errors n_folds shuffle w
  = (w, Raise IndexError).
Proof.
  intros Hfalsy Hhash Hshort. unfold error_analysis, grouping.
  rewrite Hfalsy (comps2sent_hashed_hashable _ _ Hhash).
  unfold comps2sent. by rewrite add_sentences_overrun.
Qed.

(** X28. With the default grouping and a training example that cannot be
    hashed (a feature vector held in a list or an array) at an index that
    has a company label, [error_analysis] raises TypeError while grouping,
    before cross-validation starts: the example cannot be the key of the
    sentence map, the model object is left as it was and no call to it is
    made. *)
Theorem error_analysis_rejects_unhashable_data train_data train_values
    train_comps (train_text : text_arg T) num_errors n_folds shuffle w j x :
  truthy train_text = false →
  train_data !! j = Some x → hashable x = false →
  j < length train_comps →
  error_analysis fit predict score_function rng_shuffle score_lt train_data
    train_values train_comps train_text num_errors n_folds shuffle w
  = (w, Raise TypeError).
Proof.
  intros Hfalsy Hx Hh Hj. unfold error_analysis, grouping.
  rewrite Hfalsy.
  by rewrite (comps2sent_hashed_unhashable _ _ _ _ Hx Hh Hj).
Qed.

(** X15. When the grouping texts passed as [train_text] are fewer than the
    examples and all the examples are asked for, [error_analysis] raises
    KeyError after the cross-validation has run: the last example has no
    group to be looked up in. *)
Theorem error_analysis_raises_on_short_train_text train_data train_values
    train_comps (texts : list T) num_errors n_folds shuffle w :
  permutes rng_shuffle → fit_returns fit →
  predict_returns_one_per_example predict →
  scores_single_examples score_function →
  length train_data = length train_values →
  length train_data ≤ length train_comps →
  (2 ≤ n_folds ≤ Z.of_nat (length train_data))%Z →
  0 < length texts < length train_data →
  (Z.of_nat (length train_data) ≤ num_errors)%Z →
  ∃ w' error_results,
    error_cross_validate fit predict score_function rng_shuffle train_data
      train_values n_folds shuffle w = (w', Ok error_results)
    ∧ error_analysis fit predict score_function rng_shuffle score_lt
        train_data train_values train_comps (ArgList texts) num_errors
        n_folds shuffle w = (w', Raise KeyError).
Proof.
  intros Hrng Hfit Hpredict Hscore Hlen Hcomps Hk [Hne Hshort] Hn.
  destruct (comps2sent_logs texts train_comps)
    as (d & log & groups & Hgroups & Hlog & Hd & Hout); [lia|].
  destruct (error_cross_validate_total train_data train_values n_folds
              shuffle w) as (w' & results & Hrun & Hidx); [done..|].
  pose proof (scored_indices_valid results train_data train_values
                train_comps Hidx Hlen Hcomps) as Hvalid.
  destruct (top_n_errors_total results train_data train_values train_comps
              num_errors Hvalid) as (top_errors & Htop & Hres).
  set (srt := py_sorted snd score_lt true results) in *.
  assert (Hperm : srt ≡ₚ results) by apply py_sorted_perm.
  assert (Hlenr : length results = length train_data).
  { by rewrite -(length_map (λ r : scored, r.1.1)) Hidx length_seq. }
  assert (Hlens : length srt = length train_data).
  { rewrite (Permutation_length Hperm). exact Hlenr. }
  assert (Hall : py_slice_to srt num_errors = srt).
  { unfold py_slice_to. destruct (Z.leb_spec 0 num_errors); [|lia].
    apply take_ge. rewrite Hlens. lia. }
  rewrite Hall in Hres.
  assert (Hlast : ∃ e, e ∈ top_errors ∧ index e = length train_data - 1).
  { assert (Hi : length train_data - 1 ∈ map (λ r : scored, r.1.1) results).
    { rewrite Hidx. apply elem_of_seq. lia. }
    apply list_elem_of_In, in_map_iff in Hi as (r & Hr & Hin).
    apply list_elem_of_In in Hin. rewrite -Hperm in Hin.
    apply list_elem_of_lookup_1 in Hin as [j Hj].
    destruct (Forall2_lookup_l _ _ _ _ _ Hres Hj) as (e & He & Hie & _).
    exists e. split; [by eapply list_elem_of_lookup_2|]. by rewrite Hie. }
  destruct Hlast as (e & He & Hie).
  exists w', results. split; [done|].
  unfold error_analysis, grouping.
  replace (truthy (ArgList texts)) with true; last first.
  { simpl. rewrite bool_decide_eq_false_2; [lia|done]. }
  cbn [comps2sent_arg]. unfold bind at 1, lift at 1. rewrite Hgroups.
  unfold bind at 1. rewrite Hrun.
  unfold bind at 1, lift at 1. rewrite Htop.
  unfold bind at 1, lift at 1. unfold sent_type_errors.
  rewrite (for_each_raises _ KeyError top_errors [] e); [done| | |done].
  - intros s. unfold add_error. rewrite invert_counts_None; [|done].
    intros c Hlisted.
    pose proof (comps2sent_listed_lt _ _ _ _ _ _ _ Hlog Hd Hout Hlisted).
    lia.
  - intros s e'. unfold add_error.
    destruct (invert_counts groups !! index e'); simpl; eauto.
Qed.

End analysis_more.

(** ** ngrams *)

Section ngram_facts.
Implicit Types (tokens token_copy gram_tokens : list string) (n : Z).

Lemma first_tokens_loop token_copy n_list a m :
  a + m ≤ length token_copy →
  Res.for_each
    (λ n_list i, try token <- py_index token_copy i; Ok (n_list ++ [token]))
    (seq a m) n_list
  = Ok (n_list ++ take m (drop a token_copy)).
Proof.
  revert a n_list. induction m as [|m IH]; intros a n_list Hlen.
  - by rewrite /= app_nil_r.
  - destruct (py_index_lt token_copy a) as (t & Ht & Hlt); [lia|].
    cbn [seq Res.for_each]. rewrite Ht /= IH; [lia|].
    by rewrite (drop_S _ _ _ Hlt) /= -app_assoc.
Qed.

Lemma first_tokens_take token_copy n :
  Z.to_nat n ≤ length token_copy →
  first_tokens token_copy n = Ok (take (Z.to_nat n) token_copy).
Proof.
  intros Hlen. unfold first_tokens.
  by rewrite first_tokens_loop // drop_0.
Qed.

Lemma windows_cons t tokens m :
  0 < m → m ≤ S (length tokens) →
  windows (t :: tokens) m
  = py_join " " (take m (t :: tokens)) :: windows tokens m.
Proof.
  intros Hm Hlen. unfold windows.
  replace (length (t :: tokens) + 1 - m)
    with (S (length tokens + 1 - m)) by (simpl; lia).
  cbn [seq map]. rewrite drop_0. f_equal.
  rewrite -seq_shift map_map. done.
Qed.

Lemma windows_short tokens m : length tokens < m → windows tokens m = [].
Proof.
  intros Hlen. unfold windows.
  by replace (length tokens + 1 - m) with 0 by lia.
Qed.

Lemma n_grams_loop_windows n token_copy gram_tokens :
  (1 ≤ n)%Z →
  n_grams_loop n token_copy gram_tokens
  = Ok (gram_tokens ++ windows token_copy (Z.to_nat n)).
Proof.
  intros Hn. revert gram_tokens.
  induction token_copy as [|t token_copy IH]; intros gram_tokens.
  - cbn [n_grams_loop length]. destruct (Z.leb_spec n (Z.of_nat 0)); [lia|].
    by rewrite windows_short /=; [lia|rewrite app_nil_r].
  - cbn [n_grams_loop].
    destruct (Z.leb_spec n (Z.of_nat (length (t :: token_copy))))
      as [Hle|Hgt].
    + rewrite first_tokens_take; [lia|].
      rewrite IH windows_cons; [lia|simpl in Hle; lia|].
      by rewrite -app_assoc.
    + rewrite windows_short; [lia|]. by rewrite app_nil_r.
Qed.

Lemma n_grams_loop_nonpositive n token_copy gram_tokens :
  (n ≤ 0)%Z → n_grams_loop n token_copy gram_tokens = Raise IndexError.
Proof.
  intros Hn. revert gram_tokens.
  induction token_copy as [|t token_copy IH]; intros gram_tokens;
    cbn [n_grams_loop].
  - destruct (Z.leb_spec n (Z.of_nat (length (@nil string)))); [|lia].
    by rewrite first_tokens_take; [lia|].
  - destruct (Z.leb_spec n (Z.of_nat (length (t :: token_copy)))); [|lia].
    rewrite first_tokens_take; [lia|]. apply IH.
Qed.

(** X16. For [n >= 1], [get_n_grams] returns the n-grams of the tokens in
    order: one for every start position that leaves room for [n] tokens
    (none when there are fewer than [n] tokens), each made of the [n]
    tokens from that position joined by single spaces. *)
Theorem get_n_grams_are_windows tokens n :
  (1 ≤ n)%Z →
  get_n_grams tokens n = Ok (windows tokens (Z.to_nat n))
  ∧ length (windows tokens (Z.to_nat n))
    = length tokens + 1 - Z.to_nat n.
Proof.
  intros Hn. unfold get_n_grams. rewrite n_grams_loop_windows //.
  split; [done|]. unfold windows. by rewrite length_map length_seq.
Qed.

Lemma windows_one tokens : windows tokens 1 = tokens.
Proof.
  induction tokens as [|t tokens IH]; [done|].
  rewrite windows_cons; [lia|simpl; lia|]. by rewrite IH.
Qed.

Lemma all_windows_run tokens ns all_tokens :
  Forall (λ n, (1 ≤ n)%Z) ns →
  Res.for_each
    (λ all_tokens n, try grams <- get_n_grams tokens n;
                     Ok (all_tokens ++ grams))
    ns all_tokens
  = Ok (all_tokens ++ concat (map (λ n, windows tokens (Z.to_nat n)) ns)).
Proof.
  intros Hns. revert all_tokens.
  induction Hns as [|n ns Hn _ IH]; intros all_tokens.
  - by rewrite /= app_nil_r.
  - cbn [Res.for_each map concat]. unfold get_n_grams at 1.
    rewrite n_grams_loop_windows //=. by rewrite IH app_assoc.
Qed.

Lemma seqZ_lower a len : Forall (λ n, (a ≤ n)%Z) (seqZ a len).
Proof.
  apply Forall_forall. intros n Hn%elem_of_seqZ. lia.
Qed.

Lemma all_windows_one tokens : all_windows 1 1 tokens = tokens.
Proof.
  unfold all_windows. change (seqZ 1 (1 + 1 - 1)) with [1%Z].
  by rewrite /= app_nil_r windows_one.
Qed.

Lemma ngrams_run (token_list all_n_grams : list (list string)) a b :
  (1 ≤ a)%Z →
  Res.for_each
    (λ all_n_grams tokens,
       if bool_decide ((a, b) = (1, 1)%Z)
       then Ok (all_n_grams ++ [tokens])
       else
         try all_tokens <-
           Res.for_each
             (λ all_tokens n, try grams <- get_n_grams tokens n;
                              Ok (all_tokens ++ grams))
             (seqZ (a, b).1 ((a, b).2 + 1 - (a, b).1)) [];
         Ok (all_n_grams ++ [all_tokens]))
    token_list all_n_grams
  = Ok (all_n_grams ++ map (all_windows a b) token_list).
Proof.
  intros Ha. revert all_n_grams.
  induction token_list as [|tokens token_list IH]; intros acc.
  - by rewrite /= app_nil_r.
  - cbn [Res.for_each map]. case_bool_decide as Hone.
    + injection Hone as -> ->. cbn [Res.bind]. rewrite IH.
      by rewrite all_windows_one -app_assoc.
    + rewrite all_windows_run /=.
      { eapply Forall_impl; [apply seqZ_lower|]. intros n Hn.
        simpl in Hn. lia. }
      rewrite IH. by rewrite -app_assoc.
Qed.

(** X17. For a range that starts at 1 or above, [ngrams] returns, for each
    token list, its n-grams for every [n] of the range, shortest first; a
    range whose end lies below its start gives one empty list per token
    list. *)
Theorem ngrams_are_all_windows (token_list : list (list string)) a b :
  (1 ≤ a)%Z →
  ngrams token_list (a, b) = Ok (map (all_windows a b) token_list)
  ∧ ((b < a)%Z →
     ngrams token_list (a, b) = Ok (map (λ _, []) token_list)).
Proof.
  intros Ha.
  assert (Hrun : ngrams token_list (a, b)
                 = Ok (map (all_windows a b) token_list))
    by apply (ngrams_run token_list [] a b Ha).
  split; [done|]. intros Hba. rewrite Hrun. f_equal.
  apply map_ext. intros tokens. unfold all_windows.
  by rewrite seqZ_nil; [lia|].
Qed.

(** X18. The shortcut that [ngrams] takes for the range (1, 1) agrees with
    its general branch: it returns the token lists as they are, and the
    1-grams that [get_n_grams] computes are the tokens themselves. *)
Theorem ngrams_shortcut_agrees (token_list : list (list string)) tokens :
  ngrams token_list (1, 1)%Z = Ok token_list
  ∧ get_n_grams tokens 1 = Ok tokens.
Proof.
  split.
  - unfold ngrams. rewrite (ngrams_run token_list [] 1 1); [lia|].
    f_equal. cbn [app].
    induction token_list as [|tokens0 token_list IH]; [done|].
    by rewrite /= all_windows_one IH.
  - unfold get_n_grams. rewrite n_grams_loop_windows; [lia|].
    by rewrite /= windows_one.
Qed.

(** X19. [get_n_grams] raises IndexError for every [n <= 0], whatever the
    tokens, and so does [ngrams] for a non-empty list of token lists and a
    non-empty range that starts at 0 or below: the loop pops from the copy
    until it is empty and then once more. *)
Theorem ngrams_raises_on_nonpositive_n (token_list : list (list string))
    tokens a b :
  (a ≤ 0)%Z → (a ≤ b)%Z → token_list ≠ [] →
  get_n_grams tokens a = Raise IndexError
  ∧ ngrams token_list (a, b) = Raise IndexError.
Proof.
  intros Ha Hab Hne. split.
  - unfold get_n_grams. by apply n_grams_loop_nonpositive.
  - destruct token_list as [|tokens0 token_list]; [done|].
    unfold ngrams. cbn [Res.for_each]. case_bool_decide as Hone.
    { injection Hone as -> ->. lia. }
    cbn [fst snd]. rewrite (seqZ_cons a); [lia|].
    cbn [Res.for_each]. unfold get_n_grams at 1.
    by rewrite n_grams_loop_nonpositive.
Qed.

End ngram_facts.

(** ** max_length and process_data *)

Lemma for_each_outcome {A S} (f : S → A → result S) (e : exn) l s :
  (∀ s x, f s x = Raise e ∨ ∃ s', f s x = Ok s') →
  Res.for_each f l s = Raise e ∨ ∃ s', Res.for_each f l s = Ok s'.
Proof.
  intros Honly. revert s. induction l as [|x l IH]; intros s; simpl.
  - right. by eexists.
  - destruct (Honly s x) as [->|[s' ->]]; [by left|]. apply IH.
Qed.

Section embedding_facts.
Context {Tag F : Type} (zero : F).
Variable tokenize : string → list (Tag * string).
Variable strip : string → string.

Local Abbreviation tokens_of := (unitok_tokens tokenize strip).

Implicit Types (wordvec_model : @wordvec F) (texts : list string)
  (vector_format : list (list (list F))).

Lemma max_length_fold texts acc m :
  foldl
    (λ max_token_length text,
       let tokens := tokens_of text in
       if bool_decide (max_token_length < length tokens)
       then length tokens else max_token_length)
    acc texts = m →
  acc ≤ m
  ∧ Forall (λ text, length (tokens_of text) ≤ m) texts
  ∧ (m = acc ∨ ∃ text, text ∈ texts ∧ length (tokens_of text) = m).
Proof.
  revert acc. induction texts as [|text texts IH]; intros acc; simpl.
  - intros <-. split; [done|]. split; [constructor|by left].
  - intros Hm. apply IH in Hm as (Hacc & Hall & Hatt).
    assert (Hstep : acc ≤ m ∧ length (tokens_of text) ≤ m
                    ∧ ((if bool_decide (acc < length (tokens_of text))
                        then length (tokens_of text) else acc) = acc
                       ∨ (if bool_decide (acc < length (tokens_of text))
                          then length (tokens_of text) else acc)
                         = length (tokens_of text))).
    { case_bool_decide; lia. }
    destruct Hstep as (Ha & Ht & Hstep).
    split; [done|]. split; [by constructor|].
    destruct Hatt as [Heq|(t & Hin & Hlen)].
    + destruct Hstep as [Hs|Hs]; rewrite Hs in Heq; [by left|].
      right. exists text. split; [by left|done].
    + right. exists t. split; [by right|done].
Qed.

(** X20. [max_length] returns the largest number of tokens of a text: no
    text has more tokens, some text has exactly that many, and the result
    is 0 when there is no text. *)
Theorem max_length_is_maximum texts :
  Forall (λ text, length (tokens_of text) ≤ max_length tokenize strip texts)
    texts
  ∧ (texts ≠ [] →
     ∃ text, text ∈ texts
       ∧ length (tokens_of text) = max_length tokenize strip texts)
  ∧ (texts = [] → max_length tokenize strip texts = 0).
Proof.
  destruct (max_length_fold texts 0 _ eq_refl) as (_ & Hall & Hatt).
  split; [done|]. split; [|by intros ->].
  intros Hne. destruct Hatt as [Hzero|Hatt]; [|done].
  destruct texts as [|text texts]; [done|]. exists text. split; [by left|].
  apply Forall_cons in Hall as [Hlen _]. unfold max_length.
  rewrite Hzero in Hlen |- *. lia.
Qed.

(** *** The rows of one text *)

Lemma length_np_zeros n : length (np_zeros zero n) = n.
Proof. apply length_replicate. Qed.

Lemma np_reshape_zeros n :
  np_reshape_row (np_zeros zero n) n = Ok [np_zeros zero n].
Proof.
  unfold np_reshape_row. by rewrite bool_decide_eq_true_2 ?length_np_zeros.
Qed.

Lemma token_row_reshape wordvec_model token :
  embeddable wordvec_model token →
  (if vocab wordvec_model token
   then np_reshape_row (vector_of wordvec_model token)
          (vector_size wordvec_model)
   else np_reshape_row (np_zeros zero 300) (vector_size wordvec_model))
  = Ok [token_row zero wordvec_model token]
  ∧ length (token_row zero wordvec_model token)
    = vector_size wordvec_model.
Proof.
  unfold embeddable, token_row, np_reshape_row.
  destruct (vocab wordvec_model token); intros Hfit.
  - by rewrite bool_decide_eq_true_2.
  - by rewrite bool_decide_eq_true_2 length_np_zeros.
Qed.

Lemma token_rows_run wordvec_model tokens vector_format :
  Forall (embeddable wordvec_model) tokens →
  Res.for_each
    (λ vector_format token,
       try row <-
         (if vocab wordvec_model token
          then np_reshape_row (vector_of wordvec_model token)
                 (vector_size wordvec_model)
          else np_reshape_row (np_zeros zero 300)
                 (vector_size wordvec_model));
       Ok (vector_format ++ [row]))
    tokens vector_format
  = Ok (vector_format
        ++ map (λ token, [token_row zero wordvec_model token]) tokens).
Proof.
  intros Hfit. revert vector_format.
  induction Hfit as [|token tokens Ht _ IH]; intros vector_format.
  - by rewrite /= app_nil_r.
  - cbn [Res.for_each map].
    destruct (token_row_reshape wordvec_model token Ht) as [-> _].
    by rewrite /= IH -app_assoc.
Qed.

Lemma pad_rows_fills fuel vector_length m vector_format :
  length vector_format ≤ m → m - length vector_format < fuel →
  pad_rows zero fuel vector_length (Z.of_nat m) vector_format
  = Some (Ok (vector_format
              ++ replicate (m - length vector_format)
                   [np_zeros zero vector_length])).
Proof.
  revert vector_format.
  induction fuel as [|fuel IH]; intros vector_format Hle Hfuel; [lia|].
  cbn [pad_rows]. case_bool_decide as Hne.
  - rewrite np_reshape_zeros IH; [rewrite length_app /=; lia..|].
    rewrite length_app /=.
    replace (m - length vector_format)
      with (S (m - (length vector_format + 1))) by lia.
    by rewrite /= -app_assoc.
  - replace (m - length vector_format) with 0 by lia.
    by rewrite /= app_nil_r.
Qed.

Lemma pad_rows_never_meets fuel vector_length max_token_length
    vector_format :
  (max_token_length < 0)%Z →
  pad_rows zero fuel vector_length max_token_length vector_format = None.
Proof.
  intros Hneg. revert vector_format.
  induction fuel as [|fuel IH]; intros vector_format; [done|].
  cbn [pad_rows]. case_bool_decide; [|lia].
  by rewrite np_reshape_zeros IH.
Qed.

Lemma np_vstack_rows (rows : list (list F)) width :
  rows ≠ [] → Forall (λ row, length row = width) rows →
  np_vstack (map (λ row, [row]) rows) = Ok rows.
Proof.
  intros Hne Hwidth. unfold np_vstack.
  assert (Hflat : concat (map (λ row : list F, [row]) rows) = rows).
  { clear. induction rows as [|r rows IH]; [done|]. by rewrite /= IH. }
  destruct rows as [|row rows]; [done|]. cbn [map]. rewrite Hflat.
  cbn [head default]. rewrite bool_decide_eq_true_2; [|done].
  apply Forall_cons in Hwidth as [Hrow Hrows]. rewrite Hrow.
  by constructor.
Qed.

Lemma padded_rows_shape wordvec_model m tokens :
  Forall (embeddable wordvec_model) (take m tokens) →
  length (padded_rows zero wordvec_model m tokens) = m
  ∧ Forall (λ row, length row = vector_size wordvec_model)
      (padded_rows zero wordvec_model m tokens).
Proof.
  intros Hfit. unfold padded_rows. split.
  - rewrite length_app length_map length_replicate length_take. lia.
  - apply Forall_app. split.
    + apply Forall_forall. intros row Hrow.
      apply list_elem_of_In, in_map_iff in Hrow as (t & <- & Ht).
      apply list_elem_of_In in Ht.
      eapply Forall_forall in Hfit; [|done].
      by destruct (token_row_reshape wordvec_model t Hfit).
    + apply Forall_replicate, length_np_zeros.
Qed.

Lemma embed_text_pads fuel wordvec_model m text :
  0 < m → m < fuel →
  Forall (embeddable wordvec_model) (take m (tokens_of text)) →
  embed_text zero tokenize strip fuel wordvec_model (Z.of_nat m) text
  = Some (Ok (padded_rows zero wordvec_model m (tokens_of text))).
Proof.
  intros Hm Hfuel Hfit. unfold embed_text, token_rows.
  assert (Hslice : py_slice_to (tokens_of text) (Z.of_nat m)
                   = take m (tokens_of text)).
  { unfold py_slice_to. destruct (Z.leb_spec 0 (Z.of_nat m)); [|lia].
    by rewrite Nat2Z.id. }
  rewrite Hslice token_rows_run //. cbn [app].
  rewrite pad_rows_fills; rewrite ?length_map ?length_take; [lia..|].
  destruct (padded_rows_shape wordvec_model m (tokens_of text) Hfit)
    as [Hlen Hwidth].
  assert (Hne : padded_rows zero wordvec_model m (tokens_of text) ≠ []).
  { intros Hnil. rewrite Hnil in Hlen. simpl in Hlen. lia. }
  rewrite -(np_vstack_rows _ _ Hne Hwidth).
  unfold padded_rows. rewrite map_app map_map length_take.
  do 3 f_equal.
  induction (m - m `min` length (tokens_of text)) as [|k IH]; [done|].
  by rewrite /= IH.
Qed.

Lemma embed_texts_pads fuel wordvec_model m texts all_vectors :
  0 < m → m < fuel →
  Forall (λ text, Forall (embeddable wordvec_model)
                    (take m (tokens_of text))) texts →
  embed_texts zero tokenize strip fuel wordvec_model (Z.of_nat m) texts
    all_vectors
  = Some (Ok (all_vectors
              ++ map (λ text, padded_rows zero wordvec_model m
                                (tokens_of text)) texts)).
Proof.
  intros Hm Hfuel Hfit. revert all_vectors.
  induction Hfit as [|text texts Ht _ IH]; intros all_vectors.
  - by rewrite /= app_nil_r.
  - cbn [embed_texts map]. rewrite embed_text_pads // IH.
    by rewrite -app_assoc.
Qed.

(** X21. For a positive [max_token_length] and tokens whose rows fit the
    model's vector size, [process_data] returns (enough fuel given) one
    array per text with exactly [max_token_length] rows of [vector_size]
    numbers each: the rows of the first [max_token_length] tokens of the
    text (the model's vector, or zeros for a token outside the vocabulary)
    followed by rows of zeros. *)
Theorem process_data_pads_every_text fuel texts wordvec_model m :
  0 < m → m < fuel →
  Forall (λ text, Forall (embeddable wordvec_model)
                    (take m (tokens_of text))) texts →
  ∃ arrays,
    process_data zero tokenize strip fuel texts wordvec_model (Z.of_nat m)
      = Some (Ok arrays)
    ∧ arrays = map (λ text, padded_rows zero wordvec_model m
                              (tokens_of text)) texts
    ∧ length arrays = length texts
    ∧ Forall (λ rows, length rows = m
                ∧ Forall (λ row, length row = vector_size wordvec_model)
                    rows) arrays.
Proof.
  intros Hm Hfuel Hfit. eexists. split; [|split; [done|split]].
  - unfold process_data. by rewrite embed_texts_pads.
  - by rewrite length_map.
  - apply Forall_forall. intros rows Hrows.
    apply list_elem_of_In, in_map_iff in Hrows as (text & <- & Ht).
    apply list_elem_of_In in Ht. eapply Forall_forall in Hfit; [|done].
    by apply padded_rows_shape.
Qed.

(** X22. With [max_token_length] taken from [max_length] of the same texts,
    [process_data] drops no token: every array holds the rows of all the
    tokens of its text, followed by rows of zeros up to the length of the
    longest text. *)
Theorem process_data_with_max_length_keeps_all_tokens fuel texts
    wordvec_model :
  let m := max_length tokenize strip texts in
  0 < m → m < fuel →
  Forall (λ text, Forall (embeddable wordvec_model) (tokens_of text))
    texts →
  process_data zero tokenize strip fuel texts wordvec_model (Z.of_nat m)
  = Some (Ok (map (λ text,
                     map (token_row zero wordvec_model) (tokens_of text)
                     ++ replicate (m - length (tokens_of text))
                          (np_zeros zero (vector_size wordvec_model)))
                texts)).
Proof.
  intros m Hm Hfuel Hfit.
  destruct (max_length_fold texts 0 m eq_refl) as (_ & Hall & _).
  assert (Hkeep : Forall (λ text, take m (tokens_of text) = tokens_of text)
                    texts).
  { eapply Forall_impl; [exact Hall|]. intros text Hlen.
    by apply take_ge. }
  unfold process_data. rewrite embed_texts_pads //.
  - apply Forall_forall. intros text Ht.
    eapply Forall_forall in Hkeep; [|done].
    eapply Forall_forall in Hfit; [|done]. by rewrite Hkeep.
  - do 2 f_equal. cbn [app]. apply map_ext_in. intros text Ht.
    apply list_elem_of_In in Ht. eapply Forall_forall in Hkeep; [|done].
    unfold padded_rows. by rewrite Hkeep.
Qed.

(** *** Where process_data fails *)

(** X23. For [max_token_length = 0] and at least one text, [process_data]
    raises ValueError: no row is built and [numpy.vstack] rejects the empty
    sequence. *)
Theorem process_data_rejects_zero_length fuel texts wordvec_model :
  texts ≠ [] → 0 < fuel →
  process_data zero tokenize strip fuel texts wordvec_model 0
  = Some (Raise ValueError).
Proof.
  intros Hne Hfuel. destruct texts as [|text texts]; [done|].
  destruct fuel as [|fuel]; [lia|]. done.
Qed.

Lemma token_rows_outcome wordvec_model tokens :
  token_rows zero wordvec_model tokens = Raise ValueError
  ∨ ∃ vector_format,
      token_rows zero wordvec_model tokens = Ok vector_format.
Proof.
  unfold token_rows. apply for_each_outcome. intros vector_format token.
  unfold np_reshape_row.
  destruct (vocab wordvec_model token); case_bool_decide; simpl; eauto.
Qed.

Lemma token_rows_length wordvec_model tokens vector_format :
  token_rows zero wordvec_model tokens = Ok vector_format →
  length vector_format = length tokens.
Proof.
  unfold token_rows.
  assert (Hrun : ∀ acc out,
    Res.for_each
      (λ vector_format token,
         try row <-
           (if vocab wordvec_model token
            then np_reshape_row (vector_of wordvec_model token)
                   (vector_size wordvec_model)
            else np_reshape_row (np_zeros zero 300)
                   (vector_size wordvec_model));
         Ok (vector_format ++ [row]))
      tokens acc = Ok out →
    length out = length acc + length tokens).
  { induction tokens as [|token tokens IH]; intros acc out.
    - intros [= <-]. simpl. lia.
    - cbn [Res.for_each]. intros H.
      apply bind_Ok_inv in H as (acc' & Hstep & H).
      apply bind_Ok_inv in Hstep as (row & _ & [= <-]).
      apply IH in H. rewrite length_app /= in H. simpl. lia. }
  intros H. by apply Hrun in H.
Qed.

Lemma embed_text_outcome fuel wordvec_model m text :
  m < fuel →
  embed_text zero tokenize strip fuel wordvec_model (Z.of_nat m) text
    = Some (Raise ValueError)
  ∨ ∃ rows,
      embed_text zero tokenize strip fuel wordvec_model (Z.of_nat m) text
        = Some (Ok rows).
Proof.
  intros Hfuel. unfold embed_text.
  destruct (token_rows_outcome wordvec_model
              (py_slice_to (tokens_of text) (Z.of_nat m)))
    as [->|[vector_format Hrows]]; [by left|].
  rewrite Hrows. apply token_rows_length in Hrows.
  assert (Hlen : length vector_format ≤ m).
  { rewrite Hrows. unfold py_slice_to.
    destruct (Z.leb_spec 0 (Z.of_nat m)); [|lia].
    rewrite length_take. lia. }
  rewrite pad_rows_fills; [done|lia|].
  unfold np_vstack.
  destruct (vector_format ++ _); [by left|].
  case_bool_decide; [right; by eexists|by left].
Qed.

(** X24. When a token that is not in the vocabulary is among the first
    [max_token_length] tokens of some text and the model's vector size is
    not 300, [process_data] raises ValueError: the row of zeros built for
    such a token always has 300 entries. *)
Theorem process_data_rejects_unknown_token fuel texts wordvec_model m text
    token :
  m < fuel → text ∈ texts → token ∈ take m (tokens_of text) →
  vocab wordvec_model token = false →
  vector_size wordvec_model ≠ 300 →
  process_data zero tokenize strip fuel texts wordvec_model (Z.of_nat m)
  = Some (Raise ValueError).
Proof.
  intros Hfuel Htext Htoken Hvocab Hsize.
  assert (Hbad : embed_text zero tokenize strip fuel wordvec_model
                   (Z.of_nat m) text = Some (Raise ValueError)).
  { unfold embed_text, token_rows.
    assert (Hslice : py_slice_to (tokens_of text) (Z.of_nat m)
                     = take m (tokens_of text)).
    { unfold py_slice_to. destruct (Z.leb_spec 0 (Z.of_nat m)); [|lia].
      by rewrite Nat2Z.id. }
    rewrite Hslice.
    rewrite (for_each_raises _ ValueError _ _ token); [done| | |done].
    - intros s. rewrite Hvocab. unfold np_reshape_row.
      rewrite bool_decide_eq_false_2; [|done].
      rewrite length_np_zeros. congruence.
    - intros s t. unfold np_reshape_row.
      destruct (vocab wordvec_model t); case_bool_decide; simpl; eauto. }
  unfold process_data. generalize (@nil (list (list F))) as all_vectors.
  induction texts as [|text0 texts IH]; intros all_vectors;
    [by apply not_elem_of_nil in Htext|].
  cbn [embed_texts].
  destruct (embed_text_outcome fuel wordvec_model m text0 Hfuel)
    as [->|[rows Hrows]]; [done|].
  apply elem_of_cons in Htext as [->|Htext]; [congruence|].
  rewrite Hrows. by apply IH.
Qed.

(** X25. For a negative [max_token_length] and at least one text,
    [process_data] never returns an array: either a row of the first text
    is rejected with ValueError, or the padding loop, whose exit test
    compares a length with the negative number, runs for ever (the fuel
    runs out, however much there is). *)
Theorem process_data_negative_length_never_returns fuel texts
    wordvec_model max_token_length :
  (max_token_length < 0)%Z → texts ≠ [] →
  process_data zero tokenize strip fuel texts wordvec_model
    max_token_length = None
  ∨ process_data zero tokenize strip fuel texts wordvec_model
      max_token_length = Some (Raise ValueError).
Proof.
  intros Hneg Hne. destruct texts as [|text texts]; [done|].
  unfold process_data. cbn [embed_texts]. unfold embed_text.
  destruct (token_rows_outcome wordvec_model
              (py_slice_to (tokens_of text) max_token_length))
    as [->|[vector_format ->]]; [by right|].
  rewrite pad_rows_never_meets //. by left.
Qed.

End embedding_facts.

(** ** Splitting the records of a data set *)

Lemma length_omap_le {A B} (f : A → option B) (l : list A) :
  length (omap f l) ≤ length l.
Proof.
  induction l as [|x l IH]; simpl; [done|].
  change (list_omap A B f l) with (omap f l).
  destruct (f x); simpl; lia.
Qed.

Section record_facts.
Context {J : Type} (lower : J → result J).
Hypothesis lower_returns : ∀ v, ∃ v', lower v = Ok v'.

Implicit Types (all_data : list (list (string * J))) (text sentiment
  company : list J).

Lemma add_records_run all_data text sentiment company :
  Forall (λ data, is_Some (dict_get data "title")
                  ∧ is_Some (dict_get data "company")) all_data →
  ∃ text' company',
    Res.for_each (add_record lower) all_data (text, sentiment, company)
    = Ok (text ++ text',
          sentiment ++ omap (λ data, dict_get data "sentiment") all_data,
          company ++ company')
    ∧ Forall2 (λ data t, ∃ v, dict_get data "title" = Some v
                              ∧ lower v = Ok t) all_data text'
    ∧ Forall2 (λ data c, ∃ v, dict_get data "company" = Some v
                              ∧ lower v = Ok c) all_data company'.
Proof.
  intros Hall. revert text sentiment company.
  induction Hall as [|data all_data [[vt Ht] [vc Hc]] _ IH];
    intros text sentiment company.
  - exists [], []. by rewrite /= !app_nil_r.
  - destruct (lower_returns vt) as [t Hlt].
    destruct (lower_returns vc) as [c Hlc].
    destruct (IH (text ++ [t])
                (match dict_get data "sentiment" with
                 | Some s => sentiment ++ [s]
                 | None => sentiment
                 end) (company ++ [c]))
      as (text' & company' & Hrun & Htext & Hcomp).
    exists (t :: text'), (c :: company').
    split; [|split; constructor; eauto].
    cbn [Res.for_each]. unfold add_record at 1, dict_subscript.
    rewrite Ht /= Hlt /= Hc /= Hlc /= Hrun.
    destruct (dict_get data "sentiment"); by rewrite /= -!app_assoc.
Qed.

(** X26. When every record has a title and a company,
    [__text_sentiment_company] returns three lists: the lowered titles and
    the lowered companies, both parallel to the records, and the sentiment
    values of the records that have one, in order. The sentiment list is
    therefore parallel to the others only when every record has a
    sentiment. *)
Theorem text_sentiment_company_splits_records all_data :
  Forall (λ data, is_Some (dict_get data "title")
                  ∧ is_Some (dict_get data "company")) all_data →
  ∃ text sentiment company,
    text_sentiment_company lower all_data = Ok (text, sentiment, company)
    ∧ Forall2 (λ data t, ∃ v, dict_get data "title" = Some v
                              ∧ lower v = Ok t) all_data text
    ∧ Forall2 (λ data c, ∃ v, dict_get data "company" = Some v
                              ∧ lower v = Ok c) all_data company
    ∧ sentiment = omap (λ data, dict_get data "sentiment") all_data
    ∧ (length sentiment = length text ↔
       Forall (λ data, is_Some (dict_get data "sentiment")) all_data).
Proof.
  intros Hall.
  destruct (add_records_run all_data [] [] [] Hall)
    as (text & company & Hrun & Htext & Hcomp).
  exists text, (omap (λ data, dict_get data "sentiment") all_data), company.
  split; [done|]. split; [done|]. split; [done|]. split; [done|].
  rewrite -(Forall2_length _ _ _ Htext). clear.
  induction all_data as [|data all_data IH]; simpl.
  - split; [constructor|done].
  - pose proof (length_omap_le (λ data : list (string * J),
                    dict_get data "sentiment") all_data) as Hle.
    destruct (dict_get data "sentiment") as [s|] eqn:Hs; simpl.
    + change (list_omap _ _ ?f ?l) with (omap f l). split.
      * intros [= Hlen]. constructor; [by eexists|by apply IH].
      * intros [_ Hrest]%Forall_cons. f_equal. by apply IH.
    + change (list_omap _ _ ?f ?l) with (omap f l).
      split; [lia|]. intros [[s Hs'] _]%Forall_cons. congruence.
Qed.

(** X27. When some record has no title or no company,
    [__text_sentiment_company] raises KeyError and returns nothing. *)
Theorem text_sentiment_company_raises_on_missing_field all_data data :
  data ∈ all_data →
  dict_get data "title" = None ∨ dict_get data "company" = None →
  text_sentiment_company lower all_data = Raise KeyError.
Proof.
  intros Hin Hmissing. unfold text_sentiment_company.
  apply for_each_raises with (x := data); [done| |].
  - intros [[text sentiment] company]. unfold add_record, dict_subscript.
    destruct (dict_get data "title") as [vt|]; [|done]. cbn [Res.bind].
    destruct (lower_returns vt) as [t Ht]. rewrite Ht. cbn [Res.bind].
    destruct Hmissing as [Hm | Hm]; [done|by rewrite Hm].
  - intros [[text sentiment] company] d. unfold add_record, dict_subscript.
    destruct (dict_get d "title") as [vt|]; [|by left]. cbn [Res.bind].
    destruct (lower_returns vt) as [t Ht]. rewrite Ht. cbn [Res.bind].
    destruct (dict_get d "company") as [vc|]; [|by left]. cbn [Res.bind].
    destruct (lower_returns vc) as [c Hc]. rewrite Hc. cbn [Res.bind]. right.
    by eexists.
Qed.

End record_facts.

(** * The further properties on sample data *)

Lemma error_cross_validate_fits_once_per_fold_witness :
  ∃ folds css,
    folds_of reverse 2 true (length Toy.texts) (length Toy.labels) = Ok folds
    ∧ Z.of_nat (length folds) = 2%Z
    ∧ Forall2 (fold_calls Toy.texts Toy.labels) folds css
    ∧ calls (error_cross_validate Toy.fit Toy.predict Toy.score reverse
               Toy.texts Toy.labels 2 true Toy.w0).1
      = calls Toy.w0 ++ concat css.
Proof.
  eapply (error_cross_validate_fits_once_per_fold Toy.fit Toy.predict
            Toy.score reverse Toy.texts Toy.labels 2 true Toy.w0).
  vm_compute. reflexivity.
Defined.

Lemma error_cross_validate_propagates_fit_failure_witness :
  ∃ w' fit_data fit_values,
    error_cross_validate Sample.fit_fails Toy.predict Toy.score reverse
      Toy.texts Toy.labels 2 true Toy.w0 = (w', Raise ModelFailure)
    ∧ calls w' = calls Toy.w0 ++ [CallFit fit_data fit_values].
Proof.
  apply (error_cross_validate_propagates_fit_failure Sample.fit_fails
           Toy.predict Toy.score reverse Toy.texts Toy.labels 2 true
           Toy.w0 ModelFailure).
  - exact reverse_permutes.
  - reflexivity.
  - simpl. lia.
  - reflexivity.
Defined.

Lemma error_cross_validate_rejects_extra_predictions_witness :
  ∃ w',
    error_cross_validate Toy.fit Sample.predict_extra Toy.score reverse
      Toy.texts Toy.labels 2 true Toy.w0 = (w', Raise IndexError)
    ∧ length (calls w') = length (calls Toy.w0) + 2.
Proof.
  apply (error_cross_validate_rejects_extra_predictions Toy.fit
           Sample.predict_extra Toy.score reverse Toy.texts Toy.labels 2
           true Toy.w0).
  - exact reverse_permutes.
  - exact toy_fit_returns.
  - exact toy_score_single.
  - reflexivity.
  - simpl. lia.
  - intros data m. eexists. split; [reflexivity|].
    rewrite length_replicate. lia.
Defined.

(** A model that returns one value too few in each fold: three records
    for five examples. *)
Example error_cross_validate_short_predictions_scenario :
  (error_cross_validate Toy.fit Sample.predict_short Toy.score reverse
     Toy.texts Toy.labels 2 true Toy.w0).2
  = Ok [(2, 0%Z, 3%Z); (3, 0%Z, 4%Z); (0, 0%Z, 1%Z)].
Proof. reflexivity. Qed.

Lemma error_cross_validate_drops_unpredicted_examples_witness :
  ∃ w' results folds predictions,
    error_cross_validate Toy.fit Sample.predict_short Toy.score reverse
      Toy.texts Toy.labels 2 true Toy.w0 = (w', Ok results)
    ∧ folds_of reverse 2 true (length Toy.texts) (length Toy.labels)
      = Ok folds
    ∧ predicted_by Toy.fit Sample.predict_short Toy.texts Toy.labels folds
        (model Toy.w0) predictions
    ∧ map (λ r : nat * Z * Z, r.1.1) results
      = predicted_indices folds predictions
    ∧ NoDup (map (λ r : nat * Z * Z, r.1.1) results)
    ∧ length results = sum_list (map length predictions)
    ∧ (length results < length Toy.texts
       ↔ Exists (λ fp : list nat * list nat * list Z,
                   length fp.2 < length fp.1.2) (zip folds predictions)).
Proof.
  apply (error_cross_validate_drops_unpredicted_examples Toy.fit
           Sample.predict_short Toy.score reverse Toy.texts Toy.labels 2
           true Toy.w0).
  - exact reverse_permutes.
  - exact toy_fit_returns.
  - exact toy_score_single.
  - reflexivity.
  - simpl. lia.
  - intros data m. eexists. split; [reflexivity|].
    rewrite length_replicate. lia.
Defined.

Lemma top_n_errors_raises_on_invalid_index_witness :
  top_n_errors Z.ltb Sample.scored_invalid ["a"; "b"; "c"]%string
    [1; 2; 3]%Z ["x"; "y"; "z"]%string 10 = Raise IndexError.
Proof.
  apply (top_n_errors_raises_on_invalid_index Z.ltb Sample.scored_invalid
           ["a"; "b"; "c"]%string [1; 2; 3]%Z ["x"; "y"; "z"]%string 10
           (7, 2%Z, 3%Z)).
  - right. left.
  - unfold valid_index. simpl. lia.
  - simpl. lia.
Defined.

Lemma top_n_errors_selects_highest_scores_witness :
  ∃ top rest out,
    top_n_errors Z.ltb Toy.scored_scenario ["a"; "b"; "c"]%string
      [1; 2; 3]%Z ["x"; "y"; "z"]%string 2 = Ok out
    ∧ Forall2 (resolves ["a"; "b"; "c"]%string [1; 2; 3]%Z
                 ["x"; "y"; "z"]%string) top out
    ∧ top ++ rest ≡ₚ Toy.scored_scenario
    ∧ ∀ a b, a ∈ top → b ∈ rest → Z.ltb a.2 b.2 = false.
Proof.
  apply (top_n_errors_selects_highest_scores Z.ltb Toy.scored_scenario
           ["a"; "b"; "c"]%string [1; 2; 3]%Z ["x"; "y"; "z"]%string 2).
  - exact Z_ltb_strict_weak_order.
  - repeat constructor; simpl; lia.
Defined.

Lemma comps2sent_key_is_group_size_witness :
  ∃ compscount_ids,
    comps2sent Toy.texts Toy.comps = Ok compscount_ids
    ∧ NoDup (map fst compscount_ids)
    ∧ ∀ c groups g, (c, groups) ∈ compscount_ids → g ∈ groups →
        length g = c ∧ 0 < c.
Proof.
  apply (comps2sent_key_is_group_size Toy.texts Toy.comps).
  simpl. lia.
Defined.

Lemma comps2sent_groups_equal_texts_witness :
  ∃ compscount_ids,
    comps2sent Toy.texts Toy.comps = Ok compscount_ids
    ∧ (∀ c groups g, (c, groups) ∈ compscount_ids → g ∈ groups →
         ∃ t, t ∈ Toy.texts
              ∧ g = same_text_ids Toy.texts t (length Toy.texts))
    ∧ (∀ i t, Toy.texts !! i = Some t →
         ∃ c groups, (c, groups) ∈ compscount_ids
           ∧ same_text_ids Toy.texts t (length Toy.texts) ∈ groups).
Proof.
  apply (comps2sent_groups_equal_texts Toy.texts Toy.comps).
  simpl. lia.
Defined.

Lemma comps2sent_raises_on_missing_company_witness :
  comps2sent Toy.texts ["x"; "y"]%string = Raise IndexError.
Proof.
  apply (comps2sent_raises_on_missing_company Toy.texts ["x"; "y"]%string).
  simpl. lia.
Defined.

Lemma comps2sent_ignores_company_labels_witness :
  comps2sent Toy.texts Toy.comps = comps2sent Toy.texts [1; 2; 3; 4; 5; 6].
Proof.
  apply (comps2sent_ignores_company_labels Toy.texts Toy.comps
           [1; 2; 3; 4; 5; 6]); simpl; lia.
Defined.

Lemma invert_counts_is_number_of_equal_texts_witness :
  ∃ compscount_ids,
    comps2sent Toy.texts Toy.comps = Ok compscount_ids
    ∧ ∀ i t, Toy.texts !! i = Some t →
        invert_counts compscount_ids !! i
        = Some (length (same_text_ids Toy.texts t (length Toy.texts))).
Proof.
  apply (invert_counts_is_number_of_equal_texts Toy.texts Toy.comps).
  simpl. lia.
Defined.

Lemma sent_type_errors_keeps_ranking_order_witness :
  ∃ comps_errors,
    sent_type_errors Toy.top_errors Toy.count_groups = Ok comps_errors
    ∧ ∀ c, dict_get comps_errors c
           = match filter (λ e, invert_counts Toy.count_groups !! index e
                                = Some c) Toy.top_errors with
             | [] => None
             | errors => Some errors
             end.
Proof.
  apply (sent_type_errors_keeps_ranking_order Toy.top_errors
           Toy.count_groups).
  repeat constructor.
  - exists 2, [[0; 2]], [0; 2]. repeat split; repeat constructor.
  - exists 1, [[1]; [3]; [4]], [1]. repeat split; repeat constructor.
  - exists 1, [[1]; [3]; [4]], [3]. repeat split; repeat constructor.
Defined.

(** The grouping scenario: with the default, None, an empty list or an
    empty string as [train_text] the strata are counted on the texts of
    [train_data]; with five equal grouping texts every record lies in
    stratum 5, and with the characters of a str in the strata of equal
    characters. *)
Example error_analysis_grouping_scenario :
  let run train_text :=
    Sample.strata_indices
      (error_analysis Toy.fit Toy.predict Toy.score reverse Z.ltb Toy.texts
         Toy.labels Toy.comps train_text 3 2 true Toy.w0) in
  run (@ArgBool string false) = Some [(2, [0]); (1, [1; 3])]
  ∧ run (@ArgNone string) = Some [(2, [0]); (1, [1; 3])]
  ∧ run (@ArgList string []) = Some [(2, [0]); (1, [1; 3])]
  ∧ run (@ArgStr string []) = Some [(2, [0]); (1, [1; 3])]
  ∧ run (ArgList ["t"; "t"; "t"; "t"; "t"]%string) = Some [(5, [0; 1; 3])]
  ∧ run (@ArgStr string [97; 97; 98; 99; 233]%N)
    = Some [(2, [0; 1]); (1, [3])].
Proof. repeat split. Qed.


Lemma error_analysis_returns_strata_witness :
  ∃ w' error_details error_distribution,
    error_analysis Toy.fit Toy.predict Toy.score reverse Z.ltb Toy.texts
      Toy.labels Toy.comps (@ArgBool string false) 3 2 true Toy.w0
    = (w', Ok (error_details, error_distribution))
    ∧ Z.of_nat (sum_list (map snd error_distribution))
      = Z.min 3 (Z.of_nat (length Toy.texts))
    ∧ ∀ c errors e, (c, errors) ∈ error_details → e ∈ errors →
        Toy.texts !! index e = Some (Sentence e)
        ∧ c = length (same_text_ids Toy.texts (Sentence e)
                        (length Toy.texts)).
Proof.
  apply (error_analysis_returns_strata Toy.fit Toy.predict Toy.score
           reverse Z.ltb Toy.texts Toy.labels Toy.comps
           (@ArgBool string false) 3 2 true Toy.w0).
  - exact reverse_permutes.
  - exact toy_fit_returns.
  - exact toy_predict_returns.
  - exact toy_score_single.
  - by repeat constructor.
  - reflexivity.
  - simpl. lia.
  - simpl. lia.
  - reflexivity.
  - lia.
Defined.

Lemma error_analysis_groups_before_fitting_witness :
  error_analysis Toy.fit Toy.predict Toy.score reverse Z.ltb Toy.texts
    Toy.labels ["x"; "y"]%string (@ArgBool string false) 3 2 true Toy.w0
  = (Toy.w0, Raise IndexError).
Proof.
  apply (error_analysis_groups_before_fitting Toy.fit Toy.predict Toy.score
           reverse Z.ltb Toy.texts Toy.labels ["x"; "y"]%string
           (@ArgBool string false) 3 2 true Toy.w0).
  - reflexivity.
  - by repeat constructor.
  - simpl. lia.
Defined.

Lemma error_analysis_rejects_unhashable_data_witness :
  error_analysis Sample.vector_fit Sample.vector_predict Toy.score reverse
    Z.ltb Sample.vectors [1; 2; 3]%Z ["x"; "y"; "z"]%string
    (@ArgBool string false) 3 2 true Sample.vector_w0
  = (Sample.vector_w0, Raise TypeError).
Proof.
  apply (error_analysis_rejects_unhashable_data Sample.vector_fit
           Sample.vector_predict Toy.score reverse Z.ltb Sample.vectors
           [1; 2; 3]%Z ["x"; "y"; "z"]%string (@ArgBool string false) 3 2
           true Sample.vector_w0 0 [1; 0]%Z).
  - reflexivity.
  - reflexivity.
  - reflexivity.
  - simpl. lia.
Defined.

Lemma error_analysis_raises_on_short_train_text_witness :
  ∃ w' error_results,
    error_cross_validate Toy.fit Toy.predict Toy.score reverse Toy.texts
      Toy.labels 2 true Toy.w0 = (w', Ok error_results)
    ∧ error_analysis Toy.fit Toy.predict Toy.score reverse Z.ltb Toy.texts
        Toy.labels Toy.comps (ArgList ["a"; "bb"]%string) 50 2 true Toy.w0
      = (w', Raise KeyError).
Proof.
  apply (error_analysis_raises_on_short_train_text Toy.fit Toy.predict
           Toy.score reverse Z.ltb Toy.texts Toy.labels Toy.comps
           ["a"; "bb"]%string 50 2 true Toy.w0).
  - exact reverse_permutes.
  - exact toy_fit_returns.
  - exact toy_predict_returns.
  - exact toy_score_single.
  - reflexivity.
  - simpl. lia.
  - simpl. lia.
  - simpl. lia.
  - simpl. lia.
Defined.

Lemma get_n_grams_are_windows_witness :
  get_n_grams ["a"; "b"; "c"; "d"]%string 2
    = Ok (windows ["a"; "b"; "c"; "d"]%string (Z.to_nat 2))
  ∧ length (windows ["a"; "b"; "c"; "d"]%string (Z.to_nat 2))
    = length ["a"; "b"; "c"; "d"]%string + 1 - Z.to_nat 2.
Proof.
  apply (get_n_grams_are_windows ["a"; "b"; "c"; "d"]%string 2). lia.
Defined.

Lemma ngrams_are_all_windows_witness :
  ngrams [["a"; "b"; "c"]; ["d"]]%string (1, 2)%Z
    = Ok (map (all_windows 1 2) [["a"; "b"; "c"]; ["d"]]%string)
  ∧ ((2 < 1)%Z →
     ngrams [["a"; "b"; "c"]; ["d"]]%string (1, 2)%Z
     = Ok (map (λ _, []) [["a"; "b"; "c"]; ["d"]]%string)).
Proof.
  apply (ngrams_are_all_windows [["a"; "b"; "c"]; ["d"]]%string 1 2). lia.
Defined.

Lemma ngrams_raises_on_nonpositive_n_witness :
  get_n_grams ["a"; "b"]%string 0 = Raise IndexError
  ∧ ngrams [["a"; "b"; "c"]; ["d"]]%string (0, 2)%Z = Raise IndexError.
Proof.
  apply (ngrams_raises_on_nonpositive_n [["a"; "b"; "c"]; ["d"]]%string
           ["a"; "b"]%string 0 2); [lia|lia|done].
Defined.

Lemma process_data_pads_every_text_witness :
  ∃ arrays,
    process_data 0%Z Sample.tokenize Sample.strip 3 ["aa a"; "a"]%string
      Sample.wordvec2 (Z.of_nat 2) = Some (Ok arrays)
    ∧ arrays = map (λ text, padded_rows 0%Z Sample.wordvec2 2
                              (unitok_tokens Sample.tokenize Sample.strip
                                 text)) ["aa a"; "a"]%string
    ∧ length arrays = length ["aa a"; "a"]%string
    ∧ Forall (λ rows, length rows = 2
                ∧ Forall (λ row, length row = vector_size Sample.wordvec2)
                    rows) arrays.
Proof.
  apply (process_data_pads_every_text 0%Z Sample.tokenize Sample.strip 3
           ["aa a"; "a"]%string Sample.wordvec2 2); [lia|lia|].
  repeat constructor.
Defined.

Lemma process_data_with_max_length_keeps_all_tokens_witness :
  process_data 0%Z Sample.tokenize Sample.strip 4 ["aa a"; "a"]%string
    Sample.wordvec2
    (Z.of_nat (max_length Sample.tokenize Sample.strip
                 ["aa a"; "a"]%string))
  = Some (Ok [[[1; 2]; [1; 2]; [1; 2]]; [[1; 2]; [0; 0]; [0; 0]]]%Z).
Proof.
  apply (process_data_with_max_length_keeps_all_tokens 0%Z Sample.tokenize
           Sample.strip 4 ["aa a"; "a"]%string Sample.wordvec2).
  - vm_compute. lia.
  - vm_compute. lia.
  - repeat constructor.
Defined.

Lemma process_data_rejects_zero_length_witness :
  process_data 0%Z Sample.tokenize Sample.strip 3 ["aa a"; "a"]%string
    Sample.wordvec2 0 = Some (Raise ValueError).
Proof.
  apply (process_data_rejects_zero_length 0%Z Sample.tokenize Sample.strip
           3 ["aa a"; "a"]%string Sample.wordvec2); [done|lia].
Defined.

Lemma process_data_rejects_unknown_token_witness :
  process_data 0%Z Sample.tokenize Sample.strip 3 ["a"; "ab"]%string
    Sample.wordvec2 (Z.of_nat 2) = Some (Raise ValueError).
Proof.
  apply (process_data_rejects_unknown_token 0%Z Sample.tokenize Sample.strip
           3 ["a"; "ab"]%string Sample.wordvec2 2 "ab"%string "b"%string).
  - lia.
  - right. left.
  - right. left.
  - reflexivity.
  - simpl. lia.
Defined.

Lemma process_data_negative_length_never_returns_witness :
  process_data 0%Z Sample.tokenize Sample.strip 50 ["aa a"; "a"]%string
    Sample.wordvec2 (-1) = None
  ∨ process_data 0%Z Sample.tokenize Sample.strip 50 ["aa a"; "a"]%string
      Sample.wordvec2 (-1) = Some (Raise ValueError).
Proof.
  apply (process_data_negative_length_never_returns 0%Z Sample.tokenize
           Sample.strip 50 ["aa a"; "a"]%string Sample.wordvec2 (-1));
    [lia|done].
Defined.

Lemma text_sentiment_company_splits_records_witness :
  ∃ text sentiment company,
    text_sentiment_company Sample.lower Sample.records
      = Ok (text, sentiment, company)
    ∧ Forall2 (λ data t, ∃ v, dict_get data "title"%string = Some v
                              ∧ Sample.lower v = Ok t) Sample.records text
    ∧ Forall2 (λ data c, ∃ v, dict_get data "company"%string = Some v
                              ∧ Sample.lower v = Ok c)
        Sample.records company
    ∧ sentiment
      = omap (λ data, dict_get data "sentiment"%string) Sample.records
    ∧ (length sentiment = length text ↔
       Forall (λ data, is_Some (dict_get data "sentiment"%string))
         Sample.records).
Proof.
  apply (text_sentiment_company_splits_records Sample.lower).
  - intros v. by exists v.
  - repeat constructor; by eexists.
Defined.

Lemma text_sentiment_company_raises_on_missing_field_witness :
  text_sentiment_company Sample.lower
    (Sample.records ++ [[("title", "flat")]]%string) = Raise KeyError.
Proof.
  apply (text_sentiment_company_raises_on_missing_field Sample.lower
           (λ v, ex_intro _ v eq_refl)
           (Sample.records ++ [[("title", "flat")]]%string)
           [("title", "flat")]%string).
  - apply elem_of_app. right. left.
  - right. reflexivity.
Defined.
